(** * easytestwrite-wdio: locator model, diagnostics collector and device launcher

    A shallow embedding of three TypeScript modules of the repository:

    - [Locator]: the [PageElement] class of [src/runtime/mobile-actions.ts]
      with its normalisation helpers and text factories;
    - [Diagnostics]: [collectFailureBundle] of [src/runtime/diagnostics.ts];
    - [DeviceLauncher]: the [DeviceLauncherService] class (the WDIO service that
      boots, health-checks and stops the emulator or simulator).

    JavaScript strings are sequences of UTF-16 code units; they are modelled by
    [string], that is, by sequences of code units below 256.  Asynchronous
    functions are run to completion in program order: the embedding is the
    sequential reading of every [await]. *)

From Stdlib Require Import ZArith List String Ascii Bool Lia DecimalString RelationClasses.
Import ListNotations.
Local Open Scope string_scope.
Local Open Scope Z_scope.

(* ===================================================================== *)
(** ** JavaScript string primitives used by the sources *)
(* ===================================================================== *)

Module Js.

(** [WhiteSpace] and [LineTerminator] code units below 256: the characters
    removed by [String.prototype.trim] and matched by the regular
    expression class [\s]. *)
Definition is_ws (c : ascii) : bool :=
  let n := nat_of_ascii c in
  ((9 <=? n) && (n <=? 13) || (n =? 32) || (n =? 160))%nat.

Fixpoint trimStart (s : string) : string :=
  match s with
  | EmptyString => EmptyString
  | String c s' => if is_ws c then trimStart s' else s
  end.

Fixpoint trimEnd (s : string) : string :=
  match s with
  | EmptyString => EmptyString
  | String c s' =>
      match trimEnd s' with
      | EmptyString => if is_ws c then EmptyString else String c EmptyString
      | t => String c t
      end
  end.

Definition trim (s : string) : string := trimEnd (trimStart s).

(** Truthiness of a string: [Boolean(s)]. *)
Definition truthy (s : string) : bool :=
  match s with EmptyString => false | _ => true end.

Definition lower_char (c : ascii) : ascii :=
  let n := nat_of_ascii c in
  if ((65 <=? n) && (n <=? 90)
      || (192 <=? n) && (n <=? 222) && negb (n =? 215))%nat
  then ascii_of_nat (n + 32) else c.

Fixpoint toLowerCase (s : string) : string :=
  match s with
  | EmptyString => EmptyString
  | String c s' => String (lower_char c) (toLowerCase s')
  end.

Definition startsWith (p s : string) : bool := String.prefix p s.

(** [s.includes(sub)] *)
Fixpoint includes (sub s : string) : bool :=
  String.prefix sub s
  || match s with
     | EmptyString => false
     | String _ s' => includes sub s'
     end.

(** [s.split(sep)] for a one-character separator. *)
Fixpoint split (sep : ascii) (s : string) : list string :=
  match s with
  | EmptyString => [EmptyString]
  | String c s' =>
      if Ascii.eqb c sep then EmptyString :: split sep s'
      else match split sep s' with
           | h :: t => String c h :: t
           | [] => [String c EmptyString]
           end
  end.

(** [s.replace(/c/g, by)] for a one-character pattern [c] and a
    replacement [by] without [$] patterns. *)
Fixpoint replaceAll (c : ascii) (by_ : string) (s : string) : string :=
  match s with
  | EmptyString => EmptyString
  | String d s' =>
      if Ascii.eqb d c then by_ ++ replaceAll c by_ s'
      else String d (replaceAll c by_ s')
  end.

Fixpoint take (n : nat) (s : string) : string :=
  match n, s with
  | S n', String c s' => String c (take n' s')
  | _, _ => EmptyString
  end.

Definition len (s : string) : Z := Z.of_nat (String.length s).

(** [s.slice(0, e)] for an integer [e]: a negative [e] counts from the end
    of the string, and the result is clamped to the string. *)
Definition slice0 (e : Z) (s : string) : string :=
  let stop := if e <? 0 then Z.max (len s + e) 0 else Z.min e (len s) in
  take (Z.to_nat stop) s.

(** *** [String(n)] for a number with an integer value

    A JavaScript number is a double.  [Number.prototype.toString] writes
    the shortest run of digits that still reads back as the same double,
    in plain notation below [10^21] and in exponent notation from there
    on. *)

(** The digits of an integer, written out in full. *)
Definition plain (z : Z) : string := NilZero.string_of_int (Z.to_int z).

(** The double nearest to a natural number, ties going to the even
    significand: what [Number] makes of its numeral. *)
Definition roundToDouble (v : Z) : Z :=
  let bits := Z.log2 v + 1 in
  if bits <=? 53 then v
  else
    let e := bits - 53 in
    let q := Z.shiftr v e in
    let r := v - Z.shiftl q e in
    let half := Z.shiftl 1 (e - 1) in
    let q' := if (half <? r) || ((r =? half) && Z.odd q) then q + 1 else q in
    Z.shiftl q' e.

(** The number with [k] significant digits that reads back as the double
    [d] of [n] digits, if there is one: of the two neighbours of [d] the one
    that does, the nearer one if both do. *)
Definition shortAt (n k d : Z) : option Z :=
  if n <=? k then Some d
  else
    let scale := 10 ^ (n - k) in
    let lo := (d / scale) * scale in
    let hi := lo + scale in
    let okLo := roundToDouble lo =? d in
    let okHi := roundToDouble hi =? d in
    if okLo && okHi then
      if d - lo <? hi - d then Some lo
      else if hi - d <? d - lo then Some hi
      else if Z.even (d / scale) then Some lo else Some hi
    else if okLo then Some lo
    else if okHi then Some hi
    else None.

(** The shortest such number, looked for with [k], [k + 1], ... digits;
    seventeen digits always do. *)
Fixpoint shortest (tries : nat) (n k d : Z) : Z :=
  match tries with
  | O => d
  | S t =>
      match shortAt n k d with
      | Some c => c
      | None => shortest t n (k + 1) d
      end
  end.

Fixpoint dropZeros (rev : list ascii) : list ascii :=
  match rev with
  | c :: rest => if Ascii.eqb c "0" then dropZeros rest else rev
  | [] => []
  end.

(** The digits of a number without the zeros that end it. *)
Definition significant (c : Z) : string :=
  string_of_list_ascii (List.rev (dropZeros (List.rev (list_ascii_of_string (plain c))))).

(** [String(x)] for the double [x] nearest to a natural number [v]. *)
Definition naturalToString (v : Z) : string :=
  let d := roundToDouble v in
  if 2 ^ 1024 <=? d then "Infinity"
  else
    let n := Z.of_nat (String.length (plain d)) in
    let c := shortest 17 n 1 d in
    if c <? 10 ^ 21 then plain c
    else
      let exponent := plain (Z.of_nat (String.length (plain c)) - 1) in
      match significant c with
      | String first EmptyString => String first ("e+" ++ exponent)
      | String first rest => String first ("." ++ rest ++ "e+" ++ exponent)
      | EmptyString => EmptyString
      end.

(** [String(n)] and [`${n}`] for a number whose value is the integer [z]
    (for an integer that no double has, the double [Number] makes of its
    numeral). *)
Definition decimal (z : Z) : string :=
  if z <? 0 then "-" ++ naturalToString (- z) else naturalToString z.

(** [arr.join(sep)] *)
Fixpoint join (sep : string) (l : list string) : string :=
  match l with
  | [] => EmptyString
  | [x] => x
  | x :: rest => x ++ sep ++ join sep rest
  end.

(** The rest of [s] after the prefix [p], when [s] starts with [p]. *)
Fixpoint stripPrefix (p s : string) : option string :=
  match p, s with
  | EmptyString, _ => Some s
  | String a p', String b s' => if Ascii.eqb a b then stripPrefix p' s' else None
  | String _ _, EmptyString => None
  end.

(** Case folding of the letters [A-Z], the only code units below 256 that a
    case-insensitive regular expression (flag [i], no flag [u]) identifies
    with an ASCII pattern character. *)
Definition fold_ascii (c : ascii) : ascii :=
  let n := nat_of_ascii c in
  if ((65 <=? n) && (n <=? 90))%nat then ascii_of_nat (n + 32) else c.

Fixpoint fold_case (s : string) : string :=
  match s with
  | EmptyString => EmptyString
  | String c s' => String (fold_ascii c) (fold_case s')
  end.

(** [stripPrefix] up to the case of ASCII letters; [p] is given in lower
    case.  Returns the matched text and the rest. *)
Fixpoint stripPrefixCI (p s : string) : option (string * string) :=
  match p, s with
  | EmptyString, _ => Some (EmptyString, s)
  | String a p', String b s' =>
      if Ascii.eqb a (fold_ascii b) then
        match stripPrefixCI p' s' with
        | Some (m, rest) => Some (String b m, rest)
        | None => None
        end
      else None
  | String _ _, EmptyString => None
  end.

(** The regular expression class [\w]. *)
Definition is_word (c : ascii) : bool :=
  let n := nat_of_ascii c in
  ((48 <=? n) && (n <=? 57) || (65 <=? n) && (n <=? 90)
   || (97 <=? n) && (n <=? 122) || (n =? 95))%nat.

(** The longest prefix of [s] whose characters satisfy [f], and the rest. *)
Fixpoint span (f : ascii -> bool) (s : string) : string * string :=
  match s with
  | EmptyString => (EmptyString, EmptyString)
  | String c s' =>
      if f c then let '(a, b) := span f s' in (String c a, b)
      else (EmptyString, s)
  end.

(** [/^(1|true|yes|on)$/i.test(s)] *)
Definition isTruthyString (s : string) : bool :=
  let f := fold_case s in
  (f =? "1")%string || (f =? "true")%string || (f =? "yes")%string
  || (f =? "on")%string.

(** [a || b] on optional strings: [a] when it is a non-empty string. *)
Definition orStr (a b : option string) : option string :=
  match a with
  | Some s => if truthy s then a else b
  | None => b
  end.

(** Truthiness of an optional string. *)
Definition truthyOpt (a : option string) : bool :=
  match a with Some s => truthy s | None => false end.

(** An optional string inside a template literal. *)
Definition template (a : option string) : string :=
  match a with Some s => s | None => "undefined" end.

(** [Array.from(new Set(l))]: the first occurrence of every string, in
    order. *)
Fixpoint dedupe (l : list string) : list string :=
  match l with
  | [] => []
  | x :: rest => x :: filter (fun y => negb (y =? x)%string) (dedupe rest)
  end.

(** [l.sort()]: ascending by code units. *)
Fixpoint insertSorted (x : string) (l : list string) : list string :=
  match l with
  | [] => [x]
  | y :: rest => if String.leb x y then x :: l else y :: insertSorted x rest
  end.

Definition sort (l : list string) : list string :=
  fold_right insertSorted [] l.

(** [f] holds of every character of [s]. *)
Fixpoint forallb_str (f : ascii -> bool) (s : string) : bool :=
  match s with
  | EmptyString => true
  | String c s' => f c && forallb_str f s'
  end.

(** The last character of a string. *)
Fixpoint lastChar (s : string) : option ascii :=
  match s with
  | EmptyString => None
  | String c EmptyString => Some c
  | String _ s' => lastChar s'
  end.

End Js.

(* ===================================================================== *)
(** ** Locator model: [PageElement] of [src/runtime/mobile-actions.ts] *)
(* ===================================================================== *)

Module Locator.
Import Js.

(** [type LocatorInput = string | { using: string; value: string }] *)
Inductive LocatorInput :=
| LStr (s : string)
| LObj (using_ value : string).

(** One constructor argument: a single locator or an array of them; the
    absent ([undefined] or [null]) argument is [None] in [ElementOpts]. *)
Inductive LocatorArg :=
| One (l : LocatorInput)
| Many (ls : list LocatorInput).

Record ElementOpts := mkOpts {
  o_android : option LocatorArg;
  o_ios : option LocatorArg;
  o_universal : option LocatorArg
}.

(** The three private fields, each [string[] | null]. *)
Record PageElement := mkElement {
  android : option (list string);
  ios : option (list string);
  universal : option (list string)
}.

Inductive Platform := Android | IOS.

(** The runtime flags of the WDIO [driver] global; [None] is the state in
    which no driver object exists yet. *)
Record Driver := mkDriver { isAndroid : bool; isIOS : bool }.

Definition getPlatform (driver : option Driver) : option Platform :=
  match driver with
  | Some d => if isAndroid d then Some Android
              else if isIOS d then Some IOS else None
  | None => None
  end.

Definition toAccId (v : string) : string := "~" ++ v.
Definition toAndroidUIA (expr : string) : string := "android=" ++ expr.
Definition toIOSPredicate (pred : string) : string :=
  "-ios predicate string:" ++ pred.
Definition toIOSClassChain (chain : string) : string :=
  "-ios class chain:" ++ chain.
Definition toXPath (x : string) : string := x.

Definition backslash : ascii := ascii_of_nat 92.
Definition dquote : ascii := ascii_of_nat 34.

Definition quoteJava (s : string) : string :=
  let escaped :=
    replaceAll dquote (String backslash (String dquote ""))
      (replaceAll backslash (String backslash (String backslash "")) s) in
  String dquote (escaped ++ String dquote "").

Definition quoteNS (s : string) : string :=
  let escaped := replaceAll dquote (String backslash (String dquote "")) s in
  String dquote (escaped ++ String dquote "").

Definition normalizeOne (loc : LocatorInput) : string :=
  match loc with
  | LStr s => trim s
  | LObj using_ value =>
      let strategy := toLowerCase (trim using_) in
      if strategy =? "xpath" then toXPath value
      else if strategy =? "accessibility id" then toAccId value
      else if (strategy =? "-android uiautomator") || (strategy =? "android uiautomator")
      then toAndroidUIA value
      else if (strategy =? "-ios predicate string") || (strategy =? "ios predicate string")
      then toIOSPredicate value
      else if (strategy =? "-ios class chain") || (strategy =? "ios class chain")
      then toIOSClassChain value
      else value
  end%string.

(** [normalizeList] on a present argument; the caller maps the absent
    argument to [null]. *)
Definition normalizePresent (val : LocatorArg) : option (list string) :=
  let arr := match val with One l => [l] | Many ls => ls end in
  match filter truthy (map normalizeOne arr) with
  | [] => None
  | mapped => Some mapped
  end.

Definition normalizeList (val : option LocatorArg) : option (list string) :=
  match val with
  | None => None
  | Some v => normalizePresent v
  end.

(** [new PageElement(opts)] *)
Definition construct (opts : ElementOpts) : PageElement :=
  {| android := normalizeList (o_android opts);
     ios := normalizeList (o_ios opts);
     universal := normalizeList (o_universal opts) |}.

(** The entries of a bucket, [null] holding none. *)
Definition entries (b : option (list string)) : list string :=
  match b with Some l => l | None => [] end.

Definition selectors (driver : option Driver) (el : PageElement) : list string :=
  let plat := getPlatform driver in
  ((match plat, android el with
    | Some Android, Some a => a
    | _, _ => []
    end)
   ++ (match plat, ios el with
       | Some IOS, Some i => i
       | _, _ => []
       end)
   ++ entries (universal el))%list.

(** [arr?.[0]], with [undefined] as [None]. *)
Definition first (b : option (list string)) : option string :=
  match b with
  | Some (x :: _) => Some x
  | _ => None
  end.

(** [a ?? b] *)
Definition orElse {A} (a b : option A) : option A :=
  match a with Some _ => a | None => b end.

Definition toSelector (driver : option Driver) (el : PageElement) : option string :=
  match selectors driver el with
  | x :: _ => Some x
  | [] => orElse (first (android el)) (orElse (first (ios el)) (first (universal el)))
  end.

(** Truthiness of a constructor argument: only the empty string is a
    present but falsy locator. *)
Definition arg_truthy (a : option LocatorArg) : bool :=
  match a with
  | None => false
  | Some (One (LStr s)) => truthy s
  | Some _ => true
  end.

(** One statement [if (opts?.b) (this.b ||= []).push(...normalizeList(opts.b)!)]
    of [withFallbacks].  The bucket is first replaced by [[]] when it is
    [null]; spreading a [null] result of [normalizeList] then raises a
    [TypeError], reported by [false]. *)
Definition pushFallbacks (b : option (list string)) (a : option LocatorArg)
  : option (list string) * bool :=
  if arg_truthy a then
    match normalizeList a with
    | Some xs => (Some (entries b ++ xs)%list, true)
    | None => (Some (entries b), false)
    end
  else (b, true).

(** [withFallbacks(opts)]: the element after the call and whether the call
    returned ([true]) or raised ([false]); the three statements run in
    order and the first that raises ends the call. *)
Definition withFallbacks (el : PageElement) (opts : ElementOpts)
  : PageElement * bool :=
  let '(a, ok) := pushFallbacks (android el) (o_android opts) in
  if negb ok then (mkElement a (ios el) (universal el), false) else
  let '(i, ok) := pushFallbacks (ios el) (o_ios opts) in
  if negb ok then (mkElement a i (universal el), false) else
  let '(u, ok) := pushFallbacks (universal el) (o_universal opts) in
  (mkElement a i u, ok).

(** A sequence of [withFallbacks] calls on the same element, a raising
    call being caught by the caller before the next one. *)
Definition applyFallbacks (el : PageElement) (calls : list ElementOpts)
  : PageElement :=
  fold_left (fun e o => fst (withFallbacks e o)) calls el.

Definition byTextExact (text : string) : PageElement :=
  construct
    {| o_android :=
         Some (One (LStr (toAndroidUIA
           ("new UiSelector().text(" ++ quoteJava text ++ ")"))));
       o_ios :=
         Some (One (LStr (toIOSPredicate
           ("name == " ++ quoteNS text ++ " OR label == " ++ quoteNS text
            ++ " OR value == " ++ quoteNS text))));
       o_universal := None |}.

Definition byTextContains (text : string) : PageElement :=
  construct
    {| o_android :=
         Some (One (LStr (toAndroidUIA
           ("new UiSelector().textContains(" ++ quoteJava text ++ ")"))));
       o_ios :=
         Some (One (LStr (toIOSPredicate
           ("name CONTAINS " ++ quoteNS text ++ " OR label CONTAINS "
            ++ quoteNS text ++ " OR value CONTAINS " ++ quoteNS text))));
       o_universal := None |}.

(** The bucket of a platform. *)
Definition bucket (p : Platform) (el : PageElement) : option (list string) :=
  match p with Android => android el | IOS => ios el end.

Definition driverFor (p : Platform) : option Driver :=
  Some match p with
       | Android => mkDriver true false
       | IOS => mkDriver false true
       end.

(** The escaped texts that [quoteJava] and [quoteNS] put between the
    quotes. *)
Definition escJava (s : string) : string :=
  replaceAll dquote (String backslash (String dquote ""))
    (replaceAll backslash (String backslash (String backslash "")) s).

Definition escNS (s : string) : string :=
  replaceAll dquote (String backslash (String dquote "")) s.

(** *** The reading side of the literals

    The repository only writes literals.  The reader below is the common
    core of the string-literal syntax of the two query dialects (a Java
    string literal inside a [UiSelector] expression, a double-quoted string
    of an [NSPredicate] format): a literal opens and closes with a double
    quote, a backslash introduces a one-character escape, and a raw line
    terminator is not allowed inside. *)

Definition is_line_terminator (c : ascii) : bool :=
  let n := nat_of_ascii c in ((n =? 10) || (n =? 13))%nat.

Definition unescape (e : ascii) : option ascii :=
  let n := nat_of_ascii e in
  if (n =? 34)%nat then Some dquote
  else if (n =? 39)%nat then Some e
  else if (n =? 92)%nat then Some backslash
  else if (n =? 110)%nat then Some (ascii_of_nat 10)
  else if (n =? 116)%nat then Some (ascii_of_nat 9)
  else if (n =? 114)%nat then Some (ascii_of_nat 13)
  else if (n =? 98)%nat then Some (ascii_of_nat 8)
  else if (n =? 102)%nat then Some (ascii_of_nat 12)
  else None.

(** The text of a literal whose opening quote has been read, and what
    follows its closing quote. *)
Fixpoint readBody (s : string) : option (string * string) :=
  match s with
  | EmptyString => None
  | String c s' =>
      if Ascii.eqb c dquote then Some (EmptyString, s')
      else if Ascii.eqb c backslash then
        match s' with
        | String e s'' =>
            match unescape e, readBody s'' with
            | Some ch, Some (t, rest) => Some (String ch t, rest)
            | _, _ => None
            end
        | EmptyString => None
        end
      else if is_line_terminator c then None
      else match readBody s' with
           | Some (t, rest) => Some (String c t, rest)
           | None => None
           end
  end.

Definition readLiteral (s : string) : option (string * string) :=
  match s with
  | String c s' => if Ascii.eqb c dquote then readBody s' else None
  | EmptyString => None
  end.

(** The text queried by an Android selector [android=new UiSelector().m("...")]
    for the method [m]. *)
Definition readAndroidText (m sel : string) : option string :=
  match stripPrefix ("android=new UiSelector()." ++ m ++ "(") sel with
  | Some rest =>
      match readLiteral rest with
      | Some (t, rest') => if (rest' =? ")")%string then Some t else None
      | None => None
      end
  | None => None
  end.

(** The three texts compared by an iOS selector
    [-ios predicate string:name op "..." OR label op "..." OR value op "..."]. *)
Definition readIOSTexts (op sel : string) : option (string * string * string) :=
  match stripPrefix ("-ios predicate string:name " ++ op ++ " ") sel with
  | Some r1 =>
      match readLiteral r1 with
      | Some (t1, r2) =>
          match stripPrefix (" OR label " ++ op ++ " ") r2 with
          | Some r3 =>
              match readLiteral r3 with
              | Some (t2, r4) =>
                  match stripPrefix (" OR value " ++ op ++ " ") r4 with
                  | Some r5 =>
                      match readLiteral r5 with
                      | Some (t3, r6) =>
                          if (r6 =? "")%string then Some (t1, t2, t3) else None
                      | None => None
                      end
                  | None => None
                  end
              | None => None
              end
          | None => None
          end
      | None => None
      end
  | None => None
  end.

(** The characters of the texts the factories are specified for: an
    ordinary character is any character but the double quote, the backslash
    and the line terminators. *)
Definition ordinary (c : ascii) : bool :=
  negb (Ascii.eqb c dquote) && negb (Ascii.eqb c backslash)
  && negb (is_line_terminator c).

(** Texts of ordinary characters, double quotes and backslashes. *)
Definition androidText (s : string) : bool :=
  forallb_str (fun c => ordinary c || Ascii.eqb c dquote || Ascii.eqb c backslash) s.

(** Texts of ordinary characters and double quotes. *)
Definition iosText (s : string) : bool :=
  forallb_str (fun c => ordinary c || Ascii.eqb c dquote) s.

(** The argument of [withFallbacks] for the bucket of a platform. *)
Definition argFor (p : Platform) (o : ElementOpts) : option LocatorArg :=
  match p with Android => o_android o | IOS => o_ios o end.

(** Whether every call of a sequence of [withFallbacks] calls returns. *)
Fixpoint allReturn (el : PageElement) (calls : list ElementOpts) : bool :=
  match calls with
  | [] => true
  | o :: rest => snd (withFallbacks el o) && allReturn (fst (withFallbacks el o)) rest
  end.

(** The resolution for an unknown platform as the specification words it:
    the first android entry, else the first ios entry, else the first
    universal entry, else [null]. *)
Definition specUnknownSelector (el : PageElement) : option string :=
  orElse (first (android el)) (orElse (first (ios el)) (first (universal el))).

(** An element with an android and a universal locator. *)
Definition loginButton : PageElement :=
  construct {| o_android := Some (One (LStr "~login"));
               o_ios := None;
               o_universal := Some (One (LStr "//button[@name='login']")) |}.

(** *** The other factories *)

Definition byAccessibilityId (id : string) : PageElement :=
  let s := toAccId id in
  construct {| o_android := Some (One (LStr s));
               o_ios := Some (One (LStr s));
               o_universal := Some (One (LStr s)) |}.

Definition byAndroidAccessibilityId (id : string) : PageElement :=
  construct {| o_android := Some (One (LStr (toAccId id)));
               o_ios := None; o_universal := None |}.

Definition byIOSAccessibilityId (id : string) : PageElement :=
  construct {| o_android := None;
               o_ios := Some (One (LStr (toAccId id))); o_universal := None |}.

Definition byAndroidUIAutomator (expr : string) : PageElement :=
  construct {| o_android := Some (One (LStr (toAndroidUIA expr)));
               o_ios := None; o_universal := None |}.

Definition byIOSPredicate (expr : string) : PageElement :=
  construct {| o_android := None;
               o_ios := Some (One (LStr (toIOSPredicate expr))); o_universal := None |}.

Definition byIOSClassChain (chain : string) : PageElement :=
  construct {| o_android := None;
               o_ios := Some (One (LStr (toIOSClassChain chain))); o_universal := None |}.

Definition byXPath (xpath : string) : PageElement :=
  construct {| o_android := None; o_ios := None;
               o_universal := Some (One (LStr (toXPath xpath))) |}.

(** [ExamplePage.elByName] of [tests/pages/example.page.ts]: the element
    and whether [withFallbacks] returned. *)
Definition elByName (name : string) : PageElement * bool :=
  withFallbacks (byTextExact name)
    {| o_android := None; o_ios := None;
       o_universal := Some (One (LStr (toAccId name))) |}.

(** *** [escapeXPath] *)

Definition squote : ascii := ascii_of_nat 39.

(** [arr.map((p, i) => f i p)], the indices starting at [i]. *)
Fixpoint mapiFrom {A B} (i : nat) (f : nat -> A -> B) (l : list A) : list B :=
  match l with
  | [] => []
  | x :: rest => f i x :: mapiFrom (S i) f rest
  end.

Definition mapi {A B} (f : nat -> A -> B) (l : list A) : list B := mapiFrom 0 f l.

Definition escapeXPath (s : string) : string :=
  if negb (includes (String squote "") s) then String squote (s ++ String squote "")
  else if negb (includes (String dquote "") s) then String dquote (s ++ String dquote "")
  else
    let parts := split squote s in
    "concat("
    ++ join ","
         (mapi (fun i p =>
                  if (i =? 0)%nat then String dquote (p ++ String dquote "")
                  else String dquote (String squote (String dquote
                         ("," ++ String dquote (p ++ String dquote "")))))
            parts)
    ++ ")".

(** *** The reading side of an XPath string expression

    An XPath string literal is enclosed in single or in double quotes and
    holds no quote of its own kind; there is no escape.  [concat] takes
    string literals separated by commas. *)

(** The text up to the closing quote [q], and what follows it. *)
Fixpoint untilQuote (q : ascii) (s : string) : option (string * string) :=
  match s with
  | EmptyString => None
  | String c s' =>
      if Ascii.eqb c q then Some (EmptyString, s')
      else match untilQuote q s' with
           | Some (t, rest) => Some (String c t, rest)
           | None => None
           end
  end.

Definition readXPathLiteral (s : string) : option (string * string) :=
  match s with
  | String c s' =>
      if Ascii.eqb c squote || Ascii.eqb c dquote then untilQuote c s' else None
  | EmptyString => None
  end.

(** The arguments of a [concat] after its opening parenthesis, joined;
    [n] bounds their number. *)
Fixpoint readConcatArgs (n : nat) (s : string) : option string :=
  match n with
  | O => None
  | S n' =>
      match readXPathLiteral s with
      | Some (t, String c rest) =>
          if Ascii.eqb c ","%char then
            match readConcatArgs n' rest with
            | Some r => Some (t ++ r)
            | None => None
            end
          else if Ascii.eqb c ")"%char then
            match rest with EmptyString => Some t | _ => None end
          else None
      | _ => None
      end
  end.

(** The string an XPath string expression denotes. *)
Definition readXPath (s : string) : option string :=
  match stripPrefix "concat(" s with
  | Some args => readConcatArgs (String.length args) args
  | None =>
      match readXPathLiteral s with
      | Some (t, EmptyString) => Some t
      | _ => None
      end
  end.

(** The number of occurrences of a character. *)
Fixpoint count (c : ascii) (s : string) : nat :=
  match s with
  | EmptyString => O
  | String d s' => (if Ascii.eqb d c then 1 else 0) + count c s'
  end.

(** *** [escapeRegex] and [byResourceId] *)

(** The class of the characters [escapeRegex] escapes: the dot, the star,
    the plus, the question mark, the caret, the dollar, the braces, the
    parentheses, the bar, the brackets and the backslash. *)
Definition isRegexSpecial (c : ascii) : bool :=
  existsb (Ascii.eqb c)
    ["."%char; "*"%char; "+"%char; "?"%char; "^"%char; "$"%char; "{"%char; "}"%char;
     "("%char; ")"%char; "|"%char; "["%char; "]"%char; backslash].

Fixpoint escapeRegex (s : string) : string :=
  match s with
  | EmptyString => EmptyString
  | String c s' =>
      if isRegexSpecial c then String backslash (String c (escapeRegex s'))
      else String c (escapeRegex s')
  end.

(** The text matched by a pattern that is made of plain characters and
    escaped special characters only. *)
Fixpoint regexLiteral (p : string) : option string :=
  match p with
  | EmptyString => Some EmptyString
  | String c p' =>
      if Ascii.eqb c backslash then
        match p' with
        | String e p'' =>
            if isRegexSpecial e then
              match regexLiteral p'' with
              | Some t => Some (String e t)
              | None => None
              end
            else None
        | EmptyString => None
        end
      else if isRegexSpecial c then None
      else match regexLiteral p' with
           | Some t => Some (String c t)
           | None => None
           end
  end.

(** What [getAndroidAppPackage] consults: the two capabilities of the
    session (absent when there is no session) and the environment. *)
Record PackageSources := mkPackageSources {
  appiumAppPackage : option string;
  appPackage : option string;
  envAppPackage : option string
}.

(** [getAndroidAppPackage()]: the package and the module-level cache
    [ANDROID_APP_PACKAGE_CACHE] after the call. *)
Definition getAndroidAppPackage (src : PackageSources) (cache : option string)
  : option string * option string :=
  if truthyOpt cache then (cache, cache)
  else
    let fromCaps := orStr (appiumAppPackage src) (appPackage src) in
    let found := orStr fromCaps (envAppPackage src) in
    let v := if truthyOpt found then found else None in
    (v, v).

Definition setAndroidAppPackage (pkg : string) (cache : option string) : option string :=
  Some pkg.

Record ResourceIdOpts := mkResourceIdOpts {
  includePackagePrefix : option bool;
  regex : option bool
}.

(** [PageElement.byResourceId(id, opts)]: the element and the cache after
    the call. *)
Definition byResourceId (src : PackageSources) (cache : option string)
    (id : string) (opts : option ResourceIdOpts) : PageElement * option string :=
  let '(pkg, cache') := getAndroidAppPackage src cache in
  let wantPrefix :=
    match opts with
    | Some o => match includePackagePrefix o with Some b => b | None => true end
    | None => true
    end in
  let wantRegex :=
    match opts with
    | Some o => match regex o with Some b => b | None => false end
    | None => false
    end in
  if wantPrefix && truthyOpt pkg && negb wantRegex then
    let full := template pkg ++ ":id/" ++ id in
    (construct {| o_android :=
                    Some (One (LStr (toAndroidUIA
                      ("new UiSelector().resourceId(" ++ quoteJava full ++ ")"))));
                  o_ios := None; o_universal := None |},
     cache')
  else
    let rx := "(.+:id/)?" ++ escapeRegex id ++ "$" in
    (construct {| o_android :=
                    Some (One (LStr (toAndroidUIA
                      ("new UiSelector().resourceIdMatches(" ++ quoteJava rx ++ ")"))));
                  o_ios := None; o_universal := None |},
     cache').

(** Every entry of the three buckets is a non-empty string. *)
Definition entriesNonEmpty (el : PageElement) : Prop :=
  Forall (fun s => truthy s = true) (entries (android el))
  /\ Forall (fun s => truthy s = true) (entries (ios el))
  /\ Forall (fun s => truthy s = true) (entries (universal el)).

(** An argument of [withFallbacks] that it can take: absent or falsy, or
    with at least one locator that is not empty after normalisation. *)
Definition usable (a : option LocatorArg) : bool :=
  negb (arg_truthy a)
  || match normalizeList a with Some _ => true | None => false end.

End Locator.

(* ===================================================================== *)
(** ** Computations with a store, exceptions and bounded loops *)
(* ===================================================================== *)

Module Eff.

(** How a call ends: it returns, it raises (the payload is the text
    [e?.message ?? String(e)] of the raised value), or the iteration budget
    given to a polling loop of the model ran out before the loop ended. *)
Inductive outcome (A : Type) : Type :=
| Returned (a : A)
| Thrown (message : string)
| OutOfFuel.

Arguments Returned {A} a.
Arguments Thrown {A} message.
Arguments OutOfFuel {A}.

(** A computation over a store [S]; the store it leaves is kept also when
    it raises, as the assignments made before a [throw] are. *)
Definition M (S A : Type) : Type := S -> outcome A * S.

Definition ret {S A} (a : A) : M S A := fun s => (Returned a, s).

Definition bind {S A B} (m : M S A) (k : A -> M S B) : M S B :=
  fun s =>
    match m s with
    | (Returned a, s') => k a s'
    | (Thrown e, s') => (Thrown e, s')
    | (OutOfFuel, s') => (OutOfFuel, s')
    end.

Definition throw {S A} (e : string) : M S A := fun s => (Thrown e, s).

Definition exhausted {S A} : M S A := fun s => (OutOfFuel, s).

Definition get {S} : M S S := fun s => (Returned s, s).

Definition modify {S} (f : S -> S) : M S unit := fun s => (Returned tt, f s).

(** [try { m } catch (e) { h e }] *)
Definition tryCatch {S A} (m : M S A) (h : string -> M S A) : M S A :=
  fun s =>
    match m s with
    | (Thrown e, s') => h e s'
    | r => r
    end.

(** [if (b) m] *)
Definition when {S} (b : bool) (m : M S unit) : M S unit :=
  if b then m else ret tt.

Declare Scope eff_scope.
Delimit Scope eff_scope with eff.

Notation "x <- m ;; k" := (bind m (fun x => k))
  (at level 61, m at next level, right associativity) : eff_scope.
Notation "m ;;; k" := (bind m (fun _ => k))
  (at level 61, right associativity) : eff_scope.

End Eff.

(* ===================================================================== *)
(** ** Diagnostics collector: [src/runtime/diagnostics.ts] *)
(* ===================================================================== *)

Module Diagnostics.
Import Js Eff.
Local Open Scope eff_scope.

Inductive Platform := android | ios.

(** A window rectangle, passed through unchanged. *)
Record Rect := mkRect { x : Z; y : Z; width : Z; height : Z }.

(** [Number(s)] of a field of a TCC row, kept as the conversion of its
    source text ([None] when the row has no such field). *)
Inductive JsNumber := NumberOf (source : option string).

Record TccRow := mkRow {
  service : string;
  allowed : JsNumber;
  prompt_count : JsNumber
}.

Record App := mkApp {
  packageId : option string;
  bundleId : option string;
  activity : option string
}.

Record Permissions := mkPermissions {
  granted : option (list string);
  denied : option (list string);
  raw : option string;
  iosTcc : option (list TccRow)
}.

Record FailureBundle := mkBundle {
  timestamp : string;
  platform : Platform;
  sessionId : option string;
  context : option string;
  contexts : option (list string);
  windowRect : option Rect;
  pageSource : option string;
  app : option App;
  permissions : option Permissions;
  notes : list string
}.


(** The outcome of an awaited call on the driver or on a child process:
    the value it resolves to or the message it rejects with. *)
Inductive answer (A : Type) : Type :=
| Resolves (v : A)
| Rejects (message : string).

Arguments Resolves {A} v.
Arguments Rejects {A} message.



(** [const truthy = (v?: string) => /^(1|true|yes|on)$/i.test(String(v ?? ''))] *)
Definition truthy (v : option string) : bool :=
  isTruthyString (match v with Some s => s | None => "" end).

(** *** The permission dump of Android *)

(** The text up to the first closing bracket. *)
Fixpoint untilBracket (s : string) : option string :=
  match s with
  | EmptyString => None
  | String c s' =>
      if Ascii.eqb c "]"%char then Some EmptyString
      else match untilBracket s' with
           | Some t => Some (String c t)
           | None => None
           end
  end.

(** The pattern of the granted block (the literal [grantedPermissions:],
    white space, an opening bracket, the group of all characters up to the
    first closing bracket, and that bracket) matched at the start of [s]:
    the group. *)
Definition grantedBlockAt (s : string) : option string :=
  match stripPrefix "grantedPermissions:" s with
  | Some rest =>
      match trimStart rest with
      | String c body => if Ascii.eqb c "["%char then untilBracket body else None
      | EmptyString => None
      end
  | None => None
  end.

(** [raw.match] of the granted-block pattern: the group of the leftmost
    match. *)
Fixpoint grantedBlock (s : string) : option string :=
  match grantedBlockAt s with
  | Some g => Some g
  | None =>
      match s with
      | EmptyString => None
      | String _ s' => grantedBlock s'
      end
  end.

(** [\s*lit] with [lit] matched up to case. *)
Definition wsThen (lit s : string) : option string :=
  match stripPrefixCI lit (trimStart s) with
  | Some (_, rest) => Some rest
  | None => None
  end.

(** The case-insensitive pattern of a grant line (group one: the literal
    [android.permission.] and one or more word characters; then, each after
    optional white space, a colon, [granted], an equals sign and group two:
    [true] or [false]) matched at the start of [s]: the two groups. *)
Definition grantLineAt (s : string) : option (string * string) :=
  match stripPrefixCI "android.permission." s with
  | Some (p, rest) =>
      match span is_word rest with
      | (EmptyString, _) => None
      | (w, rest) =>
          match wsThen ":" rest with
          | Some rest =>
              match wsThen "granted" rest with
              | Some rest =>
                  match wsThen "=" rest with
                  | Some rest =>
                      match stripPrefixCI "true" (trimStart rest) with
                      | Some (v, _) => Some (p ++ w, v)
                      | None =>
                          match stripPrefixCI "false" (trimStart rest) with
                          | Some (v, _) => Some (p ++ w, v)
                          | None => None
                          end
                      end
                  | None => None
                  end
              | None => None
              end
          | None => None
          end
      end
  | None => None
  end.

(** [line.match(...)]: the groups of the leftmost match. *)
Fixpoint grantLine (s : string) : option (string * string) :=
  match grantLineAt s with
  | Some g => Some g
  | None =>
      match s with
      | EmptyString => None
      | String _ s' => grantLine s'
      end
  end.

(** The two lists filled by parsing the dump, before deduplication. *)
Definition parseDump (raw : string) : list string * list string :=
  match grantedBlock raw with
  | Some block =>
      (filter Js.truthy (map trim (split ","%char block)), [])
  | None =>
      fold_left
        (fun '(g, d) line =>
           match grantLine line with
           | Some (perm, v) =>
               if (toLowerCase v =? "true")%string
               then ((g ++ [perm])%list, d) else (g, (d ++ [perm])%list)
           | None => (g, d)
           end)
        (split (ascii_of_nat 10) raw) ([], [])
  end.

(** *** The TCC table of the iOS Simulator *)




(** *** The collector; the store is the bundle under construction *)

Definition C := M FailureBundle.













(** *** What a collection is expected to hold *)

(** The value an awaited call leaves in its field when the rejection is
    swallowed. *)
Definition settled {A} (a : answer A) : option A :=
  match a with Resolves v => Some v | Rejects _ => None end.









End Diagnostics.

(* ===================================================================== *)
(** ** Device launcher: the [DeviceLauncherService] class *)
(* ===================================================================== *)

Module AndroidOpts.
Record t := mk {
  avdName : option string;
  port : option Z;
  headless : option bool;
  coldBoot : option bool;
  noSnapshot : option bool;
  bootTimeoutMs : option Z;
  killOnComplete : option bool
}.
End AndroidOpts.

Module IOSOpts.
Record t := mk {
  udid : option string;
  deviceName : option string;
  headless : option bool;
  bootTimeoutMs : option Z;
  killOnComplete : option bool
}.
End IOSOpts.

Module DeviceLauncher.
Import Js Eff.
Local Open Scope eff_scope.

Inductive Platform := android | ios.

Record DeviceServiceOpts := mkServiceOpts {
  platform : Platform;
  androidOpts : option AndroidOpts.t;
  iosOpts : option IOSOpts.t;
  verbose : option bool
}.

(** The variables of [process.env] read by the service.  A numeric variable
    is given by the integer [Number(...)] makes of it; settings that are not
    integers are outside the model. *)
Record ProcessEnv := mkEnv {
  ANDROID_EMULATOR_NAME : option string;
  ANDROID_EMULATOR_PORT : option Z;
  ANDROID_COLD_BOOT : option string;
  ANDROID_NO_SNAPSHOT : option string;
  ANDROID_EMULATOR_RETRIES : option Z;
  ANDROID_HEALTHCHECK_RETRIES : option Z;
  ANDROID_HEALTHCHECK_INTERVAL_MS : option Z;
  ANDROID_COLD_RESTART_ON_FAIL : option string;
  ANDROID_HEADLESS : option string;
  IOS_HEADLESS : option string;
  HEADLESS : option string;
  CI : option string;
  IOS_UDID : option string;
  IOS_DEVICE_NAME : option string
}.

(** The answer of the promisified [child_process.exec]: the standard output
    of the command, or the message of the error it rejects with. *)
Inductive answer :=
| Resolves (stdout : string)
| Rejects (message : string).

(** The machine the service runs on, as a deterministic transition system
    over its own state [W]: running a shell command, spawning a detached
    child, reading the clock and letting time pass. *)
Record Host (W : Type) := mkHost {
  run : string -> W -> answer * W;
  detach : string -> list string -> W -> W;
  clock : W -> Z * W;
  pause : Z -> W -> W;
  osPlatform : string
}.

Arguments run {W}.
Arguments detach {W}.
Arguments clock {W}.
Arguments pause {W}.
Arguments osPlatform {W}.

(** What a run leaves behind, in order: the commands run with their
    answers, the children spawned, the sleeps, the lines logged, and two
    marks that are not effects of the code: [Healthy id] where a health probe
    ([isAndroidHealthy] or [isBooted]) answers [true] for [id], and
    [Started id] where [started] is assigned [true] while [id] is the
    tracked identifier of the platform. *)
Inductive event :=
| Exec (cmd : string) (r : answer)
| Spawn (cmd : string) (args : list string)
| Sleep (ms : Z)
| Log (line : string)
| Healthy (id : string)
| Started (id : option string).

(** The fields of the service object, the host and the history. *)
Record Store (W : Type) := mkStore {
  androidSerial : option string;
  iosUdid : option string;
  started : bool;
  world : W;
  trace : list event
}.

Arguments mkStore {W}.
Arguments androidSerial {W}.
Arguments iosUdid {W}.
Arguments started {W}.
Arguments world {W}.
Arguments trace {W}.

(** [envFlag(name)]: [undefined] when the variable is not set, else
    [isTruthy] of it. *)
Definition envFlag (v : option string) : option bool :=
  match v with
  | None => None
  | Some s => Some (isTruthyString s)
  end.

(** [a ?? b] with a final default. *)
Definition nullish {A} (a : option A) (b : A) : A :=
  match a with Some v => v | None => b end.

Definition orElse {A} (a b : option A) : option A :=
  match a with Some _ => a | None => b end.

(** [a || b] on optional booleans, read as a condition. *)
Definition orFlag (a : option bool) (b : bool) : bool :=
  match a with Some true => true | _ => b end.

(** [v === '1'] *)
Definition isOne (v : option string) : bool :=
  match v with Some s => (s =? "1")%string | None => false end.

Section Service.

Context {W : Type}.
Variable host : Host W.
Variable opts : DeviceServiceOpts.
Variable env : ProcessEnv.

Definition S := M (Store W).

Definition emit (e : event) : S unit :=
  modify (fun s => mkStore (androidSerial s) (iosUdid s) (started s) (world s)
                     (trace s ++ [e])%list).

Definition setAndroidSerial (v : string) : S unit :=
  modify (fun s => mkStore (Some v) (iosUdid s) (started s) (world s) (trace s)).

Definition setIosUdid (v : string) : S unit :=
  modify (fun s => mkStore (androidSerial s) (Some v) (started s) (world s) (trace s)).

(** [this.started = true] *)
Definition setStarted : S unit :=
  modify (fun s => mkStore (androidSerial s) (iosUdid s) true (world s)
                     (trace s ++ [Started (match platform opts with
                                           | android => androidSerial s
                                           | ios => iosUdid s
                                           end)])%list).

(** *** misc *)

Definition sleep (ms : Z) : S unit :=
  fun s => (Returned tt,
            mkStore (androidSerial s) (iosUdid s) (started s)
              (pause host ms (world s)) (trace s ++ [Sleep ms])%list).

Definition log (msg : string) : S unit :=
  when (nullish (verbose opts) true) (emit (Log ("[device-service] " ++ msg))).

(** [Date.now()] *)
Definition now : S Z :=
  fun s => let '(t, w) := clock host (world s) in
           (Returned t, mkStore (androidSerial s) (iosUdid s) (started s) w (trace s)).

(** [await exec(cmd)], resolving to [stdout]. *)
Definition exec (cmd : string) : S string :=
  fun s => let '(r, w) := run host cmd (world s) in
           let s' := mkStore (androidSerial s) (iosUdid s) (started s) w
                       (trace s ++ [Exec cmd r])%list in
           match r with
           | Resolves out => (Returned out, s')
           | Rejects e => (Thrown e, s')
           end.

(** [spawn(cmd, args, { stdio: 'ignore', detached: true })] and [unref()] *)
Definition spawn (cmd : string) (args : list string) : S unit :=
  fun s => (Returned tt,
            mkStore (androidSerial s) (iosUdid s) (started s)
              (detach host cmd args (world s)) (trace s ++ [Spawn cmd args])%list).

(** [promise.catch(() => v)] *)
Definition orOnError {A} (m : S A) (v : A) : S A := tryCatch m (fun _ => ret v).

(** *** Android *)

Definition emulatorCmd : string :=
  if (osPlatform host =? "win32")%string then "emulator.exe" else "emulator".

Definition tryAdbRestart : S unit :=
  tryCatch (exec "adb start-server" ;;; ret tt) (fun _ => ret tt).

Definition adbDevices : S (list string) :=
  stdout <- exec "adb devices" ;;
  let lines := tl (split (ascii_of_nat 10) stdout) in
  ret (filter truthy
         (map (fun l => hd "" (split (ascii_of_nat 9) (trim l))) lines)).

Definition execAdb (serial : string) (args : list string) : S string :=
  let cmd := join " " ("adb" :: "-s" :: serial :: args) in
  log ("[android] $ " ++ cmd) ;;;
  exec cmd.

Definition findEmulator (devices : list string) : option string :=
  find (startsWith "emulator-") devices.

Definition healthInterval : Z := nullish (ANDROID_HEALTHCHECK_INTERVAL_MS env) 1500.

Definition isAndroidHealthy (serial : string) : S bool :=
  let interval := healthInterval in
  tryCatch
    (list <- adbDevices ;;
     if negb (existsb (String.eqb serial) list) then ret false else
     state <- orOnError (r <- execAdb serial ["get-state"] ;; ret (trim r)) "" ;;
     if negb (state =? "device")%string then ret false else
     rel <- orOnError
              (r <- execAdb serial ["shell"; "getprop"; "ro.build.version.release"] ;;
               ret (trim r)) "" ;;
     if negb (truthy rel) then ret false else
     pm <- orOnError
             (r <- execAdb serial ["shell"; "pm"; "path"; "android"] ;;
              ret (includes "package:" r)) false ;;
     if negb pm then ret false else
     s1 <- orOnError
             (r <- execAdb serial ["shell"; "getprop"; "sys.boot_completed"] ;;
              ret (trim r)) "" ;;
     if negb (s1 =? "1")%string then
       sleep interval ;;;
       s2 <- orOnError
               (r <- execAdb serial ["shell"; "getprop"; "sys.boot_completed"] ;;
                ret (trim r)) "" ;;
       if negb (s2 =? "1")%string then ret false
       else emit (Healthy serial) ;;; ret true
     else emit (Healthy serial) ;;; ret true)
    (fun _ => ret false).

(** The [for] loop of [waitForAndroidHealthy], from the index [i]; [budget]
    bounds the iterations left. *)
Fixpoint healthyLoop (budget : nat) (retries i : Z) (serial : string) : S bool :=
  if i <=? retries then
    match budget with
    | O => exhausted
    | Datatypes.S b =>
        ok <- isAndroidHealthy serial ;;
        if ok then ret true
        else sleep healthInterval ;;; healthyLoop b retries (i + 1) serial
    end
  else ret false.

Definition waitForAndroidHealthy (serial : string) : S bool :=
  let retries := nullish (ANDROID_HEALTHCHECK_RETRIES env) 3 in
  healthyLoop (Z.to_nat (retries + 1)) retries 0 serial.

Definition stopAndroid : S unit :=
  s <- get ;;
  match androidSerial s with
  | Some serial =>
      if truthy serial then
        log ("[android] killing emulator " ++ serial ++ " ...") ;;;
        tryCatch
          (execAdb serial ["emu"; "kill"] ;;; ret tt)
          (fun e =>
             log ("[android] failed to kill via " ++ String (ascii_of_nat 34) "emu kill"
                  ++ String (ascii_of_nat 34) ", trying adb kill-server: " ++ e) ;;;
             orOnError (exec "adb kill-server" ;;; ret tt) tt)
      else log "[android] no emulator serial tracked; skipping kill"
  | None => log "[android] no emulator serial tracked; skipping kill"
  end.

(** The three property reads of one round of [waitForBootComplete], issued
    together and awaited with [Promise.allSettled]; they are taken in the
    order in which they are issued. *)
Definition settled (m : S string) : S string := orOnError (r <- m ;; ret (trim r)) "".

(** The [while] loop of [waitForBootComplete]: [true] when it ends by
    [return], [false] when the deadline passes. *)
Fixpoint bootLoop (fuel : nat) (deadline : Z) (serial : string) : S bool :=
  t <- now ;;
  if t <? deadline then
    match fuel with
    | O => exhausted
    | Datatypes.S f =>
        s1 <- settled (execAdb serial ["shell"; "getprop"; "sys.boot_completed"]) ;;
        s2 <- settled (execAdb serial ["shell"; "getprop"; "dev.bootcomplete"]) ;;
        s3 <- settled (execAdb serial ["shell"; "getprop"; "init.svc.bootanim"]) ;;
        let bootOk := (s1 =? "1")%string || (s2 =? "1")%string in
        let animOk := negb (truthy s3) || (s3 =? "stopped")%string in
        pmOk <- orOnError
                  (r <- execAdb serial ["shell"; "pm"; "path"; "android"] ;;
                   ret (includes "package:" r)) false ;;
        if (bootOk && animOk) || (bootOk && pmOk) then ret true
        else sleep 1500 ;;; bootLoop f deadline serial
    end
  else ret false.

Definition waitForBootComplete (fuel : nat) (serial : string) (timeoutMs : Z) : S unit :=
  t <- now ;;
  let deadline := t + Z.max timeoutMs 60000 in
  done <- bootLoop fuel deadline serial ;;
  if done then ret tt else
  (* last chance quick check *)
  ok <- orOnError
          (stdout <- execAdb serial ["shell"; "getprop"; "sys.boot_completed"] ;;
           ret (trim stdout =? "1")%string) false ;;
  if ok then ret tt
  else throw "[android] emulator boot timeout (sys.boot_completed != 1)".

(** The [while] loop of [startAndroid] waiting for the emulator to be
    listed. *)
Fixpoint awaitSerial (fuel : nat) (deadline : Z) : S (option string) :=
  t <- now ;;
  if t <? deadline then
    match fuel with
    | O => exhausted
    | Datatypes.S f =>
        ds <- adbDevices ;;
        match findEmulator ds with
        | Some serial => ret (Some serial)
        | None => sleep 1500 ;;; awaitSerial f deadline
        end
    end
  else ret None.

Definition configuredAvdName : option string :=
  orStr (match androidOpts opts with Some a => AndroidOpts.avdName a | None => None end)
        (ANDROID_EMULATOR_NAME env).

Definition androidOpt {A} (f : AndroidOpts.t -> option A) : option A :=
  match androidOpts opts with Some a => f a | None => None end.

Definition iosOpt {A} (f : IOSOpts.t -> option A) : option A :=
  match iosOpts opts with Some a => f a | None => None end.

Definition startAndroid (fuel : nat) (forceColdBoot : bool) : S unit :=
  let avdName := template configuredAvdName in
  let port :=
    match androidOpt AndroidOpts.port with
    | Some p => if p =? 0 then ANDROID_EMULATOR_PORT env else Some p
    | None => ANDROID_EMULATOR_PORT env
    end in
  let bootTimeout := nullish (androidOpt AndroidOpts.bootTimeoutMs) 240000 in
  let coldBoot :=
    forceColdBoot || orFlag (androidOpt AndroidOpts.coldBoot) (isOne (ANDROID_COLD_BOOT env)) in
  let noSnapshot :=
    orFlag (androidOpt AndroidOpts.noSnapshot) (isOne (ANDROID_NO_SNAPSHOT env)) in
  let headless :=
    nullish (orElse (androidOpt AndroidOpts.headless)
              (orElse (envFlag (ANDROID_HEADLESS env))
                 (orElse (envFlag (HEADLESS env)) (envFlag (CI env))))) false in
  (* Warm up ADB *)
  tryAdbRestart ;;;
  let args :=
    (["-avd"; avdName; "-netdelay"; "none"; "-netspeed"; "full"; "-no-boot-anim"]
     ++ (match port with Some p => ["-port"; decimal p] | None => [] end)
     ++ (if coldBoot then ["-no-snapshot-load"] else [])
     ++ (if noSnapshot then ["-no-snapshot"] else [])
     ++ (if headless then ["-no-window"] else []))%list in
  log ("[android] starting emulator: " ++ emulatorCmd ++ " " ++ join " " args
       ++ " (headless=" ++ (if headless then "true" else "false") ++ ")") ;;;
  spawn emulatorCmd args ;;;
  (* Wait for device to appear in adb *)
  t0 <- now ;;
  let deadline := t0 + bootTimeout in
  found <- awaitSerial fuel deadline ;;
  match found with
  | None =>
      throw ("[android] emulator did not appear in " ++ String (ascii_of_nat 34) "adb devices"
             ++ String (ascii_of_nat 34) " within timeout " ++ decimal bootTimeout ++ "ms")
  | Some serial =>
      setAndroidSerial serial ;;;
      log ("[android] emulator device: " ++ serial ++ ", waiting for boot to complete...") ;;;
      execAdb serial ["wait-for-device"] ;;;
      (* Wait for full boot *)
      t1 <- now ;;
      waitForBootComplete fuel serial (deadline - t1) ;;;
      (* Final healthcheck (with retries) *)
      ok <- waitForAndroidHealthy serial ;;
      if negb ok then throw "[android] emulator failed healthcheck after boot" else
      (* Unlock screen *)
      orOnError (execAdb serial ["shell"; "input"; "keyevent"; "82"] ;;; ret tt) tt ;;;
      setStarted ;;;
      log "[android] emulator is ready & healthy"
  end.

Definition startOrHealAndroid (fuel : nat) : S unit :=
  if negb (truthyOpt configuredAvdName) then
    log "[android] ANDROID_EMULATOR_NAME not provided - skipping auto start"
  else
    devices <- adbDevices ;;
    match findEmulator devices with
    | Some running =>
        log ("[android] emulator already running: " ++ running) ;;;
        setAndroidSerial running ;;;
        ok <- isAndroidHealthy running ;;
        if ok then
          setStarted ;;;
          log "[android] emulator is healthy"
        else
          log "[android] emulator looks unhealthy, restarting..." ;;;
          orOnError stopAndroid tt ;;;
          (* force cold restart if configured *)
          let coldRestart := nullish (envFlag (ANDROID_COLD_RESTART_ON_FAIL env)) true in
          startAndroid fuel coldRestart
    | None =>
        (* none found - start one *)
        startAndroid fuel false
    end.

Definition backoffBase : Z := 1500.

Definition emulatorRetries : Z := nullish (ANDROID_EMULATOR_RETRIES env) 2.

(** What the [catch] block of [ensureAndroidReadyWithRetry] does before it
    decides between [continue] and [throw]. *)
Definition reportFailure (context : string) (retries attempt : Z) (msg : string) : S unit :=
  log ("[android] ensure ready failed (" ++ context ++ ", attempt "
       ++ decimal (attempt + 1) ++ "/" ++ decimal (retries + 1) ++ "): " ++ msg) ;;;
  tryAdbRestart.

(** The [for] loop of [ensureAndroidReadyWithRetry], from the index
    [attempt]; [budget] bounds the iterations left. *)
Fixpoint retryLoop (budget fuel : nat) (context : string) (retries attempt : Z) : S unit :=
  if attempt <=? retries then
    match budget with
    | O => exhausted
    | Datatypes.S b =>
        tryCatch
          (startOrHealAndroid fuel)
          (fun e =>
             reportFailure context retries attempt e ;;;
             if attempt <? retries then
               sleep (backoffBase * (attempt + 1)) ;;;
               retryLoop b fuel context retries (attempt + 1)
             else throw e)
    end
  else ret tt.

Definition ensureAndroidReadyWithRetry (fuel : nat) (context : string) : S unit :=
  let retries := emulatorRetries in
  retryLoop (Z.to_nat (retries + 1)) fuel context retries 0.

(** *** iOS *)

Definition isBooted (udid : string) : S bool :=
  tryCatch
    (stdout <- exec ("xcrun simctl list devices booted | grep " ++ udid) ;;
     if includes udid stdout then emit (Healthy udid) ;;; ret true else ret false)
    (fun _ => ret false).

(** The character class [[0-9A-F-]] under the flag [i]. *)
Definition isUdidChar (c : ascii) : bool :=
  let n := nat_of_ascii (fold_ascii c) in
  ((48 <=? n) && (n <=? 57) || (97 <=? n) && (n <=? 102) || (n =? 45))%nat.

(** [stdout.match(/[0-9A-F-]{36}/i)?.[0]]: the leftmost run of 36
    characters of the class. *)
Fixpoint firstUdid (s : string) : option string :=
  let candidate := take 36 s in
  if (String.length candidate =? 36)%nat && forallb_str isUdidChar candidate
  then Some candidate
  else match s with
       | EmptyString => None
       | String _ s' => firstUdid s'
       end.

Definition findUdidByName (name : string) : S (option string) :=
  tryCatch
    (stdout <- exec ("xcrun simctl list devices | grep " ++ String (ascii_of_nat 34) name
                     ++ String (ascii_of_nat 34) " | grep -v unavailable | tail -n 1") ;;
     ret (firstUdid stdout))
    (fun _ => ret None).

(** The [while] loop of [startIOS] waiting for the simulator to boot. *)
Fixpoint awaitBooted (fuel : nat) (deadline : Z) (udid : string) : S unit :=
  t <- now ;;
  if t <? deadline then
    match fuel with
    | O => exhausted
    | Datatypes.S f =>
        ok <- isBooted udid ;;
        if ok then ret tt
        else sleep 1000 ;;; awaitBooted f deadline udid
    end
  else ret tt.

Definition startIOS (fuel : nat) : S unit :=
  if negb (osPlatform host =? "darwin")%string then
    log "[ios] not macOS; skipping simulator autostart"
  else
    let udid := orStr (iosOpt IOSOpts.udid) (IOS_UDID env) in
    let deviceName :=
      template (orStr (orStr (iosOpt IOSOpts.deviceName) (IOS_DEVICE_NAME env))
                  (Some "iPhone 15")) in
    let bootTimeout := nullish (iosOpt IOSOpts.bootTimeoutMs) 120000 in
    targetUdid <- (if truthyOpt udid then ret udid else findUdidByName deviceName) ;;
    let notFound :=
      log ("[ios] device " ++ String (ascii_of_nat 34) deviceName
           ++ String (ascii_of_nat 34) " not found. Create via Xcode or provide IOS_UDID.") in
    match targetUdid with
    | None => notFound
    | Some target =>
        if negb (truthy target) then notFound else
        alreadyBooted <- isBooted target ;;
        if alreadyBooted then
          log ("[ios] simulator already booted: " ++ target) ;;;
          setIosUdid target
        else
          log ("[ios] booting simulator " ++ target ++ " (" ++ deviceName ++ ") ...") ;;;
          let headless :=
            nullish (orElse (iosOpt IOSOpts.headless)
                      (orElse (envFlag (IOS_HEADLESS env))
                         (orElse (envFlag (HEADLESS env)) (envFlag (CI env))))) false in
          exec ("xcrun simctl boot " ++ target) ;;;
          when (negb headless) (orOnError (exec "open -a Simulator" ;;; ret tt) tt) ;;;
          (* wait until booted *)
          t0 <- now ;;
          let deadline := t0 + bootTimeout in
          awaitBooted fuel deadline target ;;;
          ok <- isBooted target ;;
          if negb ok then throw "[ios] simulator boot timeout" else
          setIosUdid target ;;;
          setStarted ;;;
          log "[ios] simulator is ready"
    end.

Definition stopIOS : S unit :=
  s <- get ;;
  match iosUdid s with
  | Some udid =>
      if truthy udid then
        log ("[ios] shutting down simulator " ++ udid ++ " ...") ;;;
        orOnError (exec ("xcrun simctl shutdown " ++ udid) ;;; ret tt) tt
      else log "[ios] no UDID tracked; skipping shutdown"
  | None => log "[ios] no UDID tracked; skipping shutdown"
  end.

(** *** WDIO hooks *)

Definition onPrepare (fuel : nat) : S unit :=
  match platform opts with
  | android => ensureAndroidReadyWithRetry fuel "onPrepare"
  | ios => startIOS fuel
  end.

Definition beforeSession (fuel : nat) : S unit :=
  match platform opts with
  | android => ensureAndroidReadyWithRetry fuel "beforeSession"
  | ios => ret tt
  end.

Definition onComplete : S unit :=
  s <- get ;;
  if negb (started s) then ret tt else
  match platform opts with
  | android =>
      let kill := nullish (androidOpt AndroidOpts.killOnComplete) true in
      when kill stopAndroid
  | ios =>
      let kill := nullish (iosOpt IOSOpts.killOnComplete) false in
      when kill stopIOS
  end.

End Service.

(** The service as constructed: nothing tracked, not started, an empty
    history. *)
Definition initial {W} (w : W) : Store W := mkStore None None false w [].

(** *** Vocabulary of the properties *)

(** The three fields of the service are the same in both stores. *)
Definition sameFields {W} (s s' : Store W) : Prop :=
  androidSerial s' = androidSerial s
  /\ iosUdid s' = iosUdid s
  /\ started s' = started s.

(** The history of [s'] is the history of [s] followed by events that all
    satisfy [ok]. *)
Definition emits {W} (ok : event -> bool) (s s' : Store W) : Prop :=
  exists evs, trace s' = (trace s ++ evs)%list /\ forallb ok evs = true.

(** Every run of [m] relates the store it starts from to the store it
    leaves, however it ends. *)
Definition keeps {W A} (R : Store W -> Store W -> Prop) (m : M (Store W) A) : Prop :=
  forall s, R s (snd (m s)).

Definition notStarted (e : event) : bool :=
  match e with Started _ => false | _ => true end.

(** No field is assigned, and the events added all satisfy [ok]. *)
Definition quietBy {W} (ok : event -> bool) (s s' : Store W) : Prop :=
  sameFields s s' /\ emits ok s s'.




(** A property of stores that survives every run that assigns no field
    and marks no start. *)
Definition stable {W} (P : Store W -> Prop) : Prop :=
  forall s s', quietBy notStarted s s' -> P s -> P s'.




(** The commands of the health check of the device [serial]. *)
Definition healthProbes (serial : string) : list string :=
  map (fun args => join " " ("adb" :: "-s" :: serial :: args))
    [ ["get-state"];
      ["shell"; "getprop"; "ro.build.version.release"];
      ["shell"; "pm"; "path"; "android"];
      ["shell"; "getprop"; "sys.boot_completed"] ].

(** The events of a run that only lists devices and checks the health of
    [serial]: no child is spawned and no other command is run. *)
Definition checkOnly (serial : string) (e : event) : bool :=
  match e with
  | Exec cmd _ => (cmd =? "adb devices")%string || existsb (String.eqb cmd) (healthProbes serial)
  | Spawn _ _ => false
  | _ => true
  end.

(** The events of a run that runs no command and spawns no child. *)
Definition noCommand (e : event) : bool :=
  match e with
  | Exec _ _ | Spawn _ _ => false
  | _ => true
  end.

(** The events of a run that boots nothing: no child is spawned, no
    [simctl boot] is run and nothing sleeps. *)
Definition noBoot (target : string) (e : event) : bool :=
  match e with
  | Exec cmd _ => negb (cmd =? "xcrun simctl boot " ++ target)%string
  | Spawn _ _ | Sleep _ => false
  | _ => true
  end.

(** The store in which [startOrHealAndroid] starts the health check of
    the listed emulator [running], the listing having left [s1]: the
    emulator is logged and its serial tracked. *)
Definition afterListing {W} (opts : DeviceServiceOpts) (running : string) (s1 : Store W)
  : Store W :=
  snd (bind (log opts ("[android] emulator already running: " ++ running))
         (fun _ => setAndroidSerial running) s1).

(** The line logged for the failed attempt [attempt], if logging is on. *)
Definition failureLog (opts : DeviceServiceOpts) (context : string) (retries attempt : Z)
    (msg : string) : list event :=
  if nullish (verbose opts) true then
    [Log ("[device-service] " ++ "[android] ensure ready failed (" ++ context ++ ", attempt "
          ++ decimal (attempt + 1) ++ "/" ++ decimal (retries + 1) ++ "): " ++ msg)]
  else [].

(** The message a run ended with, when it raised. *)
Definition raised {A} (o : outcome A) : string :=
  match o with Thrown e => e | _ => EmptyString end.

(** The store in which the attempt number [k] (from 0) of
    [ensureAndroidReadyWithRetry] starts when the attempts before it
    raised. *)
Fixpoint attemptStart {W} (host : Host W) (opts : DeviceServiceOpts) (env : ProcessEnv)
    (fuel : nat) (context : string) (s0 : Store W) (k : nat) : Store W :=
  match k with
  | O => s0
  | Datatypes.S j =>
      let r := startOrHealAndroid host opts env fuel (attemptStart host opts env fuel context s0 j) in
      snd (bind (reportFailure host opts context (emulatorRetries env) (Z.of_nat j) (raised (fst r)))
             (fun _ => sleep host (backoffBase * (Z.of_nat j + 1)))
             (snd r))
  end.

(** *** Vocabulary of the properties of single methods *)

(** The commands run, the children spawned and the sleeps taken in a
    stretch of history, in order. *)
Definition commands (evs : list event) : list string :=
  flat_map (fun e => match e with Exec cmd _ => [cmd] | _ => [] end) evs.

Definition spawns (evs : list event) : list (string * list string) :=
  flat_map (fun e => match e with Spawn cmd args => [(cmd, args)] | _ => [] end) evs.

Definition sleeps (evs : list event) : list Z :=
  flat_map (fun e => match e with Sleep ms => [ms] | _ => [] end) evs.

Definition noSpawn (e : event) : bool :=
  match e with Spawn _ _ => false | _ => true end.

(** The line [log] adds to the history, if logging is on. *)
Definition logged (opts : DeviceServiceOpts) (msg : string) : list event :=
  if nullish (verbose opts) true then [Log ("[device-service] " ++ msg)] else [].

(** The command resolved in the stretch [evs] with an output that [good]
    accepts. *)
Definition passed (cmd : string) (good : string -> bool) (evs : list event) : Prop :=
  exists out, In (Exec cmd (Resolves out)) evs /\ good out = true.

(** What [adbDevices] makes of the output of [adb devices]. *)
Definition parseListing (stdout : string) : list string :=
  filter truthy
    (map (fun l => hd "" (split (ascii_of_nat 9) (trim l)))
       (tl (split (ascii_of_nat 10) stdout))).

(** The command [execAdb] runs. *)
Definition adbCommand (serial : string) (args : list string) : string :=
  join " " ("adb" :: "-s" :: serial :: args).

(** The arguments [startAndroid] passes to the emulator; the port is
    written as [String(port)] writes it. *)
Definition emulatorArgs (opts : DeviceServiceOpts) (env : ProcessEnv) (forceColdBoot : bool)
  : list string :=
  let port :=
    match androidOpt opts AndroidOpts.port with
    | Some p => if p =? 0 then ANDROID_EMULATOR_PORT env else Some p
    | None => ANDROID_EMULATOR_PORT env
    end in
  let coldBoot :=
    forceColdBoot
    || orFlag (androidOpt opts AndroidOpts.coldBoot) (isOne (ANDROID_COLD_BOOT env)) in
  let noSnapshot :=
    orFlag (androidOpt opts AndroidOpts.noSnapshot) (isOne (ANDROID_NO_SNAPSHOT env)) in
  let headless :=
    nullish (orElse (androidOpt opts AndroidOpts.headless)
              (orElse (envFlag (ANDROID_HEADLESS env))
                 (orElse (envFlag (HEADLESS env)) (envFlag (CI env))))) false in
  (["-avd"; template (configuredAvdName opts env);
    "-netdelay"; "none"; "-netspeed"; "full"; "-no-boot-anim"]
   ++ (match port with Some p => ["-port"; decimal p] | None => [] end)
   ++ (if coldBoot then ["-no-snapshot-load"] else [])
   ++ (if noSnapshot then ["-no-snapshot"] else [])
   ++ (if headless then ["-no-window"] else []))%list.

(** The boot timeouts the two platforms work with. *)
Definition androidBootTimeout (opts : DeviceServiceOpts) : Z :=
  nullish (androidOpt opts AndroidOpts.bootTimeoutMs) 240000.

Definition iosBootTimeout (opts : DeviceServiceOpts) : Z :=
  nullish (iosOpt opts IOSOpts.bootTimeoutMs) 120000.

(** The message of the error [startAndroid] raises when no emulator is
    listed in time. *)
Definition notListedMessage (opts : DeviceServiceOpts) : string :=
  "[android] emulator did not appear in " ++ String (ascii_of_nat 34) "adb devices"
  ++ String (ascii_of_nat 34) " within timeout " ++ decimal (androidBootTimeout opts) ++ "ms".

(** A host whose clock [time] never goes back and on which a sleep of [ms]
    milliseconds lets at least [ms] milliseconds pass. *)
Record WellTimed {W} (host : Host W) (time : W -> Z) : Prop := mkWellTimed {
  clock_reads : forall w, time w <= fst (clock host w) <= time (snd (clock host w));
  run_forward : forall cmd w, time w <= time (snd (run host cmd w));
  detach_forward : forall cmd args w, time w <= time (detach host cmd args w);
  pause_forward : forall ms w, time w + Z.max ms 0 <= time (pause host ms w)
}.

Definition laterThan {W} (time : W -> Z) (s s' : Store W) : Prop :=
  time (world s) <= time (world s').

(** The time of the store is at least [t]. *)
Definition notBefore {W} (time : W -> Z) (t : Z) (s : Store W) : Prop :=
  t <= time (world s).

(** From a store that satisfies [P], a run of [m] that returns [a] leaves a
    store that satisfies [Q a]; with [total], the run is moreover not cut
    short by the iteration budget of a polling loop. *)
Definition hoare {W A} (total : bool) (P : Store W -> Prop) (m : M (Store W) A)
    (Q : A -> Store W -> Prop) : Prop :=
  forall s, P s ->
    (total = true -> fst (m s) <> OutOfFuel)
    /\ forall a, fst (m s) = Returned a -> Q a (snd (m s)).

(** [m] is never cut short by the iteration budget. *)
Definition ends {W A} (m : M (Store W) A) : Prop :=
  hoare true (fun _ => True) m (fun _ _ => True).

(** The device is ready: [started] is set, and the serial tracked is that
    of an emulator for which a health check answered [true]. *)
Definition androidReady {W} (s : Store W) : Prop :=
  started s = true
  /\ exists serial,
       androidSerial s = Some serial
       /\ startsWith "emulator-" serial = true
       /\ In (Healthy serial) (trace s).

(** Between the stores [s] and [s'] at most [n] children were spawned,
    each of them the emulator of the configured AVD. *)
Definition emulatorStarts {W} (host : Host W) (opts : DeviceServiceOpts) (env : ProcessEnv)
    (n : nat) (s s' : Store W) : Prop :=
  exists evs,
    trace s' = (trace s ++ evs)%list
    /\ (List.length (spawns evs) <= n)%nat
    /\ Forall (fun p => exists cold, p = (emulatorCmd host, emulatorArgs opts env cold))
         (spawns evs).

(** A non-empty word without white space. *)
Definition plainWord (s : string) : bool :=
  truthy s && forallb_str (fun c => negb (is_ws c)) s.

(** The output of [adb devices] for the devices given by serial and state:
    the header, one line per device, and the empty line that ends it. *)
Definition listingOf (devices : list (string * string)) : string :=
  "List of devices attached"
  ++ String (ascii_of_nat 10)
       (fold_right
          (fun d rest =>
             fst d ++ String (ascii_of_nat 9) (snd d ++ String (ascii_of_nat 10) rest))
          (String (ascii_of_nat 10) "") devices).


End DeviceLauncher.

(* ===================================================================== *)
(** ** The service options of the two WDIO configurations *)
(* ===================================================================== *)

Module Conf.
Import Js DeviceLauncher.

(** [isTruthy(v)] of [src/utils/env.ts], on an optional string. *)
Definition isTruthy (v : option string) : bool := isTruthyString (nullish v "").

Definition boolFrom (envVal : option string) (def : bool) : bool :=
  match envVal with
  | None => def
  | Some s => isTruthy (Some s)
  end.

(** [numFrom], the variable being given by the integer [Number] makes of
    it: nothing when it is not set, empty or not a number. *)
Definition numFrom (envVal : option Z) (def : option Z) : option Z :=
  match envVal with
  | Some n => Some n
  | None => def
  end.

(** [process.env[name] ?? def] *)
Definition envStr (v : option string) (def : option string) : option string :=
  orElse v def.

(** The expression both configurations give for [killOnComplete]; [v] is
    the variable [ANDROID_KILL_ON_COMPLETE] or [IOS_KILL_ON_COMPLETE]. *)
Definition killOnComplete (v : option string) : bool :=
  if negb (boolFrom v true) then true
  else negb (match v with Some s => (s =? "0")%string | None => false end).

(** The options [wdio.android.conf.ts] passes to the service; [bootTimeout]
    and [kill] are the variables [ANDROID_BOOT_TIMEOUT_MS] and
    [ANDROID_KILL_ON_COMPLETE]. *)
Definition androidService (env : ProcessEnv) (bootTimeout : option Z) (kill : option string)
  : DeviceServiceOpts :=
  mkServiceOpts android
    (Some (AndroidOpts.mk
             (envStr (ANDROID_EMULATOR_NAME env) None)
             (numFrom (ANDROID_EMULATOR_PORT env) None)
             (Some (boolFrom (ANDROID_HEADLESS env) false))
             (Some (boolFrom (ANDROID_COLD_BOOT env) false))
             (Some (boolFrom (ANDROID_NO_SNAPSHOT env) false))
             (numFrom bootTimeout (Some 240000))
             (Some (killOnComplete kill))))
    None
    (Some true).

(** The options [wdio.ios.conf.ts] passes to the service; [bootTimeout] and
    [kill] are the variables [IOS_BOOT_TIMEOUT_MS] and
    [IOS_KILL_ON_COMPLETE]. *)
Definition iosService (env : ProcessEnv) (bootTimeout : option Z) (kill : option string)
  : DeviceServiceOpts :=
  mkServiceOpts ios
    None
    (Some (IOSOpts.mk
             (envStr (IOS_UDID env) None)
             (envStr (IOS_DEVICE_NAME env) None)
             (Some (boolFrom (IOS_HEADLESS env) false))
             (numFrom bootTimeout (Some 120000))
             (Some (killOnComplete kill))))
    (Some true).

(** The environment with other values of [HEADLESS] and [CI]. *)
Definition withHeadless (h c : option string) (env : ProcessEnv) : ProcessEnv :=
  mkEnv (ANDROID_EMULATOR_NAME env) (ANDROID_EMULATOR_PORT env) (ANDROID_COLD_BOOT env)
    (ANDROID_NO_SNAPSHOT env) (ANDROID_EMULATOR_RETRIES env) (ANDROID_HEALTHCHECK_RETRIES env)
    (ANDROID_HEALTHCHECK_INTERVAL_MS env) (ANDROID_COLD_RESTART_ON_FAIL env)
    (ANDROID_HEADLESS env) (IOS_HEADLESS env) h c (IOS_UDID env) (IOS_DEVICE_NAME env).

End Conf.

(* ===================================================================== *)
(** ** Scenarios: concrete hosts and configurations *)
(* ===================================================================== *)

Module Scenarios.
Import Js Eff DeviceLauncher.

Definition nl : string := String (ascii_of_nat 10) EmptyString.
Definition tab : string := String (ascii_of_nat 9) EmptyString.

Definition noEnv : ProcessEnv :=
  mkEnv None None None None None None None None None None None None None None.

(** An Android service configured with an AVD name. *)
Definition pixelService : DeviceServiceOpts :=
  mkServiceOpts android
    (Some (AndroidOpts.mk (Some "Pixel_6_API_34") None None None None None None))
    None None.

(** An Android service with no AVD name at all. *)
Definition unnamedService : DeviceServiceOpts :=
  mkServiceOpts android None None None.

Definition simUdid : string := "0F1E2D3C-4B5A-6978-8796-A5B4C3D2E1F0".

(** An iOS service with an explicit UDID that asks for a shutdown on
    completion. *)
Definition simService : DeviceServiceOpts :=
  mkServiceOpts ios None
    (Some (IOSOpts.mk (Some simUdid) None None None (Some true)))
    None.

(** A machine on which every command fails. *)
Definition deadAdb : Host unit :=
  {| run := fun _ w => (Rejects "adb: command not found", w);
     detach := fun _ _ w => w;
     clock := fun w => (0, w);
     pause := fun _ w => w;
     osPlatform := "linux" |}.

(** A machine with one running, healthy emulator. *)
Definition healthyHost : Host unit :=
  {| run := fun cmd w =>
       (if (cmd =? "adb devices")%string then
          Resolves ("List of devices attached" ++ nl ++ "emulator-5554" ++ tab ++ "device" ++ nl)
        else if (cmd =? "adb -s emulator-5554 get-state")%string then
          Resolves ("device" ++ nl)
        else if (cmd =? "adb -s emulator-5554 shell getprop ro.build.version.release")%string then
          Resolves ("14" ++ nl)
        else if (cmd =? "adb -s emulator-5554 shell pm path android")%string then
          Resolves ("package:/system/framework/framework-res.apk" ++ nl)
        else if (cmd =? "adb -s emulator-5554 shell getprop sys.boot_completed")%string then
          Resolves ("1" ++ nl)
        else Rejects "unexpected command", w);
     detach := fun _ _ w => w;
     clock := fun w => (0, w);
     pause := fun _ w => w;
     osPlatform := "linux" |}.

(** A Mac on which the simulator [simUdid] is already booted. *)
Definition bootedMac : Host unit :=
  {| run := fun cmd w =>
       (if (cmd =? "xcrun simctl list devices booted | grep " ++ simUdid)%string then
          Resolves ("    iPhone 15 (" ++ simUdid ++ ") (Booted)" ++ nl)
        else Rejects "unexpected command", w);
     detach := fun _ _ w => w;
     clock := fun w => (0, w);
     pause := fun _ w => w;
     osPlatform := "darwin" |}.

(** A text with double quotes and a backslash, and one with double quotes
    only. *)
Definition quotedPath : string :=
  "Open " ++ String Locator.dquote ("C:" ++ String Locator.backslash ("tmp" ++ String Locator.dquote " now")).

Definition quotedWord : string :=
  "Say " ++ String Locator.dquote ("hi" ++ String Locator.dquote "!").

(** A machine with a clock: the world is the time in milliseconds, every
    command takes one millisecond and a sleep takes its time.  No device is
    ever listed, and every other command fails. *)
Definition emptyBench : Host Z :=
  {| run := fun cmd w =>
       (if (cmd =? "adb devices")%string then Resolves ("List of devices attached" ++ nl)
        else Rejects "unexpected command", w + 1);
     detach := fun _ _ w => w;
     clock := fun w => (w, w);
     pause := fun ms w => w + Z.max ms 0;
     osPlatform := "linux" |}.

(** A machine on which [adb devices] fails until the daemon has been
    started; from then on one healthy emulator is listed.  The world is
    whether [adb start-server] has been run. *)
Definition coldAdb : Host bool :=
  {| run := fun cmd w =>
       if (cmd =? "adb start-server")%string then (Resolves "", true)
       else if negb w then (Rejects "adb: daemon not running", w)
       else (fst (run healthyHost cmd tt), w);
     detach := fun _ _ w => w;
     clock := fun w => (0, w);
     pause := fun _ w => w;
     osPlatform := "linux" |}.

(** A setting that disables the attempts. *)
Definition noAttempts : ProcessEnv :=
  mkEnv None None None None (Some (-1)) None None None None None None None None None.

(** A machine that lists two devices. *)
Definition twoDevices : Host unit :=
  {| run := fun cmd w =>
       (if (cmd =? "adb devices")%string then
          Resolves (listingOf [("emulator-5554", "device"); ("R58M41XYZ", "unauthorized")])
        else Rejects "unexpected command", w);
     detach := fun _ _ w => w;
     clock := fun w => (0, w);
     pause := fun _ w => w;
     osPlatform := "linux" |}.

(** A Mac on which the simulator [simUdid] is shut down until it is booted;
    the world is whether it has been booted. *)
Definition coldMac : Host bool :=
  {| run := fun cmd w =>
       if (cmd =? "xcrun simctl boot " ++ simUdid)%string then (Resolves "", true)
       else if (cmd =? "xcrun simctl list devices booted | grep " ++ simUdid)%string then
         (if w then Resolves ("    iPhone 15 (" ++ simUdid ++ ") (Booted)" ++ nl)
          else Rejects "Command failed", w)
       else (Rejects "unexpected command", w);
     detach := fun _ _ w => w;
     clock := fun w => (0, w);
     pause := fun _ w => w;
     osPlatform := "darwin" |}.


(** A setting with the port [1e21], far beyond any real port. *)
Definition hugePort : ProcessEnv :=
  mkEnv None (Some (10 ^ 21)) None None None None None None None None None None None None.

End Scenarios.

(* ===================================================================== *)
(** * Properties *)
(* ===================================================================== *)

(* --------------------------------------------------------------------- *)
(** ** Strings *)
(* --------------------------------------------------------------------- *)

Module JsFacts.
Import Js.

Lemma append_nil_r (s : string) : s ++ "" = s.
Proof. induction s as [|c s IH]; simpl; [reflexivity | now rewrite IH]. Qed.

Lemma append_assoc (a b c : string) : (a ++ b) ++ c = a ++ (b ++ c).
Proof. induction a as [|x a IH]; simpl; [reflexivity | now rewrite IH]. Qed.


Lemma replaceAll_append (c : ascii) (r a b : string) :
  replaceAll c r (a ++ b) = replaceAll c r a ++ replaceAll c r b.
Proof.
  induction a as [|x a IH]; simpl; [reflexivity|].
  destruct (Ascii.eqb x c); rewrite IH; [now rewrite append_assoc | reflexivity].
Qed.

Lemma stripPrefix_append (p s : string) : stripPrefix p (p ++ s) = Some s.
Proof.
  induction p as [|c p IH]; simpl; [reflexivity|].
  now rewrite Ascii.eqb_refl.
Qed.

Lemma trimEnd_last (s : string) (d : ascii) :
  lastChar s = Some d -> is_ws d = false -> trimEnd s = s.
Proof.
  intros Hl Hd. induction s as [|c s IH]; [reflexivity|].
  destruct s as [|c' s'].
  - cbn in Hl. injection Hl as ->. cbn. now rewrite Hd.
  - change (lastChar (String c (String c' s'))) with (lastChar (String c' s')) in Hl.
    specialize (IH Hl). cbn [trimEnd] in *. rewrite IH. reflexivity.
Qed.

Lemma lastChar_cons (c d : ascii) (s : string) :
  lastChar (String c (String d s)) = lastChar (String d s).
Proof. reflexivity. Qed.

Lemma lastChar_append (a b : string) (c : ascii) :
  lastChar (a ++ String c b) = lastChar (String c b).
Proof.
  induction a as [|x a IH]; [reflexivity|].
  cbn [append]. destruct (a ++ String c b) eqn:E.
  - destruct a; discriminate.
  - exact IH.
Qed.

(** A string that opens and closes with a character that is not white
    space is its own [trim]. *)
Lemma trim_keeps (c d : ascii) (s : string) :
  is_ws c = false -> lastChar (String c s) = Some d -> is_ws d = false ->
  trim (String c s) = String c s.
Proof.
  intros Hc Hl Hd. unfold trim. cbn [trimStart]. rewrite Hc.
  now apply (trimEnd_last _ d).
Qed.

Example trim_both_ends :
  trim (String (ascii_of_nat 9) " emulator-5554 " ++ String (ascii_of_nat 10) "")
  = "emulator-5554".
Proof. reflexivity. Qed.

Example split_keeps_empty_fields : split "," "a,,b," = ["a"; ""; "b"; ""].
Proof. reflexivity. Qed.

Example slice0_negative_end : slice0 (-2) "abcdef" = "abcd".
Proof. reflexivity. Qed.

Example sort_by_code_units : sort (dedupe ["b"; "a"; "b"; "A"; "ab"]) = ["A"; "a"; "ab"; "b"].
Proof. reflexivity. Qed.

(** *** Splitting and trimming *)

Lemma forallb_str_impl (f g : ascii -> bool) (s : string) :
  (forall c, f c = true -> g c = true) -> forallb_str f s = true -> forallb_str g s = true.
Proof.
  intros H. induction s as [|c s IH]; [reflexivity|]. cbn [forallb_str].
  intros E. apply andb_prop in E as [E1 E2]. now rewrite (H c E1), IH.
Qed.

Lemma forallb_str_append (f : ascii -> bool) (a b : string) :
  forallb_str f (a ++ b) = forallb_str f a && forallb_str f b.
Proof.
  induction a as [|c a IH]; [reflexivity|]. cbn [append forallb_str].
  now rewrite IH, andb_assoc.
Qed.

Lemma split_app_sep (sep : ascii) (a b : string) :
  forallb_str (fun d => negb (Ascii.eqb d sep)) a = true ->
  split sep (a ++ String sep b) = a :: split sep b.
Proof.
  induction a as [|c a IH]; cbn [append split forallb_str].
  - now rewrite Ascii.eqb_refl.
  - intros E. apply andb_prop in E as [E1 E2]. apply negb_true_iff in E1.
    now rewrite E1, (IH E2).
Qed.

Lemma lastChar_all (f : ascii -> bool) (s : string) (d : ascii) :
  forallb_str f s = true -> lastChar s = Some d -> f d = true.
Proof.
  induction s as [|c s IH]; [discriminate|]. cbn [forallb_str].
  intros E Hl. apply andb_prop in E as [E1 E2]. destruct s as [|c' s'].
  - now injection Hl as <-.
  - rewrite lastChar_cons in Hl. now apply IH.
Qed.

Lemma lastChar_some (c : ascii) (s : string) : exists d, lastChar (String c s) = Some d.
Proof.
  revert c. induction s as [|c' s IH]; intros c.
  - now exists c.
  - rewrite lastChar_cons. apply IH.
Qed.

Lemma take_prefix (n : nat) (s : string) : exists rest, s = take n s ++ rest.
Proof.
  revert s. induction n as [|n IH]; intros s.
  - exists s. now destruct s.
  - destruct s as [|c s]; [now exists ""|].
    destruct (IH s) as (rest & E). exists rest. cbn. now rewrite <- E.
Qed.

(** *** [String(n)] *)

Lemma roundToDouble_exact (v : Z) : 0 <= v < 2 ^ 53 -> roundToDouble v = v.
Proof.
  intros H. unfold roundToDouble.
  destruct (Z.eq_dec v 0) as [->|Hz]; [reflexivity|].
  assert (Z.log2 v < 53) by (apply Z.log2_lt_pow2; lia).
  cbv zeta. destruct (Z.leb_spec (Z.log2 v + 1) 53); [reflexivity | lia].
Qed.

Lemma roundToDouble_large (v : Z) : 2 ^ 53 <= v -> 2 ^ 53 <= roundToDouble v.
Proof.
  intros H. unfold roundToDouble. cbv zeta.
  assert (L : 53 <= Z.log2 v) by (apply Z.log2_le_pow2; lia).
  destruct (Z.leb_spec (Z.log2 v + 1) 53); [lia|].
  set (e := Z.log2 v + 1 - 53).
  assert (He : 1 <= e) by (unfold e; lia).
  assert (Hq : 2 ^ 52 <= Z.shiftr v e).
  { rewrite Z.shiftr_div_pow2 by lia.
    apply Z.div_le_lower_bound; [apply Z.pow_pos_nonneg; lia|].
    rewrite Z.mul_comm, <- Z.pow_add_r by lia.
    replace (52 + e) with (Z.log2 v) by (unfold e; lia).
    apply Z.log2_spec. lia. }
  match goal with |- _ <= Z.shiftl ?q e => assert (Hq' : 2 ^ 52 <= q) end.
  { destruct (_ || _); lia. }
  rewrite Z.shiftl_mul_pow2 by lia.
  assert (2 ^ 1 <= 2 ^ e) by (apply Z.pow_le_mono_r; lia).
  change (2 ^ 53) with (2 ^ 52 * 2 ^ 1). nia.
Qed.

Lemma shortest_exact (tries : nat) (n k d : Z) :
  0 <= d < 2 ^ 53 -> shortest tries n k d = d.
Proof.
  intros H. revert k. induction tries as [|t IH]; intros k; cbn [shortest]; [reflexivity|].
  unfold shortAt. destruct (Z.leb_spec n k) as [|Hk]; [reflexivity|]. cbv zeta.
  set (scale := 10 ^ (n - k)).
  assert (Hs : 0 < scale) by (apply Z.pow_pos_nonneg; lia).
  assert (N0 : scale <> 0) by lia.
  assert (Hlo : 0 <= d / scale * scale <= d).
  { split; [apply Z.mul_nonneg_nonneg; [apply Z.div_pos|]; lia|].
    rewrite Z.mul_comm. apply Z.mul_div_le. lia. }
  assert (Hhi : d < d / scale * scale + scale).
  { pose proof (Z.mod_pos_bound d scale ltac:(lia)).
    pose proof (Z.div_mod d scale N0). lia. }
  rewrite (roundToDouble_exact (d / scale * scale)) by lia.
  assert (Nhi : (roundToDouble (d / scale * scale + scale) =? d) = false).
  { apply Z.eqb_neq.
    destruct (Z.lt_ge_cases (d / scale * scale + scale) (2 ^ 53)).
    - rewrite roundToDouble_exact by lia. lia.
    - pose proof (roundToDouble_large _ H0). lia. }
  rewrite Nhi, andb_false_r.
  destruct (Z.eqb_spec (d / scale * scale) d) as [E|N]; [exact E | apply IH].
Qed.

(** For a safe integer, [String(n)] is the integer written out. *)
Lemma decimal_safe (z : Z) : - 2 ^ 53 < z < 2 ^ 53 -> decimal z = plain z.
Proof.
  intros H. unfold decimal, naturalToString.
  destruct (Z.ltb_spec z 0) as [Hn|Hp]; cbv zeta.
  - rewrite roundToDouble_exact by lia.
    destruct (Z.leb_spec (2 ^ 1024) (- z)); [lia|].
    rewrite shortest_exact by lia.
    destruct (Z.ltb_spec (- z) (10 ^ 21)); [|lia].
    destruct z; try lia. reflexivity.
  - rewrite roundToDouble_exact by lia.
    destruct (Z.leb_spec (2 ^ 1024) z); [lia|].
    rewrite shortest_exact by lia.
    destruct (Z.ltb_spec z (10 ^ 21)); [reflexivity | lia].
Qed.

(** Plain digits below [10^21], exponent notation from there on, with no
    more digits than tell the double apart. *)
Example decimal_of_port : decimal 5554 = "5554".
Proof. vm_compute. reflexivity. Qed.

Example decimal_rounds_to_double : decimal (2 ^ 64) = "18446744073709552000".
Proof. vm_compute. reflexivity. Qed.

Example decimal_last_plain : decimal (10 ^ 21 - 65537) = "999999999999999900000".
Proof. vm_compute. reflexivity. Qed.

Example decimal_first_exponent : decimal (10 ^ 21) = "1e+21".
Proof. vm_compute. reflexivity. Qed.

Example decimal_exponent_digits : decimal (2 ^ 70) = "1.1805916207174113e+21".
Proof. vm_compute. reflexivity. Qed.

End JsFacts.

(* --------------------------------------------------------------------- *)
(** ** Locator model *)
(* --------------------------------------------------------------------- *)

Module LocatorFacts.
Import Js JsFacts Locator.

Lemma selectors_unknown (driver : option Driver) (el : PageElement) :
  getPlatform driver = None -> selectors driver el = entries (universal el).
Proof.
  intros H. unfold selectors. rewrite H. reflexivity.
Qed.

Lemma selectors_known (driver : option Driver) (p : Platform) (el : PageElement) :
  getPlatform driver = Some p ->
  selectors driver el = (entries (bucket p el) ++ entries (universal el))%list.
Proof.
  intros H. unfold selectors. rewrite H.
  destruct p, el as [[a|] [i|] u]; simpl; rewrite ?app_nil_r; reflexivity.
Qed.

(** C3, as stated, fails: with no session, an element holding an android
    and a universal locator resolves to the universal one, not to the
    android one. *)
Lemma toSelector_unknown_not_android_first :
  getPlatform None = None
  /\ toSelector None loginButton = Some "//button[@name='login']"
  /\ specUnknownSelector loginButton = Some "~login"
  /\ toSelector None loginButton <> specUnknownSelector loginButton.
Proof.
  repeat split; try reflexivity. vm_compute. discriminate.
Qed.

(** C3, amended: for an unknown platform [toSelector] returns the first
    universal entry when the universal bucket has one; otherwise the first
    android entry, else the first ios entry, else [null]. *)
Theorem toSelector_unknown (driver : option Driver) (el : PageElement) :
  getPlatform driver = None ->
  toSelector driver el =
    match entries (universal el) with
    | u :: _ => Some u
    | [] => orElse (first (android el)) (first (ios el))
    end.
Proof.
  intros H. unfold toSelector. rewrite (selectors_unknown _ _ H).
  destruct el as [a i [[|u us]|]]; simpl; try reflexivity;
    destruct (first a), (first i); reflexivity.
Qed.

Lemma toSelector_unknown_witness :
  toSelector None loginButton = Some "//button[@name='login']".
Proof.
  rewrite (toSelector_unknown None loginButton); reflexivity.
Defined.

Lemma pushFallbacks_extends (b : option (list string)) (a : option LocatorArg) :
  exists extra, entries (fst (pushFallbacks b a)) = (entries b ++ extra)%list
    /\ (snd (pushFallbacks b a) = true -> extra = entries (normalizeList a)).
Proof.
  unfold pushFallbacks. destruct (arg_truthy a) eqn:Ht.
  - destruct (normalizeList a) as [xs|] eqn:Hn; simpl.
    + exists xs. split; [reflexivity | reflexivity].
    + exists []. rewrite app_nil_r. split; [reflexivity | discriminate].
  - exists []. simpl. rewrite app_nil_r. split; [reflexivity|].
    intros _. destruct a as [[[[|c s]|u v]|ls]|]; simpl in *;
      try discriminate; reflexivity.
Qed.

Lemma pushFallbacks_skip (b : option (list string)) :
  pushFallbacks b None = (b, true).
Proof. reflexivity. Qed.

(** One call extends every bucket at its end, by exactly the normalised
    argument when the call returns. *)
Lemma withFallbacks_extends (el : PageElement) (o : ElementOpts) :
  let el' := fst (withFallbacks el o) in
  (exists xa, entries (android el') = (entries (android el) ++ xa)%list
     /\ (snd (withFallbacks el o) = true -> xa = entries (normalizeList (o_android o))))
  /\ (exists xi, entries (ios el') = (entries (ios el) ++ xi)%list
     /\ (snd (withFallbacks el o) = true -> xi = entries (normalizeList (o_ios o))))
  /\ (exists xu, entries (universal el') = (entries (universal el) ++ xu)%list
     /\ (snd (withFallbacks el o) = true -> xu = entries (normalizeList (o_universal o)))).
Proof.
  unfold withFallbacks.
  destruct (pushFallbacks_extends (android el) (o_android o)) as (xa & Ha & Ha').
  destruct (pushFallbacks_extends (ios el) (o_ios o)) as (xi & Hi & Hi').
  destruct (pushFallbacks_extends (universal el) (o_universal o)) as (xu & Hu & Hu').
  destruct (pushFallbacks (android el) (o_android o)) as [a [|]] eqn:Ea;
    destruct (pushFallbacks (ios el) (o_ios o)) as [i [|]] eqn:Ei;
    destruct (pushFallbacks (universal el) (o_universal o)) as [u [|]] eqn:Eu;
    cbn [negb fst snd android ios universal] in *;
    (split; [|split]);
    first [ now (eexists; split; [eassumption | auto])
          | now (exists []; rewrite app_nil_r; split; [reflexivity | discriminate]) ].
Qed.

Lemma applyFallbacks_extends (p : Platform) (calls : list ElementOpts) (el : PageElement) :
  let el' := applyFallbacks el calls in
  exists xp xu,
    entries (bucket p el') = (entries (bucket p el) ++ xp)%list
    /\ entries (universal el') = (entries (universal el) ++ xu)%list
    /\ (allReturn el calls = true ->
        xp = flat_map (fun o => entries (normalizeList (argFor p o))) calls
        /\ xu = flat_map (fun o => entries (normalizeList (o_universal o))) calls).
Proof.
  revert el. induction calls as [|o calls IH]; intros el; cbn zeta.
  - exists [], []. rewrite !app_nil_r. repeat split; reflexivity.
  - unfold applyFallbacks. cbn [fold_left].
    fold (applyFallbacks (fst (withFallbacks el o)) calls).
    destruct (IH (fst (withFallbacks el o))) as (xp & xu & Hp & Hu & Hex).
    destruct (withFallbacks_extends el o) as ((xa & Ha & Ha') & (xi & Hi & Hi') & (yu & Hyu & Hyu')).
    exists ((match p with Android => xa | IOS => xi end) ++ xp)%list, (yu ++ xu)%list.
    split; [|split].
    + rewrite Hp. destruct p; cbn [bucket]; [rewrite Ha | rewrite Hi];
        now rewrite app_assoc.
    + rewrite Hu, Hyu. now rewrite app_assoc.
    + cbn [allReturn flat_map]. intros Hall.
      apply andb_prop in Hall as [H1 H2].
      destruct (Hex H2) as [-> ->].
      rewrite (Hyu' H1). split; [|reflexivity].
      destruct p; cbn [argFor]; [rewrite (Ha' H1) | rewrite (Hi' H1)]; reflexivity.
Qed.

(** C4: for a known platform [selectors] is the platform bucket followed
    by the universal bucket, also after any sequence of [withFallbacks]
    calls; each bucket then is the constructed bucket followed by what the
    calls appended, which for calls that all return is their normalised
    arguments in call order. *)
Theorem selectors_platform_before_universal
    (driver : option Driver) (p : Platform) (o : ElementOpts) (calls : list ElementOpts) :
  getPlatform driver = Some p ->
  let el := applyFallbacks (construct o) calls in
  selectors driver el = (entries (bucket p el) ++ entries (universal el))%list
  /\ exists xp xu,
      entries (bucket p el) = (entries (normalizeList (argFor p o)) ++ xp)%list
      /\ entries (universal el) = (entries (normalizeList (o_universal o)) ++ xu)%list
      /\ (allReturn (construct o) calls = true ->
          xp = flat_map (fun c => entries (normalizeList (argFor p c))) calls
          /\ xu = flat_map (fun c => entries (normalizeList (o_universal c))) calls).
Proof.
  intros H el. split; [now apply selectors_known|].
  destruct (applyFallbacks_extends p calls (construct o)) as (xp & xu & Hp & Hu & Hex).
  exists xp, xu. subst el. rewrite Hp, Hu.
  repeat split; try (now apply Hex); destruct p; reflexivity.
Qed.

Lemma selectors_platform_before_universal_witness :
  selectors (driverFor IOS)
    (applyFallbacks
       (construct (mkOpts (Some (One (LStr "~a"))) (Some (Many [LStr "~i1"; LStr " ~i2 "]))
                          (Some (One (LObj "XPath" "//u1")))))
       [mkOpts None (Some (One (LStr "~i3"))) (Some (One (LStr "//u2")))])
  = ["~i1"; "~i2"; "~i3"; "//u1"; "//u2"].
Proof.
  destruct (selectors_platform_before_universal (driverFor IOS) IOS
              (mkOpts (Some (One (LStr "~a"))) (Some (Many [LStr "~i1"; LStr " ~i2 "]))
                      (Some (One (LObj "XPath" "//u1"))))
              [mkOpts None (Some (One (LStr "~i3"))) (Some (One (LStr "//u2")))]
              eq_refl) as [H _].
  rewrite H. reflexivity.
Defined.

(** *** Literals *)

Lemma quoteJava_unfold (s rest : string) :
  quoteJava s ++ rest = String dquote (escJava s ++ String dquote rest).
Proof.
  unfold quoteJava. fold (escJava s). cbn [append]. now rewrite append_assoc.
Qed.

Lemma quoteNS_unfold (s rest : string) :
  quoteNS s ++ rest = String dquote (escNS s ++ String dquote rest).
Proof.
  unfold quoteNS. fold (escNS s). cbn [append]. now rewrite append_assoc.
Qed.

Lemma ascii_cases (c : ascii) :
  c = dquote \/ c = backslash
  \/ (Ascii.eqb c dquote = false /\ Ascii.eqb c backslash = false).
Proof.
  destruct (Ascii.eqb_spec c dquote); [now left|].
  destruct (Ascii.eqb_spec c backslash); [now right; left|].
  right; right; split; reflexivity.
Qed.

Lemma readBody_escJava (s rest : string) :
  androidText s = true ->
  readBody (escJava s ++ String dquote rest) = Some (s, rest).
Proof.
  unfold androidText. induction s as [|c s IH]; intros H.
  - reflexivity.
  - cbn [forallb_str] in H. apply andb_prop in H as [Hc Hs].
    specialize (IH Hs). unfold escJava in *.
    destruct (ascii_cases c) as [-> | [-> | [Hq Hb]]].
    + cbn. cbn in IH. now rewrite IH.
    + cbn. cbn in IH. now rewrite IH.
    + cbn [replaceAll]. rewrite Hb. cbn [replaceAll]. rewrite Hq.
      cbn [append readBody]. rewrite Hq, Hb.
      unfold ordinary in Hc. rewrite Hq, Hb in Hc. cbn in Hc.
      rewrite !orb_false_r in Hc. apply negb_true_iff in Hc. rewrite Hc.
      now rewrite IH.
Qed.

Lemma readBody_escNS (s rest : string) :
  iosText s = true ->
  readBody (escNS s ++ String dquote rest) = Some (s, rest).
Proof.
  unfold iosText. induction s as [|c s IH]; intros H.
  - reflexivity.
  - cbn [forallb_str] in H. apply andb_prop in H as [Hc Hs].
    specialize (IH Hs). unfold escNS in *.
    destruct (ascii_cases c) as [-> | [-> | [Hq Hb]]].
    + cbn. cbn in IH. now rewrite IH.
    + discriminate Hc.
    + cbn [replaceAll]. rewrite Hq.
      cbn [append readBody]. rewrite Hq, Hb.
      unfold ordinary in Hc. rewrite Hq, Hb in Hc. cbn in Hc.
      rewrite !orb_false_r in Hc. apply negb_true_iff in Hc. rewrite Hc.
      now rewrite IH.
Qed.

Lemma readLiteral_quoteJava (s rest : string) :
  androidText s = true -> readLiteral (quoteJava s ++ rest) = Some (s, rest).
Proof.
  intros H. rewrite quoteJava_unfold. cbn [readLiteral].
  rewrite Ascii.eqb_refl. now apply readBody_escJava.
Qed.

Lemma readLiteral_quoteNS (s rest : string) :
  iosText s = true -> readLiteral (quoteNS s ++ rest) = Some (s, rest).
Proof.
  intros H. rewrite quoteNS_unfold. cbn [readLiteral].
  rewrite Ascii.eqb_refl. now apply readBody_escNS.
Qed.

(** A selector that opens and closes with a character that is not white
    space is stored as it is. *)
Lemma construct_one (c d : ascii) (s : string) :
  is_ws c = false -> lastChar (String c s) = Some d -> is_ws d = false ->
  normalizeList (Some (One (LStr (String c s)))) = Some [String c s].
Proof.
  intros Hc Hl Hd. unfold normalizeList, normalizePresent. cbn [map normalizeOne].
  rewrite (trim_keeps c d s Hc Hl Hd). reflexivity.
Qed.

Lemma lastChar_quoteNS (a text : string) :
  lastChar (a ++ quoteNS text) = Some dquote.
Proof.
  unfold quoteNS. rewrite lastChar_append.
  apply (lastChar_append (String dquote (escNS text)) "" dquote).
Qed.

Ltac str_norm :=
  repeat first
    [ rewrite append_assoc | rewrite append_nil_r | progress cbn [append] ].

Ltac last_char :=
  repeat first
    [ rewrite lastChar_append
    | rewrite lastChar_cons
    | match goal with
      | |- context [lastChar (String ?c (?a ++ String ?d ?b))] =>
          change (String c (a ++ String d b)) with (String c a ++ String d b)
      end ].

Lemma androidSelector_stored (m text : string) :
  normalizeList
    (Some (One (LStr (toAndroidUIA ("new UiSelector()." ++ m ++ "(" ++ quoteJava text ++ ")")))))
  = Some ["android=new UiSelector()." ++ m ++ "(" ++ quoteJava text ++ ")"].
Proof.
  unfold toAndroidUIA. cbn [append].
  apply (construct_one _ ")"%char); try reflexivity.
  last_char. reflexivity.
Qed.

Lemma readAndroid_selector (m text : string) :
  androidText text = true ->
  readAndroidText m ("android=new UiSelector()." ++ m ++ "(" ++ quoteJava text ++ ")")
  = Some text.
Proof.
  intros H. unfold readAndroidText.
  replace ("android=new UiSelector()." ++ m ++ "(" ++ quoteJava text ++ ")")
    with (("android=new UiSelector()." ++ m ++ "(") ++ quoteJava text ++ ")")
    by (str_norm; reflexivity).
  rewrite stripPrefix_append, (readLiteral_quoteJava _ _ H). reflexivity.
Qed.

Lemma iosSelector_stored (op text : string) :
  normalizeList
    (Some (One (LStr (toIOSPredicate
       ("name " ++ op ++ " " ++ quoteNS text ++ " OR label " ++ op ++ " " ++ quoteNS text
        ++ " OR value " ++ op ++ " " ++ quoteNS text)))))
  = Some ["-ios predicate string:name " ++ op ++ " " ++ quoteNS text
          ++ " OR label " ++ op ++ " " ++ quoteNS text
          ++ " OR value " ++ op ++ " " ++ quoteNS text].
Proof.
  unfold toIOSPredicate. cbn [append].
  apply (construct_one _ dquote); try reflexivity.
  last_char. apply (lastChar_quoteNS " ").
Qed.

Lemma readIOS_selector (op text : string) :
  iosText text = true ->
  readIOSTexts op ("-ios predicate string:name " ++ op ++ " " ++ quoteNS text
                   ++ " OR label " ++ op ++ " " ++ quoteNS text
                   ++ " OR value " ++ op ++ " " ++ quoteNS text)
  = Some (text, text, text).
Proof.
  intros H. unfold readIOSTexts.
  replace ("-ios predicate string:name " ++ op ++ " " ++ quoteNS text
           ++ " OR label " ++ op ++ " " ++ quoteNS text
           ++ " OR value " ++ op ++ " " ++ quoteNS text)
    with (("-ios predicate string:name " ++ op ++ " ")
          ++ quoteNS text ++ ((" OR label " ++ op ++ " ")
          ++ quoteNS text ++ ((" OR value " ++ op ++ " ") ++ quoteNS text ++ "")))
    by (str_norm; reflexivity).
  rewrite stripPrefix_append, (readLiteral_quoteNS _ _ H).
  rewrite stripPrefix_append, (readLiteral_quoteNS _ _ H).
  rewrite stripPrefix_append, (readLiteral_quoteNS _ _ H).
  reflexivity.
Qed.

(** C5: for a text of ordinary characters, double quotes and (on the
    Android side) backslashes, [quoteJava] and [quoteNS] write a literal
    that reads back as the text, and the selectors stored by [byTextExact]
    and [byTextContains] are well formed and carry that text. *)
Theorem text_factories_round_trip (text : string) :
  (androidText text = true ->
     readLiteral (quoteJava text) = Some (text, "")
     /\ (exists sel, android (byTextExact text) = Some [sel]
                     /\ readAndroidText "text" sel = Some text)
     /\ (exists sel, android (byTextContains text) = Some [sel]
                     /\ readAndroidText "textContains" sel = Some text))
  /\ (iosText text = true ->
     readLiteral (quoteNS text) = Some (text, "")
     /\ (exists sel, ios (byTextExact text) = Some [sel]
                     /\ readIOSTexts "==" sel = Some (text, text, text))
     /\ (exists sel, ios (byTextContains text) = Some [sel]
                     /\ readIOSTexts "CONTAINS" sel = Some (text, text, text))).
Proof.
  split; intros H.
  - split; [|split].
    + rewrite <- (append_nil_r (quoteJava text)). now apply readLiteral_quoteJava.
    + eexists. split.
      * unfold byTextExact, construct. cbn [android o_android].
        apply (androidSelector_stored "text").
      * now apply readAndroid_selector.
    + eexists. split.
      * unfold byTextContains, construct. cbn [android o_android].
        apply (androidSelector_stored "textContains").
      * now apply readAndroid_selector.
  - split; [|split].
    + rewrite <- (append_nil_r (quoteNS text)). now apply readLiteral_quoteNS.
    + eexists. split.
      * unfold byTextExact, construct. cbn [ios o_ios].
        apply (iosSelector_stored "==").
      * now apply readIOS_selector.
    + eexists. split.
      * unfold byTextContains, construct. cbn [ios o_ios].
        apply (iosSelector_stored "CONTAINS").
      * now apply readIOS_selector.
Qed.

(** *** The buckets hold non-empty strings *)

Lemma filter_truthy (l : list string) : Forall (fun s => truthy s = true) (filter truthy l).
Proof.
  apply Forall_forall. intros x H. now apply filter_In in H.
Qed.

Lemma normalizeList_truthy (a : option LocatorArg) :
  Forall (fun s => truthy s = true) (entries (normalizeList a)).
Proof.
  destruct a as [v|]; [|constructor]. unfold normalizeList, normalizePresent.
  pose proof (filter_truthy (map normalizeOne match v with One l => [l] | Many ls => ls end)) as H.
  destruct (filter truthy _); [constructor | exact H].
Qed.

Lemma construct_nonEmpty (o : ElementOpts) : entriesNonEmpty (construct o).
Proof. repeat split; apply normalizeList_truthy. Qed.

Lemma pushFallbacks_truthy (b : option (list string)) (a : option LocatorArg) :
  Forall (fun s => truthy s = true) (entries b) ->
  Forall (fun s => truthy s = true) (entries (fst (pushFallbacks b a))).
Proof.
  intros H. destruct (pushFallbacks_extends b a) as (extra & E & _). rewrite E.
  apply Forall_app. split; [exact H|].
  unfold pushFallbacks in E. destruct (arg_truthy a).
  - pose proof (normalizeList_truthy a) as Hn.
    destruct (normalizeList a) as [xs|]; cbn [fst entries] in E.
    + apply app_inv_head in E. now subst.
    + rewrite <- (app_nil_r (entries b)) in E at 1. apply app_inv_head in E. subst. constructor.
  - cbn [fst] in E. rewrite <- (app_nil_r (entries b)) in E at 1.
    apply app_inv_head in E. subst. constructor.
Qed.

Lemma withFallbacks_nonEmpty (el : PageElement) (o : ElementOpts) :
  entriesNonEmpty el -> entriesNonEmpty (fst (withFallbacks el o)).
Proof.
  intros (Ha & Hi & Hu). unfold withFallbacks.
  pose proof (pushFallbacks_truthy (android el) (o_android o) Ha) as Pa.
  pose proof (pushFallbacks_truthy (ios el) (o_ios o) Hi) as Pi.
  pose proof (pushFallbacks_truthy (universal el) (o_universal o) Hu) as Pu.
  destruct (pushFallbacks (android el) (o_android o)) as [a [|]];
    destruct (pushFallbacks (ios el) (o_ios o)) as [i [|]];
    destruct (pushFallbacks (universal el) (o_universal o)) as [u [|]];
    cbn [negb fst] in *; repeat split; assumption.
Qed.

Lemma applyFallbacks_nonEmpty (calls : list ElementOpts) (el : PageElement) :
  entriesNonEmpty el -> entriesNonEmpty (applyFallbacks el calls).
Proof.
  revert el. induction calls as [|o calls IH]; intros el H; [exact H|].
  apply IH. now apply withFallbacks_nonEmpty.
Qed.

Lemma selectors_from_buckets (driver : option Driver) (el : PageElement) (s : string) :
  In s (selectors driver el) ->
  In s (entries (android el)) \/ In s (entries (ios el)) \/ In s (entries (universal el)).
Proof.
  unfold selectors.
  destruct (getPlatform driver) as [[|]|], el as [[a|] [i|] [u|]]; cbn;
    rewrite ?in_app_iff; cbn; tauto.
Qed.

Lemma first_In (b : option (list string)) (s : string) : first b = Some s -> In s (entries b).
Proof.
  destruct b as [[|x l]|]; cbn; try discriminate. intros E. injection E as <-. now left.
Qed.

Lemma toSelector_from_buckets (driver : option Driver) (el : PageElement) (s : string) :
  toSelector driver el = Some s ->
  In s (entries (android el)) \/ In s (entries (ios el)) \/ In s (entries (universal el)).
Proof.
  unfold toSelector. destruct (selectors driver el) as [|x l] eqn:E.
  - destruct (first (android el)) eqn:Ea; cbn [orElse].
    + intros H. left. apply first_In. congruence.
    + destruct (first (ios el)) eqn:Ei; cbn [orElse]; intros H.
      * right. left. apply first_In. congruence.
      * right. right. now apply first_In.
  - intros H. injection H as <-. apply (selectors_from_buckets driver). rewrite E. now left.
Qed.

(** X19: no selector of an element is the empty string: after the
    constructor and any sequence of [withFallbacks] calls, returning or
    raising, every string in [selectors()] and the string [toSelector()]
    returns is non-empty, whatever the platform. *)
Theorem selectors_never_empty_string
    (driver : option Driver) (o : ElementOpts) (calls : list ElementOpts) (s : string) :
  let el := applyFallbacks (construct o) calls in
  (In s (selectors driver el) -> s <> "")
  /\ (toSelector driver el = Some s -> s <> "").
Proof.
  intros el.
  assert (H : entriesNonEmpty el) by (apply applyFallbacks_nonEmpty, construct_nonEmpty).
  destruct H as (Ha & Hi & Hu). rewrite Forall_forall in Ha, Hi, Hu.
  assert (Hs : In s (entries (android el)) \/ In s (entries (ios el))
               \/ In s (entries (universal el)) -> s <> "").
  { intros [H|[H|H]] ->; [apply Ha in H | apply Hi in H | apply Hu in H]; discriminate H. }
  split; intros H; apply Hs;
    [now apply (selectors_from_buckets driver) | now apply (toSelector_from_buckets driver)].
Qed.

(** X20: [toSelector] returns [null] only when no bucket has an entry.  It
    returns an entry of one of the buckets; and on a known platform, when
    neither the bucket of the platform nor the universal bucket has an
    entry, it falls back to the first entry of the other platform. *)
Theorem toSelector_null_iff_no_entry (driver : option Driver) (el : PageElement) :
  (toSelector driver el = None <->
   first (android el) = None /\ first (ios el) = None /\ first (universal el) = None)
  /\ (forall s, toSelector driver el = Some s ->
        In s (entries (android el)) \/ In s (entries (ios el))
        \/ In s (entries (universal el)))
  /\ (getPlatform driver = Some IOS -> first (ios el) = None -> first (universal el) = None ->
      toSelector driver el = first (android el))
  /\ (getPlatform driver = Some Android -> first (android el) = None ->
      first (universal el) = None -> toSelector driver el = first (ios el)).
Proof.
  split; [|split; [intros s; apply toSelector_from_buckets|]].
  - unfold toSelector, selectors.
    destruct (getPlatform driver) as [[|]|], el as [[[|a la]|] [[|i li]|] [[|u lu]|]];
      cbn; split; intros H; try discriminate H; try reflexivity;
      try (repeat split; reflexivity);
      try (destruct H as (H1 & H2 & H3); discriminate).
  - unfold toSelector, selectors.
    split; intros Hp; rewrite Hp;
      destruct el as [[[|a la]|] [[|i li]|] [[|u lu]|]]; cbn;
      intros H1 H2; try discriminate; reflexivity.
Qed.

(** *** [withFallbacks] *)

Lemma pushFallbacks_usable (b : option (list string)) (a : option LocatorArg) :
  snd (pushFallbacks b a) = usable a.
Proof.
  unfold pushFallbacks, usable. destruct (arg_truthy a); [|reflexivity].
  now destruct (normalizeList a).
Qed.

(** X21: [withFallbacks] returns exactly when each of its three arguments
    is usable: absent or falsy, or with a locator that is not empty after
    normalisation.  An empty array and a string of white space are not: the
    call then raises, and when it is the android argument that is not
    usable, the ios and universal buckets are left as they were and the
    android bucket keeps its entries. *)
Theorem withFallbacks_returns_iff_usable (el : PageElement) (o : ElementOpts) :
  snd (withFallbacks el o) = usable (o_android o) && usable (o_ios o) && usable (o_universal o)
  /\ usable (Some (Many [])) = false
  /\ (forall s, trim s = "" -> s <> "" -> usable (Some (One (LStr s))) = false)
  /\ (usable (o_android o) = false ->
      ios (fst (withFallbacks el o)) = ios el
      /\ universal (fst (withFallbacks el o)) = universal el
      /\ entries (android (fst (withFallbacks el o))) = entries (android el)).
Proof.
  split; [|split; [reflexivity|split]].
  - unfold withFallbacks.
    rewrite <- (pushFallbacks_usable (android el)), <- (pushFallbacks_usable (ios el)),
      <- (pushFallbacks_usable (universal el)).
    destruct (pushFallbacks (android el) (o_android o)) as [a [|]];
      destruct (pushFallbacks (ios el) (o_ios o)) as [i [|]];
      destruct (pushFallbacks (universal el) (o_universal o)) as [u [|]]; reflexivity.
  - intros s Ht Hs. unfold usable, normalizeList, normalizePresent.
    cbn [map normalizeOne arg_truthy]. rewrite Ht. destruct s; [contradiction | reflexivity].
  - intros Hu. unfold withFallbacks.
    pose proof (pushFallbacks_usable (android el) (o_android o)) as Hp.
    rewrite Hu in Hp. unfold pushFallbacks in *.
    unfold usable in Hu. destruct (arg_truthy (o_android o)); [|discriminate Hu].
    destruct (normalizeList (o_android o)); [discriminate Hu|].
    cbn. repeat split; reflexivity.
Qed.

(** *** Accessibility ids *)

Lemma trimEnd_cons (c : ascii) (s : string) :
  is_ws c = false -> trimEnd (String c s) = String c (trimEnd s).
Proof. intros H. cbn [trimEnd]. destruct (trimEnd s); [now rewrite H | reflexivity]. Qed.

Lemma accId_stored (id : string) :
  normalizeList (Some (One (LStr (toAccId id)))) = Some ["~" ++ trimEnd id].
Proof.
  unfold normalizeList, normalizePresent, toAccId. cbn [map normalizeOne append].
  unfold trim. cbn [trimStart]. change (is_ws "~") with false. cbv iota.
  now rewrite trimEnd_cons.
Qed.

(** X22: the element of [byAccessibilityId] resolves to the same selector
    whatever the platform, also with no session: the tilde followed by the
    id without its trailing white space (leading white space stays).  On a
    known platform [selectors()] lists that selector twice, once from the
    bucket of the platform and once from the universal bucket. *)
Theorem byAccessibilityId_selector (driver : option Driver) (id : string) :
  let s := "~" ++ trimEnd id in
  toSelector driver (byAccessibilityId id) = Some s
  /\ selectors driver (byAccessibilityId id) =
     match getPlatform driver with Some _ => [s; s] | None => [s] end.
Proof.
  intros s. unfold byAccessibilityId, toSelector, selectors, construct.
  cbn [android ios universal o_android o_ios o_universal]. rewrite accId_stored.
  destruct (getPlatform driver) as [[|]|]; split; reflexivity.
Qed.

Lemma withFallbacks_universal_acc (el : PageElement) (name : string) :
  withFallbacks el (mkOpts None None (Some (One (LStr (toAccId name)))))
  = (mkElement (android el) (ios el)
       (Some (entries (universal el) ++ [("~" ++ trimEnd name)%string])%list), true).
Proof.
  unfold withFallbacks, pushFallbacks. cbn [o_android o_ios o_universal arg_truthy negb].
  rewrite accId_stored. reflexivity.
Qed.

Lemma byTextExact_buckets (text : string) :
  byTextExact text =
  mkElement
    (Some ["android=new UiSelector()." ++ "text" ++ "(" ++ quoteJava text ++ ")"])
    (Some ["-ios predicate string:name " ++ "==" ++ " " ++ quoteNS text
           ++ " OR label " ++ "==" ++ " " ++ quoteNS text
           ++ " OR value " ++ "==" ++ " " ++ quoteNS text])
    None.
Proof.
  unfold byTextExact, construct. cbn [o_android o_ios o_universal].
  f_equal; [apply (androidSelector_stored "text") | apply (iosSelector_stored "==")].
Qed.

(** X23: [ExamplePage.elByName] never raises.  With no session the element
    resolves to the accessibility id, the fallback; on Android it resolves
    to the [UiSelector] text query and on iOS to the predicate, each
    followed in [selectors()] by the accessibility id, and for the texts the
    factories are specified for the queries carry the name. *)
Theorem elByName_resolves (name : string) :
  let el := fst (elByName name) in
  let acc := "~" ++ trimEnd name in
  snd (elByName name) = true
  /\ toSelector None el = Some acc
  /\ (exists sel,
        selectors (driverFor Android) el = [sel; acc]
        /\ toSelector (driverFor Android) el = Some sel
        /\ (androidText name = true -> readAndroidText "text" sel = Some name))
  /\ (exists sel,
        selectors (driverFor IOS) el = [sel; acc]
        /\ toSelector (driverFor IOS) el = Some sel
        /\ (iosText name = true -> readIOSTexts "==" sel = Some (name, name, name))).
Proof.
  intros el acc. subst el. unfold elByName.
  rewrite withFallbacks_universal_acc, byTextExact_buckets. fold acc.
  cbn [fst snd android ios universal entries app].
  split; [reflexivity|]. split; [reflexivity|]. split.
  - eexists. split; [reflexivity|]. split; [reflexivity|].
    intros H. now apply (readAndroid_selector "text").
  - eexists. split; [reflexivity|]. split; [reflexivity|].
    intros H. now apply (readIOS_selector "==").
Qed.

(** *** [escapeRegex] and [byResourceId] *)

Lemma plain_not_backslash (c : ascii) :
  isRegexSpecial c = false -> Ascii.eqb c backslash = false.
Proof.
  intros H. destruct (Ascii.eqb_spec c backslash) as [->|]; [|reflexivity].
  vm_compute in H. discriminate H.
Qed.

Lemma regexLiteral_escapeRegex (s : string) : regexLiteral (escapeRegex s) = Some s.
Proof.
  induction s as [|c s IH]; [reflexivity|]. cbn [escapeRegex].
  destruct (isRegexSpecial c) eqn:E; cbn [regexLiteral].
  - change (Ascii.eqb backslash backslash) with true. cbv iota. now rewrite E, IH.
  - now rewrite (plain_not_backslash c E), E, IH.
Qed.

Lemma androidText_append (a b : string) :
  androidText (a ++ b) = androidText a && androidText b.
Proof. apply forallb_str_append. Qed.

Lemma androidText_escapeRegex (s : string) :
  androidText s = true -> androidText (escapeRegex s) = true.
Proof.
  unfold androidText. induction s as [|c s IH]; [reflexivity|]. cbn [forallb_str escapeRegex].
  intros H. apply andb_prop in H as [Hc Hs]. specialize (IH Hs).
  destruct (isRegexSpecial c); cbn [forallb_str]; rewrite Hc, IH; [|reflexivity].
  rewrite Ascii.eqb_refl, orb_true_r. reflexivity.
Qed.

Lemma resourceId_read (m text : string) :
  androidText text = true ->
  exists sel,
    normalizeList
      (Some (One (LStr (toAndroidUIA ("new UiSelector()." ++ m ++ "(" ++ quoteJava text ++ ")")))))
    = Some [sel]
    /\ readAndroidText m sel = Some text.
Proof.
  intros H. eexists. split; [apply androidSelector_stored | now apply readAndroid_selector].
Qed.

Lemma getAndroidAppPackage_cases (src : PackageSources) (cache : option string) :
  snd (getAndroidAppPackage src cache) = fst (getAndroidAppPackage src cache)
  /\ (fst (getAndroidAppPackage src cache) = None
      \/ truthyOpt (fst (getAndroidAppPackage src cache)) = true)
  /\ (truthyOpt cache = true -> fst (getAndroidAppPackage src cache) = cache).
Proof.
  unfold getAndroidAppPackage. destruct (truthyOpt cache) eqn:Ec; cbn [fst snd].
  - repeat split; auto.
  - split; [reflexivity|]. split; [|discriminate].
    destruct (truthyOpt (orStr _ _)) eqn:E; auto.
Qed.

(** X24: [escapeRegex] writes a pattern that matches its argument
    literally.  [byResourceId] fills the android bucket only, with one
    selector, and leaves in the cache the package it found.  By default,
    with a package known, the selector queries the resource id
    [package:id/id]; with no package known, or when a pattern is asked for,
    it queries the pattern made of the optional qualifier, the escaped id and
    the end anchor.  A package once found is used by every later call,
    whatever the session or the environment then say. *)
Theorem byResourceId_selector (src : PackageSources) (cache : option string)
    (id : string) (opts : option ResourceIdOpts) :
  let pkg := fst (getAndroidAppPackage src cache) in
  let el := fst (byResourceId src cache id opts) in
  regexLiteral (escapeRegex id) = Some id
  /\ snd (byResourceId src cache id opts) = pkg
  /\ ios el = None /\ universal el = None
  /\ (androidText id = true ->
      (forall p, pkg = Some p -> truthy p = true -> androidText p = true -> opts = None ->
         exists sel, android el = Some [sel]
                     /\ readAndroidText "resourceId" sel = Some (p ++ ":id/" ++ id))
      /\ (pkg = None \/ (exists o, opts = Some o /\ regex o = Some true) ->
          exists sel, android el = Some [sel]
                      /\ readAndroidText "resourceIdMatches" sel
                         = Some ("(.+:id/)?" ++ escapeRegex id ++ "$")))
  /\ (forall src' id' p, pkg = Some p -> truthy p = true ->
        fst (byResourceId src' (snd (byResourceId src cache id opts)) id' None)
        = fst (byResourceId (mkPackageSources None None None) (Some p) id' None)).
Proof.
  intros pkg el. subst pkg el.
  destruct (getAndroidAppPackage_cases src cache) as (Hc & Hp & _).
  unfold byResourceId. destruct (getAndroidAppPackage src cache) as [p0 c0].
  cbn [fst snd] in Hc, Hp |- *. subst c0.
  split; [apply regexLiteral_escapeRegex|].
  split; [now destruct (_ && _)|].
  split; [now destruct (_ && _)|].
  split; [now destruct (_ && _)|].
  split.
  - intros Hid.
    assert (Hrx : androidText ("(.+:id/)?" ++ escapeRegex id ++ "$") = true).
    { rewrite !androidText_append, (androidText_escapeRegex id Hid). reflexivity. }
    split.
    + intros p -> Ht Hap ->. cbn [truthyOpt andb negb template]. rewrite Ht.
      cbn [construct android fst o_android].
      apply (resourceId_read "resourceId").
      rewrite !androidText_append, Hap, Hid. reflexivity.
    + intros Hcase.
      assert (Hcond : (match opts with
                       | Some o => match includePackagePrefix o with Some b => b | None => true end
                       | None => true
                       end
                       && truthyOpt p0
                       && negb match opts with
                               | Some o => match regex o with Some b => b | None => false end
                               | None => false
                               end) = false).
      { destruct Hcase as [-> | (o & -> & Hr)].
        - cbn [truthyOpt]. now rewrite andb_false_r.
        - rewrite Hr. cbn [negb]. now rewrite andb_false_r. }
      rewrite Hcond. cbn [construct android fst o_android].
      now apply (resourceId_read "resourceIdMatches").
  - intros src' id' p -> Ht.
    assert (E : forall a b : PageElement,
              snd (if match opts with
                      | Some o =>
                          match includePackagePrefix o with Some b => b | None => true end
                      | None => true
                      end
                      && truthyOpt (Some p)
                      && negb match opts with
                              | Some o => match regex o with Some b => b | None => false end
                              | None => false
                              end
                   then (a, Some p) else (b, Some p)) = Some p)
      by (intros a b; now destruct (_ && _)).
    rewrite E. unfold getAndroidAppPackage. cbn [truthyOpt]. rewrite Ht. reflexivity.
Qed.

(** *** [escapeXPath] *)

Lemma prefix_empty (s : string) : String.prefix "" s = true.
Proof. now destruct s. Qed.

Lemma includes_char (c : ascii) (s : string) :
  includes (String c "") s = negb (count c s =? 0)%nat.
Proof.
  induction s as [|d s IH]; [reflexivity|]. cbn [includes String.prefix count].
  destruct (ascii_dec c d) as [->|Hn].
  - rewrite prefix_empty, Ascii.eqb_refl. reflexivity.
  - destruct (Ascii.eqb_spec d c) as [->|_]; [contradiction|]. now rewrite IH.
Qed.

Lemma count_append (c : ascii) (a b : string) :
  count c (a ++ b) = (count c a + count c b)%nat.
Proof.
  induction a as [|d a IH]; [reflexivity|]. cbn [append count]. rewrite IH. lia.
Qed.

Lemma untilQuote_append (q : ascii) (t rest : string) :
  count q t = 0%nat -> untilQuote q (t ++ String q rest) = Some (t, rest).
Proof.
  induction t as [|c t IH]; cbn [append untilQuote count].
  - now rewrite Ascii.eqb_refl.
  - destruct (Ascii.eqb c q); [discriminate|]. intros H. now rewrite (IH H).
Qed.

Lemma untilQuote_spec (q : ascii) (s t rest : string) :
  untilQuote q s = Some (t, rest) -> s = t ++ String q rest /\ count q t = 0%nat.
Proof.
  revert t. induction s as [|c s IH]; intros t; [discriminate|]. cbn [untilQuote].
  destruct (Ascii.eqb_spec c q) as [->|Hn].
  - intros E. injection E as <- <-. now split.
  - destruct (untilQuote q s) as [[t' r']|]; [|discriminate].
    intros E. injection E as <- <-. destruct (IH t' eq_refl) as [-> Hc].
    split; [reflexivity|]. cbn [count].
    destruct (Ascii.eqb_spec c q); [contradiction | exact Hc].
Qed.

Lemma readXPath_quoted (q : ascii) (s : string) :
  (q = squote \/ q = dquote) -> count q s = 0%nat ->
  readXPath (String q (s ++ String q "")) = Some s.
Proof.
  intros Hq Hs. unfold readXPath.
  assert (Hp : stripPrefix "concat(" (String q (s ++ String q "")) = None)
    by (destruct Hq as [-> | ->]; reflexivity).
  rewrite Hp. cbn [readXPathLiteral].
  assert (Hb : Ascii.eqb q squote || Ascii.eqb q dquote = true)
    by (destruct Hq as [-> | ->]; reflexivity).
  now rewrite Hb, untilQuote_append.
Qed.

(** A literal read off a text takes two single quotes of it when it is
    single-quoted, and has no double quote when it is double-quoted. *)
Lemma readXPathLiteral_counts (s t rest : string) :
  readXPathLiteral s = Some (t, rest) ->
  (count squote s = count squote t + count squote rest /\ count dquote t = 0)%nat
  \/ (count squote s = 2 + count squote rest /\ count squote t = 0)%nat.
Proof.
  destruct s as [|c s]; [discriminate|]. cbn [readXPathLiteral].
  destruct (Ascii.eqb_spec c squote) as [->|Hs]; cbn [orb].
  - intros H. apply untilQuote_spec in H as [-> Hc]. right.
    cbn [count]. rewrite count_append. cbn [count]. rewrite Ascii.eqb_refl, Hc. split; lia.
  - destruct (Ascii.eqb_spec c dquote) as [->|Hd]; [|discriminate].
    intros H. apply untilQuote_spec in H as [-> Hc]. left.
    cbn [count]. rewrite count_append. cbn [count].
    change (Ascii.eqb dquote squote) with false. cbv iota. split; [lia | exact Hc].
Qed.

Lemma readConcatArgs_counts (n : nat) (s r : string) :
  readConcatArgs n s = Some r ->
  (count squote r <= count squote s)%nat
  /\ (count squote r = count squote s -> count dquote r = 0%nat).
Proof.
  revert s r. induction n as [|n IH]; intros s r; [discriminate|]. cbn [readConcatArgs].
  destruct (readXPathLiteral s) as [[t [|c rest]]|] eqn:El; try discriminate.
  apply readXPathLiteral_counts in El. cbn [count] in El.
  destruct (Ascii.eqb_spec c ","%char) as [->|Hc].
  - destruct (readConcatArgs n rest) as [r'|] eqn:Er; [|discriminate].
    intros E. injection E as <-. destruct (IH rest r' Er) as [H1 H2].
    change (Ascii.eqb ","%char squote) with false in El. cbv iota in El.
    rewrite !count_append. destruct El as [[E1 E2]|[E1 E2]]; split; try lia;
      intros H; rewrite E2, H2; lia.
  - destruct (Ascii.eqb_spec c ")"%char) as [->|_]; [|discriminate].
    destruct rest; [|discriminate]. intros E. injection E as <-.
    change (Ascii.eqb ")"%char squote) with false in El. cbv iota in El. cbn [count] in El.
    destruct El as [[E1 E2]|[E1 E2]]; split; try lia; intros _; exact E2.
Qed.

Lemma split_parts (c : ascii) (s : string) :
  exists p ps,
    split c s = p :: ps
    /\ count c p = 0%nat
    /\ Forall (fun x => count c x = 0%nat) ps
    /\ List.length ps = count c s.
Proof.
  induction s as [|d s (p & ps & E & Hp & Hps & Hl)]; cbn [split count].
  - exists "", []. repeat split. constructor.
  - destruct (Ascii.eqb_spec d c) as [->|Hn].
    + exists "", (p :: ps). rewrite E. repeat split; [now constructor | cbn; lia].
    + rewrite E. exists (String d p), ps. repeat split; try assumption.
      cbn [count]. destruct (Ascii.eqb_spec d c); [contradiction | exact Hp].
Qed.

Lemma mapiFrom_later {A B} (i : nat) (f : nat -> A -> B) (g : A -> B) (l : list A) :
  (forall j x, f (S j) x = g x) -> mapiFrom (S i) f l = map g l.
Proof.
  intros H. revert i. induction l as [|x l IH]; intros i; [reflexivity|].
  cbn [mapiFrom map]. now rewrite H, IH.
Qed.

(** The single quotes of the arguments written for the parts after the
    first one: one for each. *)
Lemma count_joined_parts (x : string) (ps : list string) :
  Forall (fun p => count squote p = 0%nat) ps ->
  count squote
    (join ","
       (x :: map (fun p => String dquote (String squote (String dquote
                             ("," ++ String dquote (p ++ String dquote ""))))) ps))
  = (count squote x + List.length ps)%nat.
Proof.
  intros H. revert x. induction H as [|p ps Hp _ IH]; intros x.
  - cbn [map join List.length]. lia.
  - cbn [map]. change (join "," (x :: ?y :: ?l)) with (x ++ "," ++ join "," (y :: l)).
    rewrite !count_append, IH. cbn [count append List.length].
    rewrite count_append, Hp. cbn [count].
    change (Ascii.eqb dquote squote) with false.
    change (Ascii.eqb ","%char squote) with false.
    change (Ascii.eqb squote squote) with true. cbv iota. lia.
Qed.

Lemma escapeXPath_concat_quotes (s : string) :
  exists body,
    "concat("
    ++ join ","
         (mapi (fun i p =>
                  if (i =? 0)%nat then String dquote (p ++ String dquote "")
                  else String dquote (String squote (String dquote
                         ("," ++ String dquote (p ++ String dquote "")))))
            (split squote s))
    ++ ")" = "concat(" ++ body
    /\ count squote body = count squote s.
Proof.
  eexists. split; [reflexivity|].
  destruct (split_parts squote s) as (p & ps & E & Hp & Hps & Hl). rewrite E.
  unfold mapi. cbn [mapiFrom Nat.eqb].
  rewrite (mapiFrom_later 0 _
             (fun p => String dquote (String squote (String dquote
                         ("," ++ String dquote (p ++ String dquote "")))))) by reflexivity.
  rewrite count_append, (count_joined_parts _ ps Hps). cbn [count].
  rewrite count_append, Hp. cbn [count].
  change (Ascii.eqb dquote squote) with false.
  change (Ascii.eqb ")"%char squote) with false. cbv iota. lia.
Qed.

(** X25: the expression [escapeXPath] writes denotes its argument exactly
    when the argument lacks one of the two quote characters: then it is
    written as one literal in the quotes it lacks.  For an argument with
    both a single and a double quote the [concat] written does not denote
    it: every part goes between double quotes, the parts that have a
    double quote too. *)
Theorem escapeXPath_reads_back_iff (s : string) :
  readXPath (escapeXPath s) = Some s
  <-> includes (String squote "") s = false \/ includes (String dquote "") s = false.
Proof.
  unfold escapeXPath. rewrite !includes_char.
  destruct (count squote s =? 0)%nat eqn:Es; cbn [negb].
  - apply Nat.eqb_eq in Es. split; [now left|]. intros _.
    now apply readXPath_quoted; [left|].
  - destruct (count dquote s =? 0)%nat eqn:Ed; cbn [negb].
    + apply Nat.eqb_eq in Ed. split; [now right|]. intros _.
      now apply readXPath_quoted; [right|].
    + split; [|intros [H|H]; discriminate H]. intros H. exfalso.
      destruct (escapeXPath_concat_quotes s) as (body & Eb & Hc).
      rewrite Eb in H. unfold readXPath in H. rewrite stripPrefix_append in H.
      apply readConcatArgs_counts in H as [_ H].
      apply Nat.eqb_neq in Ed. apply Ed, H. now rewrite Hc.
Qed.

End LocatorFacts.

(* --------------------------------------------------------------------- *)
(** ** Diagnostics collector *)
(* --------------------------------------------------------------------- *)

Module DiagnosticsFacts.
Import Js JsFacts Eff Diagnostics.

Example parseDump_granted_block :
  parseDump ("  grantedPermissions: [ android.permission.CAMERA, android.permission.INTERNET ]"
             ++ String (ascii_of_nat 10) "  android.permission.READ_SMS: granted=false")
  = (["android.permission.CAMERA"; "android.permission.INTERNET"], []).
Proof. reflexivity. Qed.

Example parseDump_grant_lines :
  parseDump ("    android.permission.CAMERA: granted=true, flags=[ ]"
             ++ String (ascii_of_nat 10) "    android.permission.READ_SMS : Granted = FALSE"
             ++ String (ascii_of_nat 10) "    android.permission.: granted=true")
  = (["android.permission.CAMERA"], ["android.permission.READ_SMS"]).
Proof. reflexivity. Qed.

(** The guarded steps: each returns, whatever its call answers. *)















End DiagnosticsFacts.

(* --------------------------------------------------------------------- *)
(** ** Device launcher *)
(* --------------------------------------------------------------------- *)

Module DeviceFacts.
Import Js JsFacts Eff DeviceLauncher.

Section Facts.

Context {W : Type}.
Variable host : Host W.
Variable opts : DeviceServiceOpts.
Variable env : ProcessEnv.

#[local] Abbreviation St := (Store W).

(** *** Relations kept by every run *)

#[local] Instance sameFields_preorder : PreOrder (@sameFields W).
Proof.
  split.
  - intros s. now repeat split.
  - intros a b c (H1 & H2 & H3) (H4 & H5 & H6). repeat split; congruence.
Qed.

#[local] Instance emits_preorder (ok : event -> bool) : PreOrder (@emits W ok).
Proof.
  split.
  - intros s. exists []. now rewrite app_nil_r.
  - intros a b c (e1 & H1 & F1) (e2 & H2 & F2). exists (e1 ++ e2)%list.
    rewrite H2, H1, <- app_assoc, forallb_app, F1, F2. now split.
Qed.

#[local] Instance quietBy_preorder (ok : event -> bool) : PreOrder (@quietBy W ok).
Proof.
  split.
  - intros s. split; reflexivity.
  - intros a b c [H1 H2] [H3 H4]. split; etransitivity; eassumption.
Qed.

Lemma emits_weaken (ok ok' : event -> bool) (s s' : St) :
  (forall e, ok e = true -> ok' e = true) -> emits ok s s' -> emits ok' s s'.
Proof.
  intros H (evs & E & F). exists evs. split; [exact E|].
  rewrite forallb_forall in *. auto.
Qed.

Section Keeps.

Variable R : St -> St -> Prop.
Context `{!PreOrder R}.

Lemma keeps_ret {A} (a : A) : keeps R (ret a).
Proof. intros s. reflexivity. Qed.

Lemma keeps_throw {A} (e : string) : keeps R (@throw St A e).
Proof. intros s. reflexivity. Qed.

Lemma keeps_exhausted {A} : keeps R (@exhausted St A).
Proof. intros s. reflexivity. Qed.

Lemma keeps_get : keeps R (@get St).
Proof. intros s. reflexivity. Qed.

Lemma keeps_bind {A B} (m : S A) (k : A -> S B) :
  keeps R m -> (forall a, keeps R (k a)) -> keeps R (bind m k).
Proof.
  intros Hm Hk s. unfold bind. specialize (Hm s).
  destruct (m s) as [[a|e|] s1]; cbn [snd] in *; try exact Hm.
  etransitivity; [exact Hm | apply Hk].
Qed.

Lemma keeps_tryCatch {A} (m : S A) (h : string -> S A) :
  keeps R m -> (forall e, keeps R (h e)) -> keeps R (tryCatch m h).
Proof.
  intros Hm Hh s. unfold tryCatch. specialize (Hm s).
  destruct (m s) as [[a|e|] s1]; cbn [snd] in *; try exact Hm.
  etransitivity; [exact Hm | apply Hh].
Qed.

Lemma keeps_when (b : bool) (m : S unit) : keeps R m -> keeps R (when b m).
Proof. intros H. destruct b; [exact H | apply keeps_ret]. Qed.

Lemma keeps_orOnError {A} (m : S A) (v : A) : keeps R m -> keeps R (orOnError m v).
Proof. intros H. apply keeps_tryCatch; [exact H | intros; apply keeps_ret]. Qed.

End Keeps.

(** Breaks a computation into its calls; what remains are the calls of
    the methods and of the primitives. *)
Ltac keeps_steps :=
  repeat first
    [ match goal with |- PreOrder _ => typeclasses eauto end
    | apply keeps_ret
    | apply keeps_throw
    | apply keeps_exhausted
    | apply keeps_get
    | apply keeps_bind; [| | intros ?]
    | apply keeps_tryCatch; [| | intros ?]
    | apply keeps_orOnError
    | apply keeps_when
    | match goal with
      | |- keeps _ (if ?b then _ else _) => destruct b
      | |- keeps _ (match ?x with _ => _ end) => destruct x
      end ].

(** *** The primitives and the methods that assign no field *)

Section Quiet.

Variable ok : event -> bool.
Hypothesis ok_log : forall l, ok (Log l) = true.
Hypothesis ok_sleep : forall ms, ok (Sleep ms) = true.
Hypothesis ok_healthy : forall id, ok (Healthy id) = true.

Lemma quiet_emit (e : event) : ok e = true -> keeps (quietBy ok) (@emit W e).
Proof.
  intros He s. split; [now repeat split|].
  exists [e]. cbn. now rewrite He.
Qed.

Lemma quiet_log (msg : string) : keeps (quietBy ok) (@log W opts msg).
Proof.
  unfold log. apply keeps_when; [typeclasses eauto|]. now apply quiet_emit.
Qed.

Lemma quiet_sleep (ms : Z) : keeps (quietBy ok) (sleep host ms).
Proof.
  intros s. split; [now repeat split|].
  exists [Sleep ms]. cbn. now rewrite ok_sleep.
Qed.

Lemma quiet_now : keeps (quietBy ok) (now host).
Proof.
  intros s. unfold now. destruct (clock host (world s)) as [t w].
  split; [now repeat split|]. exists []. cbn. now rewrite app_nil_r.
Qed.

Lemma quiet_exec (cmd : string) :
  (forall r, ok (Exec cmd r) = true) -> keeps (quietBy ok) (exec host cmd).
Proof.
  intros Hc s. unfold exec. destruct (run host cmd (world s)) as [r w].
  assert (E : emits ok s (mkStore (androidSerial s) (iosUdid s) (started s) w
                             (trace s ++ [Exec cmd r])%list))
    by (exists [Exec cmd r]; cbn; now rewrite Hc).
  destruct r; (split; [now repeat split | exact E]).
Qed.

Lemma quiet_execAdb (serial : string) (args : list string) :
  (forall r, ok (Exec (join " " ("adb" :: "-s" :: serial :: args)) r) = true) ->
  keeps (quietBy ok) (execAdb host opts serial args).
Proof.
  intros Hc. unfold execAdb. apply keeps_bind; [typeclasses eauto| |intros _].
  - apply quiet_log.
  - now apply quiet_exec.
Qed.

Lemma quiet_adbDevices :
  (forall r, ok (Exec "adb devices" r) = true) -> keeps (quietBy ok) (adbDevices host).
Proof.
  intros Hc. unfold adbDevices. apply keeps_bind; [typeclasses eauto| |intros out].
  - now apply quiet_exec.
  - apply keeps_ret. typeclasses eauto.
Qed.

Lemma quiet_isAndroidHealthy (serial : string) :
  (forall r, ok (Exec "adb devices" r) = true) ->
  (forall cmd r, In cmd (healthProbes serial) -> ok (Exec cmd r) = true) ->
  keeps (quietBy ok) (isAndroidHealthy host opts env serial).
Proof.
  intros Hl Hp. unfold isAndroidHealthy.
  keeps_steps;
    solve [ apply quiet_sleep
          | apply quiet_log
          | now apply quiet_emit
          | apply quiet_exec; intros r; first [apply Hl | apply Hp; cbn; tauto] ].
Qed.

Lemma quiet_isBooted (udid : string) :
  (forall r, ok (Exec ("xcrun simctl list devices booted | grep " ++ udid) r) = true) ->
  keeps (quietBy ok) (isBooted host udid).
Proof.
  intros Hc. unfold isBooted.
  keeps_steps; solve [ now apply quiet_exec | now apply quiet_emit ].
Qed.

End Quiet.

Lemma quiet_spawn (ok : event -> bool) (cmd : string) (args : list string) :
  ok (Spawn cmd args) = true -> keeps (quietBy ok) (spawn host cmd args).
Proof.
  intros Hc s. split; [now repeat split|].
  exists [Spawn cmd args]. cbn. now rewrite Hc.
Qed.

(** The methods below assign no field and never mark [started]. *)

Ltac quiet_calls :=
  keeps_steps;
  try solve [ apply quiet_sleep; reflexivity
            | apply quiet_log; reflexivity
            | apply quiet_now
            | apply quiet_emit; reflexivity
            | apply quiet_exec; reflexivity
            | apply quiet_spawn; reflexivity ].

Lemma quiet_tryAdbRestart : keeps (quietBy notStarted) (tryAdbRestart host).
Proof. unfold tryAdbRestart. quiet_calls. Qed.

Lemma quiet_healthy (serial : string) :
  keeps (quietBy notStarted) (isAndroidHealthy host opts env serial).
Proof. apply quiet_isAndroidHealthy; reflexivity. Qed.

Lemma quiet_healthyLoop (budget : nat) (retries i : Z) (serial : string) :
  keeps (quietBy notStarted) (healthyLoop host opts env budget retries i serial).
Proof.
  revert i. induction budget as [|b IH]; intros i; cbn [healthyLoop];
    quiet_calls; solve [apply quiet_healthy | apply IH].
Qed.

Lemma quiet_waitForAndroidHealthy (serial : string) :
  keeps (quietBy notStarted) (waitForAndroidHealthy host opts env serial).
Proof. apply quiet_healthyLoop. Qed.

Lemma quiet_stopAndroid : keeps (quietBy notStarted) (stopAndroid host opts).
Proof. unfold stopAndroid. quiet_calls. Qed.

Lemma quiet_bootLoop (fuel : nat) (deadline : Z) (serial : string) :
  keeps (quietBy notStarted) (bootLoop host opts fuel deadline serial).
Proof.
  induction fuel as [|f IH]; cbn [bootLoop]; unfold settled; quiet_calls; apply IH.
Qed.

Lemma quiet_waitForBootComplete (fuel : nat) (serial : string) (timeoutMs : Z) :
  keeps (quietBy notStarted) (waitForBootComplete host opts fuel serial timeoutMs).
Proof. unfold waitForBootComplete. quiet_calls. apply quiet_bootLoop. Qed.

Lemma quiet_awaitSerial (fuel : nat) (deadline : Z) :
  keeps (quietBy notStarted) (awaitSerial host fuel deadline).
Proof.
  induction fuel as [|f IH]; cbn [awaitSerial]; quiet_calls; apply IH.
Qed.

Lemma quiet_booted (udid : string) : keeps (quietBy notStarted) (isBooted host udid).
Proof. apply quiet_isBooted; reflexivity. Qed.

Lemma quiet_findUdidByName (name : string) :
  keeps (quietBy notStarted) (findUdidByName host name).
Proof. unfold findUdidByName. quiet_calls. Qed.

Lemma quiet_awaitBooted (fuel : nat) (deadline : Z) (udid : string) :
  keeps (quietBy notStarted) (awaitBooted host fuel deadline udid).
Proof.
  induction fuel as [|f IH]; cbn [awaitBooted];
    quiet_calls; solve [apply quiet_booted | apply IH].
Qed.

Lemma quiet_stopIOS : keeps (quietBy notStarted) (stopIOS host opts).
Proof. unfold stopIOS. quiet_calls. Qed.


(** *** The invariant *)



Lemma emits_In (ok : event -> bool) (s s' : St) (e : event) :
  emits ok s s' -> In e (trace s) -> In e (trace s').
Proof. intros (evs & E & _) H. rewrite E. apply in_or_app. now left. Qed.


Lemma stable_true : stable (fun _ : St => True).
Proof. intros s s' _ _. exact I. Qed.

Lemma stable_and (P Q : St -> Prop) : stable P -> stable Q -> stable (fun s => P s /\ Q s).
Proof. intros HP HQ s s' H [p q]. split; [eapply HP | eapply HQ]; eassumption. Qed.

Lemma stable_serial (id : string) : stable (fun s : St => androidSerial s = Some id).
Proof. intros s s' [(Ha & _ & _) _] H. now rewrite Ha. Qed.

Lemma stable_udid (id : string) : stable (fun s : St => iosUdid s = Some id).
Proof. intros s s' [(_ & Hi & _) _] H. now rewrite Hi. Qed.

Lemma stable_In (e : event) : stable (fun s : St => In e (trace s)).
Proof. intros s s' [_ Hem] H. now apply (emits_In _ _ _ _ Hem). Qed.

(** *** Rules *)














Ltac stable_tac :=
  repeat apply stable_and;
  first [ apply stable_true | apply stable_serial | apply stable_udid | apply stable_In ].

Ltac quiet_any :=
  first [ apply quiet_healthy | apply quiet_waitForAndroidHealthy | apply quiet_stopAndroid
        | apply quiet_waitForBootComplete | apply quiet_awaitSerial | apply quiet_booted
        | apply quiet_findUdidByName | apply quiet_awaitBooted | apply quiet_stopIOS
        | apply quiet_tryAdbRestart
        | quiet_calls ].







(** *** The methods that assign fields keep the invariant *)









(** *** [ensureAndroidReadyWithRetry] *)

Lemma retryLoop_enters (fuel : nat) (context : string) (r : Z) :
  0 <= r ->
  retryLoop host opts env (Z.to_nat (r + 1)) fuel context r 0 =
  tryCatch (startOrHealAndroid host opts env fuel)
    (fun e =>
       bind (reportFailure host opts context r 0 e)
         (fun _ =>
            if 0 <? r then
              bind (sleep host (backoffBase * (0 + 1)))
                (fun _ => retryLoop host opts env (Z.to_nat r) fuel context r (0 + 1))
            else throw e)).
Proof.
  intros Hr. replace (Z.to_nat (r + 1)) with (Datatypes.S (Z.to_nat r)) by lia.
  cbn [retryLoop]. destruct (Z.leb_spec 0 r); [reflexivity | lia].
Qed.

Lemma log_runs (msg : string) (s : St) :
  log opts msg s =
  (Returned tt,
   mkStore (androidSerial s) (iosUdid s) (started s) (world s)
     (trace s ++ (if nullish (verbose opts) true
                  then [Log ("[device-service] " ++ msg)] else []))%list).
Proof.
  unfold log. destruct (nullish (verbose opts) true); cbn.
  - reflexivity.
  - rewrite app_nil_r. now destruct s.
Qed.

(** C10: with neither the [avdName] option nor [ANDROID_EMULATOR_NAME]
    set, [ensureAndroidReadyWithRetry] returns, assigns no field (so
    [started] stays as it was) and adds to the history nothing but log
    lines: no command is run and no child spawned. *)
Theorem ensureReady_skips_without_avd (fuel : nat) (context : string) (s : St) :
  androidOpt opts AndroidOpts.avdName = None ->
  ANDROID_EMULATOR_NAME env = None ->
  exists s',
    ensureAndroidReadyWithRetry host opts env fuel context s = (Returned tt, s')
    /\ sameFields s s'
    /\ (started s = false -> started s' = false)
    /\ emits noCommand s s'.
Proof.
  intros Ho He.
  assert (Hskip : startOrHealAndroid host opts env fuel =
                  log opts "[android] ANDROID_EMULATOR_NAME not provided - skipping auto start").
  { unfold startOrHealAndroid, configuredAvdName. unfold androidOpt in Ho.
    rewrite Ho, He. reflexivity. }
  unfold ensureAndroidReadyWithRetry. cbn zeta.
  destruct (Z.leb_spec 0 (emulatorRetries env)) as [Hr|Hr].
  - rewrite (retryLoop_enters _ _ _ Hr), Hskip. unfold tryCatch. rewrite log_runs.
    eexists. split; [reflexivity|]. cbn. repeat split; auto.
    eexists. split; [reflexivity|]. now destruct (nullish (verbose opts) true).
  - replace (Z.to_nat (emulatorRetries env + 1)) with 0%nat by lia. cbn [retryLoop].
    destruct (Z.leb_spec 0 (emulatorRetries env)); [lia|].
    exists s. repeat split; auto. exists []. now rewrite app_nil_r.
Qed.

Lemma checkOnly_probe (serial cmd : string) (r : answer) :
  In cmd (healthProbes serial) -> checkOnly serial (Exec cmd r) = true.
Proof.
  intros H. cbn [checkOnly]. apply orb_true_iff. right.
  apply existsb_exists. exists cmd. split; [exact H | apply String.eqb_refl].
Qed.

(** C2: when the listing shows an emulator and its health check passes,
    [ensureAndroidReadyWithRetry] returns with [started] set and the
    emulator tracked, and everything it did was listing devices and
    probing the health of that emulator: no child was spawned. *)
Theorem ensureReady_healthy_boots_nothing
    (fuel : nat) (context : string) (s s1 s2 : St)
    (devices : list string) (serial : string) :
  0 <= emulatorRetries env ->
  truthyOpt (configuredAvdName opts env) = true ->
  adbDevices host s = (Returned devices, s1) ->
  findEmulator devices = Some serial ->
  isAndroidHealthy host opts env serial (afterListing opts serial s1) = (Returned true, s2) ->
  exists s',
    ensureAndroidReadyWithRetry host opts env fuel context s = (Returned tt, s')
    /\ started s' = true
    /\ androidSerial s' = Some serial
    /\ emits (checkOnly serial) s s'.
Proof.
  intros Hr Havd Hlist Hfind Hok.
  assert (E1 : quietBy (checkOnly serial) s s1).
  { replace s1 with (snd (adbDevices host s)) by now rewrite Hlist.
    apply quiet_adbDevices; reflexivity. }
  assert (E2 : emits (checkOnly serial) s1 (afterListing opts serial s1)).
  { unfold afterListing, bind. rewrite log_runs. cbn.
    eexists. split; [reflexivity|]. now destruct (nullish (verbose opts) true). }
  assert (E3 : quietBy (checkOnly serial) (afterListing opts serial s1) s2).
  { replace s2 with (snd (isAndroidHealthy host opts env serial (afterListing opts serial s1)))
      by now rewrite Hok.
    apply quiet_isAndroidHealthy; try reflexivity. intros; now apply checkOnly_probe. }
  assert (Hser : androidSerial s2 = Some serial).
  { destruct E3 as [(Ha & _ & _) _]. rewrite Ha. unfold afterListing, bind.
    rewrite log_runs. reflexivity. }
  unfold ensureAndroidReadyWithRetry. cbn zeta. rewrite (retryLoop_enters _ _ _ Hr).
  unfold tryCatch, startOrHealAndroid. rewrite Havd. cbn [negb].
  unfold bind at 1. rewrite Hlist, Hfind.
  change (bind (log opts ("[android] emulator already running: " ++ serial))
            (fun _ => bind (setAndroidSerial serial) ?k) s1)
    with (bind (log opts ("[android] emulator already running: " ++ serial))
            (fun _ => bind (setAndroidSerial serial) k) s1).
  unfold bind at 1. rewrite log_runs. unfold bind at 1. cbn [setAndroidSerial modify].
  match goal with
  | |- context [bind (isAndroidHealthy host opts env serial) ?k ?x] =>
      change x with (afterListing opts serial s1) ||
      assert (Ex : x = afterListing opts serial s1)
        by (unfold afterListing, bind; rewrite log_runs; reflexivity)
  end.
  unfold bind at 1. try rewrite Ex. rewrite Hok.
  unfold bind at 1. cbn [setStarted modify]. rewrite log_runs.
  eexists. split; [reflexivity|]. cbn [started androidSerial trace].
  split; [reflexivity|]. split; [exact Hser|].
  transitivity s1; [apply E1|]. transitivity (afterListing opts serial s1); [exact E2|].
  transitivity s2; [apply E3|].
  eexists. split; [now rewrite <- app_assoc|].
  cbn. now destruct (nullish (verbose opts) true).
Qed.

Lemma tryAdbRestart_runs (s : St) :
  exists a s',
    tryAdbRestart host s = (Returned tt, s')
    /\ trace s' = (trace s ++ [Exec "adb start-server" a])%list.
Proof.
  unfold tryAdbRestart, tryCatch, bind, exec.
  destruct (run host "adb start-server" (world s)) as [[out|e] w];
    eexists _, _; split; reflexivity.
Qed.

Lemma reportFailure_runs (context : string) (retries attempt : Z) (msg : string) (s : St) :
  exists a s',
    reportFailure host opts context retries attempt msg s = (Returned tt, s')
    /\ trace s' = (trace s ++ failureLog opts context retries attempt msg
                   ++ [Exec "adb start-server" a])%list.
Proof.
  unfold reportFailure, bind. rewrite log_runs.
  match goal with
  | |- context [tryAdbRestart host ?x] =>
      destruct (tryAdbRestart_runs x) as (a & s' & E & Ht)
  end.
  exists a, s'. split; [exact E|]. rewrite Ht. cbn [trace].
  unfold failureLog. now rewrite <- app_assoc.
Qed.

Section Exhausted.

Variable fuel : nat.
Variable context : string.
Variable s0 : St.

Let r := emulatorRetries env.
Let before := attemptStart host opts env fuel context s0.
Let err (k : nat) := raised (fst (startOrHealAndroid host opts env fuel (before k))).
Let after (k : nat) := snd (startOrHealAndroid host opts env fuel (before k)).

Hypothesis retries_nonneg : 0 <= r.
Hypothesis every_attempt_fails :
  forall k, (k <= Z.to_nat r)%nat ->
    exists e s', startOrHealAndroid host opts env fuel (before k) = (Thrown e, s').

Lemma attempt_fails (k : nat) :
  (k <= Z.to_nat r)%nat ->
  startOrHealAndroid host opts env fuel (before k) = (Thrown (err k), after k).
Proof.
  intros Hk. unfold err, after. destruct (every_attempt_fails k Hk) as (e & s' & E).
  now rewrite E.
Qed.

Lemma before_next (k : nat) :
  before (Datatypes.S k) =
  snd (bind (reportFailure host opts context r (Z.of_nat k) (err k))
         (fun _ => sleep host (backoffBase * (Z.of_nat k + 1))) (after k)).
Proof. reflexivity. Qed.

Lemma retryLoop_exhausts (n k : nat) :
  (k + n = Z.to_nat r)%nat ->
  retryLoop host opts env (Datatypes.S n) fuel context r (Z.of_nat k) (before k) =
  (Thrown (err (Z.to_nat r)),
   snd (reportFailure host opts context r r (err (Z.to_nat r)) (after (Z.to_nat r)))).
Proof.
  revert k. induction n as [|n IH]; intros k Hk.
  - assert (Ek : Z.of_nat k = r) by lia.
    assert (Ek' : k = Z.to_nat r) by lia.
    cbn [retryLoop]. destruct (Z.leb_spec (Z.of_nat k) r); [|lia].
    unfold tryCatch. rewrite attempt_fails by lia. unfold bind.
    destruct (reportFailure_runs context r (Z.of_nat k) (err k) (after k))
      as (a & s' & E & _).
    rewrite E. destruct (Z.ltb_spec (Z.of_nat k) r); [lia|].
    rewrite <- Ek'. rewrite <- Ek in E |- * at 2.
    unfold throw. now rewrite <- Ek, E.
  - cbn [retryLoop]. destruct (Z.leb_spec (Z.of_nat k) r); [|lia].
    unfold tryCatch at 1. rewrite attempt_fails by lia.
    assert (Enext : before (Datatypes.S k) =
                    snd (bind (reportFailure host opts context r (Z.of_nat k) (err k))
                           (fun _ => sleep host (backoffBase * (Z.of_nat k + 1))) (after k)))
      by apply before_next.
    unfold bind at 1. unfold bind at 1 in Enext.
    destruct (reportFailure_runs context r (Z.of_nat k) (err k) (after k))
      as (a & s' & E & _).
    rewrite E in *. destruct (Z.ltb_spec (Z.of_nat k) r); [|lia].
    unfold bind at 1. cbn [sleep fst snd] in *. rewrite <- Enext.
    replace (Z.of_nat k + 1) with (Z.of_nat (Datatypes.S k)) by lia.
    apply IH. lia.
Qed.

Lemma exhausted_statement :
  (forall k, (k <= Z.to_nat r)%nat ->
     startOrHealAndroid host opts env fuel (before k) = (Thrown (err k), after k))
  /\ (forall k, (k < Z.to_nat r)%nat ->
       exists a,
         trace (before (Datatypes.S k)) =
         (trace (after k) ++ failureLog opts context r (Z.of_nat k) (err k)
          ++ [Exec "adb start-server" a; Sleep (1500 * (Z.of_nat k + 1))])%list)
  /\ (exists a s',
       ensureAndroidReadyWithRetry host opts env fuel context s0 =
       (Thrown (err (Z.to_nat r)), s')
       /\ trace s' =
          (trace (after (Z.to_nat r))
           ++ failureLog opts context r r (err (Z.to_nat r))
           ++ [Exec "adb start-server" a])%list).
Proof.
  split; [|split].
  - intros k Hk. now apply attempt_fails.
  - intros k _. rewrite before_next. unfold bind.
    destruct (reportFailure_runs context r (Z.of_nat k) (err k) (after k))
      as (a & s' & E & Ht).
    rewrite E. exists a. cbn [sleep snd trace]. rewrite Ht.
    rewrite <- !app_assoc. reflexivity.
  - destruct (reportFailure_runs context r r (err (Z.to_nat r)) (after (Z.to_nat r)))
      as (a & s' & E & Ht).
    exists a, s'. split; [|exact Ht].
    unfold ensureAndroidReadyWithRetry. cbn zeta. fold r.
    replace (Z.to_nat (r + 1)) with (Datatypes.S (Z.to_nat r)) by lia.
    etransitivity; [apply (retryLoop_exhausts (Z.to_nat r) 0 eq_refl)|].
    now rewrite E.
Qed.

End Exhausted.

(** C1: when each of the attempts numbered [0] to [r] of
    [startOrHealAndroid] raises (attempt [k + 1] being run from the store
    [before (k + 1)] that the recovery from attempt [k] leaves), then the
    recovery from every attempt [k < r] adds to the history the failure log
    line, an [adb start-server] and a sleep of [1500 * (k + 1)] ms; after
    the failure log line and the [adb start-server] of attempt [r] the call
    raises the error of attempt [r], so the sequence ran [r + 1] times; and
    the sleeps grow strictly with the attempt number. *)
Theorem ensureReady_exhausts_retries (fuel : nat) (context : string) (r : Z) (s0 : St) :
  let before := attemptStart host opts env fuel context s0 in
  emulatorRetries env = r ->
  0 <= r ->
  (forall k, (k <= Z.to_nat r)%nat ->
     exists e s', startOrHealAndroid host opts env fuel (before k) = (Thrown e, s')) ->
  before 0%nat = s0
  /\ exists (err : nat -> string) (after : nat -> St),
      (forall k, (k <= Z.to_nat r)%nat ->
         startOrHealAndroid host opts env fuel (before k) = (Thrown (err k), after k))
      /\ (forall k, (k < Z.to_nat r)%nat ->
           exists a,
             trace (before (Datatypes.S k)) =
             (trace (after k) ++ failureLog opts context r (Z.of_nat k) (err k)
              ++ [Exec "adb start-server" a; Sleep (1500 * (Z.of_nat k + 1))])%list)
      /\ (exists a s',
           ensureAndroidReadyWithRetry host opts env fuel context s0 =
           (Thrown (err (Z.to_nat r)), s')
           /\ trace s' =
              (trace (after (Z.to_nat r))
               ++ failureLog opts context r r (err (Z.to_nat r))
               ++ [Exec "adb start-server" a])%list)
      /\ (forall j k : Z, 1 <= j < k -> backoffBase * j < backoffBase * k).
Proof.
  intros before Er Hr Hfail. subst r. split; [reflexivity|].
  destruct (exhausted_statement fuel context s0 Hr Hfail) as (H1 & H2 & H3).
  eexists _, _. split; [exact H1|]. split; [exact H2|]. split; [exact H3|].
  intros j k Hjk. unfold backoffBase. lia.
Qed.

(** *** [startIOS] *)

(** The path of [startIOS] for a simulator that is already booted: the
    UDID is tracked and the call returns without any boot command or sleep,
    but [started] is left as it was. *)
Lemma startIOS_already_booted (fuel : nat) (s s1 : St) (target : string) :
  osPlatform host = "darwin" ->
  orStr (iosOpt opts IOSOpts.udid) (IOS_UDID env) = Some target ->
  truthy target = true ->
  isBooted host target s = (Returned true, s1) ->
  exists s',
    startIOS host opts env fuel s = (Returned tt, s')
    /\ iosUdid s' = Some target
    /\ started s' = started s
    /\ emits (noBoot target) s s'.
Proof.
  intros Hos Hudid Ht Hb.
  assert (Q : quietBy (noBoot target) s s1).
  { replace s1 with (snd (isBooted host target s)) by now rewrite Hb.
    apply quiet_isBooted; reflexivity. }
  unfold startIOS. rewrite Hos, String.eqb_refl. cbn [negb]. cbn zeta.
  rewrite Hudid. cbn [truthyOpt]. rewrite Ht.
  unfold bind at 1. cbn [ret]. rewrite Ht. cbn [negb].
  unfold bind at 1. rewrite Hb.
  unfold bind. rewrite log_runs. cbn [setIosUdid modify].
  eexists. split; [reflexivity|]. cbn [iosUdid started trace].
  destruct Q as [(Ha & Hi & Hs) Hem].
  split; [reflexivity|]. split; [exact Hs|].
  transitivity s1; [exact Hem|].
  eexists. split; [reflexivity|]. now destruct (nullish (verbose opts) true).
Qed.

(** *** Single methods: what they run and how they end *)

Lemma commands_app (a b : list event) : commands (a ++ b) = (commands a ++ commands b)%list.
Proof. apply flat_map_app. Qed.

Lemma spawns_app (a b : list event) : spawns (a ++ b) = (spawns a ++ spawns b)%list.
Proof. apply flat_map_app. Qed.

Lemma sleeps_app (a b : list event) : sleeps (a ++ b) = (sleeps a ++ sleeps b)%list.
Proof. apply flat_map_app. Qed.

Lemma spawns_none (evs : list event) : forallb noSpawn evs = true -> spawns evs = [].
Proof.
  induction evs as [|e evs IH]; [reflexivity|]. cbn [forallb].
  intros H. apply andb_prop in H as [He H]. destruct e; try discriminate He; now apply IH.
Qed.

Lemma log_adds (msg : string) (s : St) :
  log opts msg s =
  (Returned tt,
   mkStore (androidSerial s) (iosUdid s) (started s) (world s)
     (trace s ++ logged opts msg)%list).
Proof. apply log_runs. Qed.

Lemma logged_quiet (ok : event -> bool) (msg : string) :
  (forall l, ok (Log l) = true) -> forallb ok (logged opts msg) = true.
Proof.
  intros H. unfold logged. destruct (nullish (verbose opts) true); [|reflexivity].
  cbn. now rewrite H.
Qed.

Lemma commands_logged (msg : string) : commands (logged opts msg) = [].
Proof. unfold logged. now destruct (nullish (verbose opts) true). Qed.

Lemma spawns_logged (msg : string) : spawns (logged opts msg) = [].
Proof. unfold logged. now destruct (nullish (verbose opts) true). Qed.

Lemma sleeps_logged (msg : string) : sleeps (logged opts msg) = [].
Proof. unfold logged. now destruct (nullish (verbose opts) true). Qed.

(** Runs the next call of a computation laid open by [unfold bind]. *)
Ltac run_step :=
  match goal with
  | |- context [log opts ?msg ?st] => rewrite (log_adds msg st)
  | |- context [run host ?c ?wd] => destruct (run host c wd) as [[?out|?e] ?w] eqn:?
  | |- context [if negb ?b then _ else _] => destruct b eqn:?
  | |- context [if ?b then _ else _] => destruct b eqn:?
  end;
  cbn [fst snd negb world trace androidSerial iosUdid started ret throw sleep emit modify].

(** Finds an event in a history written as a chain of appends. *)
Ltac in_tac :=
  match goal with
  | |- In _ (_ ++ _) => apply in_or_app; ((left; in_tac) || (right; in_tac))
  | |- In _ (_ :: _) => left; reflexivity
  end.

Ltac passed_tac :=
  eexists; split; [| cbv beta; unfold parseListing; eassumption]; in_tac.

Lemma isAndroidHealthy_cases (serial : string) (s : St) :
  exists b s' evs,
    isAndroidHealthy host opts env serial s = (Returned b, s')
    /\ sameFields s s'
    /\ trace s' = (trace s ++ evs)%list
    /\ spawns evs = []
    /\ Forall (fun ms => ms = healthInterval env) (sleeps evs)
    /\ (b = true -> In (Healthy serial) evs)
    /\ (b = true ->
        passed "adb devices" (fun out => existsb (String.eqb serial) (parseListing out)) evs
        /\ passed (adbCommand serial ["get-state"])
             (fun out => (trim out =? "device")%string) evs
        /\ passed (adbCommand serial ["shell"; "getprop"; "ro.build.version.release"])
             (fun out => truthy (trim out)) evs
        /\ passed (adbCommand serial ["shell"; "pm"; "path"; "android"])
             (includes "package:") evs
        /\ passed (adbCommand serial ["shell"; "getprop"; "sys.boot_completed"])
             (fun out => (trim out =? "1")%string) evs).
Proof.
  unfold isAndroidHealthy, adbDevices, execAdb, orOnError, tryCatch, bind, exec.
  repeat run_step.
  all: try discriminate.
  all: eexists _, _, _; split; [reflexivity|]; split; [now repeat split|];
    cbn [trace]; split; [rewrite <- ?app_assoc; reflexivity|];
    rewrite ?spawns_app, ?sleeps_app, ?spawns_logged, ?sleeps_logged;
    split; [reflexivity|]; split; [cbn; auto|];
    split; (intros Hb; try discriminate Hb).
  all: try in_tac.
  all: repeat split; passed_tac.
Qed.

Lemma stopAndroid_cases (s : St) :
  exists s' evs,
    stopAndroid host opts s = (Returned tt, s')
    /\ sameFields s s'
    /\ trace s' = (trace s ++ evs)%list
    /\ spawns evs = []
    /\ match androidSerial s with
       | Some serial =>
           if truthy serial then
             match fst (run host (adbCommand serial ["emu"; "kill"]) (world s)) with
             | Resolves _ => commands evs = [adbCommand serial ["emu"; "kill"]]
             | Rejects _ =>
                 commands evs = [adbCommand serial ["emu"; "kill"]; "adb kill-server"]
             end
           else commands evs = []
       | None => commands evs = []
       end.
Proof.
  unfold stopAndroid, execAdb, orOnError, tryCatch, bind, exec, get.
  destruct (androidSerial s) as [serial|] eqn:Es; [destruct (truthy serial) eqn:Et|].
  2, 3: rewrite log_adds; eexists _, _; split; [reflexivity|]; split; [now repeat split|];
    cbn [trace]; split; [reflexivity|]; now rewrite commands_logged, spawns_logged.
  unfold adbCommand.
  repeat run_step.
  all: eexists _, _; split; [reflexivity|]; split; [now repeat split|];
    cbn [trace]; split; [rewrite <- ?app_assoc; reflexivity|];
    rewrite ?commands_app, ?spawns_app, ?commands_logged, ?spawns_logged; split; reflexivity.
Qed.

Lemma stopIOS_cases (s : St) :
  exists s' evs,
    stopIOS host opts s = (Returned tt, s')
    /\ sameFields s s'
    /\ trace s' = (trace s ++ evs)%list
    /\ spawns evs = []
    /\ match iosUdid s with
       | Some udid =>
           if truthy udid then commands evs = ["xcrun simctl shutdown " ++ udid]
           else commands evs = []
       | None => commands evs = []
       end.
Proof.
  unfold stopIOS, orOnError, tryCatch, bind, exec, get.
  destruct (iosUdid s) as [udid|] eqn:Es; [destruct (truthy udid) eqn:Et|].
  2, 3: rewrite log_adds; eexists _, _; split; [reflexivity|]; split; [now repeat split|];
    cbn [trace]; split; [reflexivity|]; now rewrite commands_logged, spawns_logged.
  repeat run_step.
  all: eexists _, _; split; [reflexivity|]; split; [now repeat split|];
    cbn [trace]; split; [rewrite <- ?app_assoc; reflexivity|];
    rewrite ?commands_app, ?spawns_app, ?commands_logged, ?spawns_logged; split; reflexivity.
Qed.

Lemma healthyLoop_cases (budget : nat) (retries i : Z) (serial : string) (s : St) :
  retries - i + 1 <= Z.of_nat budget ->
  exists b s' evs,
    healthyLoop host opts env budget retries i serial s = (Returned b, s')
    /\ sameFields s s'
    /\ trace s' = (trace s ++ evs)%list
    /\ spawns evs = []
    /\ Forall (fun ms => ms = healthInterval env) (sleeps evs)
    /\ (b = true -> In (Healthy serial) evs)
    /\ (b = false -> retries - i + 1 <= Z.of_nat (List.length (sleeps evs)))
    /\ (retries < i -> b = false /\ evs = []).
Proof.
  revert i s. induction budget as [|n IH]; intros i s Hb; cbn [healthyLoop];
    destruct (Z.leb_spec i retries) as [Hi|Hi]; try lia.
  1, 3: exists false, s, []; rewrite app_nil_r; repeat split; auto; cbn; lia.
  unfold bind at 1.
  destruct (isAndroidHealthy_cases serial s) as (b & s1 & e1 & E1 & F1 & T1 & P1 & Z1 & H1 & _).
  rewrite E1. destruct b.
  - exists true, s1, e1. repeat split; try apply F1; auto; try discriminate; lia.
  - unfold bind at 1. cbn [sleep].
    match goal with
    | |- context [healthyLoop host opts env n retries (i + 1) serial ?x] =>
        destruct (IH (i + 1) x ltac:(lia)) as (b & s2 & e2 & E2 & F2 & T2 & P2 & Z2 & H2 & L2 & _)
    end.
    rewrite E2. exists b, s2, (e1 ++ Sleep (healthInterval env) :: e2)%list.
    split; [reflexivity|].
    split; [transitivity s1; [exact F1|]; destruct F2 as (A & B & C); now repeat split|].
    split; [rewrite T2; cbn [trace]; rewrite T1, <- !app_assoc; reflexivity|].
    split; [rewrite spawns_app; cbn [spawns flat_map]; fold (spawns e2); now rewrite P1, P2|].
    split; [rewrite sleeps_app; apply Forall_app; split; [exact Z1|];
            cbn [sleeps flat_map]; fold (sleeps e2); constructor; [reflexivity | exact Z2]|].
    split; [intros Hb'; apply in_or_app; right; right; now apply H2|].
    split; [|lia].
    intros Hb'. specialize (L2 Hb'). rewrite sleeps_app, List.length_app.
    cbn [sleeps flat_map]. fold (sleeps e2). cbn [app List.length]. lia.
Qed.

Lemma onComplete_cases (s : St) :
  exists s' evs,
    onComplete host opts s = (Returned tt, s')
    /\ sameFields s s'
    /\ trace s' = (trace s ++ evs)%list
    /\ spawns evs = []
    /\ (started s = false -> s' = s)
    /\ (platform opts = ios -> iosOpt opts IOSOpts.killOnComplete = None -> s' = s)
    /\ (platform opts = android -> androidOpt opts AndroidOpts.killOnComplete = None ->
        started s = true -> onComplete host opts s = stopAndroid host opts s).
Proof.
  assert (Hsame : exists s' evs,
             @ret St unit tt s = (Returned tt, s') /\ sameFields s s'
             /\ trace s' = (trace s ++ evs)%list /\ spawns evs = [] /\ s' = s).
  { exists s, []. rewrite app_nil_r. now repeat split. }
  unfold onComplete, bind, get. destruct (started s) eqn:Est; cbn [negb].
  2: { destruct Hsame as (s' & evs & E & F & T & P & ->).
       exists s, evs. repeat split; try apply F; auto; discriminate. }
  destruct (platform opts) eqn:Ep.
  - destruct (nullish (androidOpt opts AndroidOpts.killOnComplete) true) eqn:Ek; cbn [when].
    + destruct (stopAndroid_cases s) as (s' & evs & E & F & T & P & _).
      exists s', evs. repeat split; try apply F; auto; discriminate.
    + destruct Hsame as (s' & evs & E & F & T & P & ->).
      exists s, evs. repeat split; try apply F; auto; try discriminate.
      intros _ Hk. rewrite Hk in Ek. discriminate.
  - destruct (nullish (iosOpt opts IOSOpts.killOnComplete) false) eqn:Ek; cbn [when].
    + destruct (stopIOS_cases s) as (s' & evs & E & F & T & P & _).
      exists s', evs. repeat split; try apply F; auto; try discriminate.
      intros _ Hk. rewrite Hk in Ek. discriminate.
    + destruct Hsame as (s' & evs & E & F & T & P & ->).
      exists s, evs. repeat split; try apply F; auto; discriminate.
Qed.

(** *** Rules for [hoare] *)

Section Hoare.

Variable total : bool.

Lemma hoare_weaken {A} (P P' : St -> Prop) (Q Q' : A -> St -> Prop) (m : S A) :
  hoare total P m Q ->
  (forall s, P' s -> P s) -> (forall a s, Q a s -> Q' a s) ->
  hoare total P' m Q'.
Proof.
  intros H HP HQ s Hs. destruct (H s (HP s Hs)) as [H1 H2].
  split; [exact H1 | intros a E; apply HQ; now apply H2].
Qed.

Lemma hoare_ret {A} (P : St -> Prop) (a : A) :
  hoare total P (ret a) (fun a' s => a' = a /\ P s).
Proof.
  intros s Hs. split; [discriminate|]. intros a' E. injection E as <-. now split.
Qed.

Lemma hoare_throw {A} (P : St -> Prop) (Q : A -> St -> Prop) (e : string) :
  hoare total P (throw e) Q.
Proof. intros s Hs. split; [discriminate | intros a E; discriminate E]. Qed.

Lemma hoare_bind {A B} (P : St -> Prop) (Qm : A -> St -> Prop) (Q : B -> St -> Prop)
    (m : S A) (k : A -> S B) :
  hoare total P m Qm -> (forall a, hoare total (Qm a) (k a) Q) ->
  hoare total P (bind m k) Q.
Proof.
  intros Hm Hk s Hs. unfold bind. destruct (Hm s Hs) as [H1 H2].
  destruct (m s) as [[a|e|] s1]; cbn [fst snd] in *.
  - apply Hk. now apply H2.
  - split; [discriminate | intros a E; discriminate E].
  - split; [intros Ht; now destruct (H1 Ht) | intros a E; discriminate E].
Qed.

Lemma hoare_tryCatch {A} (P : St -> Prop) (Q : A -> St -> Prop)
    (m : S A) (h : string -> S A) :
  hoare total P m Q -> (forall e, hoare total (fun _ => True) (h e) Q) ->
  hoare total P (tryCatch m h) Q.
Proof.
  intros Hm Hh s Hs. unfold tryCatch. destruct (Hm s Hs) as [H1 H2].
  destruct (m s) as [[a|e|] s1]; cbn [fst snd] in *.
  - split; [discriminate | exact H2].
  - now apply Hh.
  - split; [exact H1 | intros a E; discriminate E].
Qed.

(** A fact that does not depend on the store. *)
Lemma hoare_pure {A} (fact : Prop) (P : St -> Prop) (Q : A -> St -> Prop) (m : S A) :
  (fact -> hoare total P m Q) -> hoare total (fun s => fact /\ P s) m Q.
Proof. intros H s [Hf Hs]. now apply H. Qed.

Lemma hoare_false {A} (P : St -> Prop) (Q : A -> St -> Prop) (m : S A) :
  (forall s, ~ P s) -> hoare total P m Q.
Proof. intros H s Hs. now destruct (H s). Qed.

(** A run that ends keeps what the relation [R], kept by the run, keeps. *)
Lemma hoare_kept {A} (R : St -> St -> Prop) (P : St -> Prop) (m : S A) :
  ends m -> keeps R m -> (forall s s', R s s' -> P s -> P s') ->
  hoare total P m (fun _ => P).
Proof.
  intros He Hk HP s Hs. split.
  - intros _. now apply (He s).
  - intros a _. apply (HP s); [apply Hk | exact Hs].
Qed.

Lemma hoare_frame {A} (R : St -> St -> Prop) (P F : St -> Prop) (Q : A -> St -> Prop)
    (m : S A) :
  hoare total P m Q -> keeps R m -> (forall s s', R s s' -> F s -> F s') ->
  hoare total (fun s => P s /\ F s) m (fun a s => Q a s /\ F s).
Proof.
  intros Hm Hk HF s [Hp Hf]. destruct (Hm s Hp) as [H1 H2].
  split; [exact H1|]. intros a E. split; [now apply H2 | apply (HF s); [apply Hk | exact Hf]].
Qed.

End Hoare.

(** A [return] whose value does not matter. *)
Ltac ret_any :=
  eapply hoare_weaken;
    [ apply hoare_ret | let H := fresh in intros ? H; exact H | cbv beta; auto ].

Lemma hoare_exhausted {A} (P : St -> Prop) (Q : A -> St -> Prop) :
  hoare false P exhausted Q.
Proof. intros s Hs. split; [discriminate | intros a E; discriminate E]. Qed.

(** Without [total], what the run keeps is enough. *)
Lemma hoare_kept_partial {A} (R : St -> St -> Prop) (P : St -> Prop) (m : S A) :
  keeps R m -> (forall s s', R s s' -> P s -> P s') ->
  hoare false P m (fun _ => P).
Proof.
  intros Hk HP s Hs. split; [discriminate|].
  intros a _. apply (HP s); [apply Hk | exact Hs].
Qed.

(** *** Runs that are never cut short *)

Lemma ends_ret {A} (a : A) : ends (@ret St A a).
Proof. intros s _. split; [discriminate | auto]. Qed.

Lemma ends_throw {A} (e : string) : ends (@throw St A e).
Proof. apply hoare_throw. Qed.

Lemma ends_get : ends (@get St).
Proof. intros s _. split; [discriminate | auto]. Qed.

Lemma ends_modify (f : St -> St) : ends (modify f).
Proof. intros s _. split; [discriminate | auto]. Qed.

Lemma ends_bind {A B} (m : M St A) (k : A -> M St B) :
  ends m -> (forall a, ends (k a)) -> ends (bind m k).
Proof. intros Hm Hk. apply (hoare_bind true _ (fun _ _ => True)); [exact Hm | exact Hk]. Qed.

Lemma ends_tryCatch {A} (m : M St A) (h : string -> M St A) :
  ends m -> (forall e, ends (h e)) -> ends (tryCatch m h).
Proof. intros Hm Hh. apply hoare_tryCatch; [exact Hm | exact Hh]. Qed.

Lemma ends_orOnError {A} (m : M St A) (v : A) : ends m -> ends (orOnError m v).
Proof. intros H. apply ends_tryCatch; [exact H | intros; apply ends_ret]. Qed.

Lemma ends_when (b : bool) (m : M St unit) : ends m -> ends (when b m).
Proof. intros H. destruct b; [exact H | apply ends_ret]. Qed.

Lemma ends_sleep (ms : Z) : ends (sleep host ms).
Proof. intros s _. split; [discriminate | auto]. Qed.

Lemma ends_spawn (cmd : string) (args : list string) : ends (spawn host cmd args).
Proof. intros s _. split; [discriminate | auto]. Qed.

Lemma ends_now : ends (now host).
Proof.
  intros s _. unfold now. destruct (clock host (world s)). split; [discriminate | auto].
Qed.

Lemma ends_exec (cmd : string) : ends (exec host cmd).
Proof.
  intros s _. unfold exec. destruct (run host cmd (world s)) as [[out|e] w];
    (split; [discriminate | auto]).
Qed.

Lemma ends_emit (e : event) : ends (@emit W e).
Proof. apply ends_modify. Qed.

Lemma ends_log (msg : string) : ends (@log W opts msg).
Proof. unfold log. apply ends_when, ends_emit. Qed.

Lemma ends_returns {A} (m : M St A) : (forall s, exists a s', m s = (Returned a, s')) -> ends m.
Proof.
  intros H s _. destruct (H s) as (a & s' & E). rewrite E. split; [discriminate | auto].
Qed.

Ltac ends_steps :=
  repeat first
    [ apply ends_ret
    | apply ends_throw
    | apply ends_get
    | apply ends_sleep
    | apply ends_spawn
    | apply ends_now
    | apply ends_exec
    | apply ends_emit
    | apply ends_log
    | apply ends_modify
    | apply ends_bind; [| intros ?]
    | apply ends_tryCatch; [| intros ?]
    | apply ends_orOnError
    | apply ends_when
    | match goal with
      | |- ends (if ?b then _ else _) => destruct b
      | |- ends (match ?x with _ => _ end) => destruct x
      end ].

Lemma ends_tryAdbRestart : ends (tryAdbRestart host).
Proof. unfold tryAdbRestart. ends_steps. Qed.

Lemma ends_adbDevices : ends (adbDevices host).
Proof. unfold adbDevices. ends_steps. Qed.

Lemma ends_execAdb (serial : string) (args : list string) : ends (execAdb host opts serial args).
Proof. unfold execAdb. ends_steps. Qed.

Lemma ends_isAndroidHealthy (serial : string) : ends (isAndroidHealthy host opts env serial).
Proof.
  apply ends_returns. intros s.
  destruct (isAndroidHealthy_cases serial s) as (b & s' & evs & E & _). now exists b, s'.
Qed.

Lemma ends_waitForAndroidHealthy (serial : string) :
  ends (waitForAndroidHealthy host opts env serial).
Proof.
  apply ends_returns. intros s. unfold waitForAndroidHealthy.
  destruct (healthyLoop_cases (Z.to_nat (nullish (ANDROID_HEALTHCHECK_RETRIES env) 3 + 1))
              (nullish (ANDROID_HEALTHCHECK_RETRIES env) 3) 0 serial s ltac:(lia))
    as (b & s' & evs & E & _).
  now exists b, s'.
Qed.

Lemma ends_stopAndroid : ends (stopAndroid host opts).
Proof.
  apply ends_returns. intros s.
  destruct (stopAndroid_cases s) as (s' & evs & E & _). now exists tt, s'.
Qed.

Lemma ends_onComplete : ends (onComplete host opts).
Proof.
  apply ends_returns. intros s.
  destruct (onComplete_cases s) as (s' & evs & E & _). now exists tt, s'.
Qed.

Lemma ends_isBooted (udid : string) : ends (isBooted host udid).
Proof. unfold isBooted. ends_steps. Qed.

Lemma ends_findUdidByName (name : string) : ends (findUdidByName host name).
Proof. unfold findUdidByName. ends_steps. Qed.

(** *** Time on a well-timed host *)

Section Timed.

Variable time : W -> Z.
Hypothesis timed : WellTimed host time.

#[local] Instance laterThan_preorder : PreOrder (@laterThan W time).
Proof.
  split.
  - intros s. unfold laterThan. lia.
  - intros a b c. unfold laterThan. lia.
Qed.

Lemma later_modify (f : St -> St) :
  (forall s, world (f s) = world s) -> keeps (laterThan time) (modify f).
Proof. intros H s. unfold laterThan. cbn. rewrite H. lia. Qed.

Lemma later_sleep (ms : Z) : keeps (laterThan time) (sleep host ms).
Proof.
  intros s. unfold laterThan. cbn. pose proof (pause_forward host time timed ms (world s)). lia.
Qed.

Lemma later_spawn (cmd : string) (args : list string) :
  keeps (laterThan time) (spawn host cmd args).
Proof. intros s. unfold laterThan. cbn. apply (detach_forward host time timed). Qed.

Lemma later_now : keeps (laterThan time) (now host).
Proof.
  intros s. unfold laterThan, now.
  pose proof (clock_reads host time timed (world s)) as H.
  destruct (clock host (world s)) as [t w]. cbn in *. lia.
Qed.

Lemma later_exec (cmd : string) : keeps (laterThan time) (exec host cmd).
Proof.
  intros s. unfold laterThan, exec.
  pose proof (run_forward host time timed cmd (world s)) as H.
  destruct (run host cmd (world s)) as [[out|e] w]; cbn in *; lia.
Qed.

Lemma later_emit (e : event) : keeps (laterThan time) (@emit W e).
Proof. now apply later_modify. Qed.

Lemma later_log (msg : string) : keeps (laterThan time) (@log W opts msg).
Proof. unfold log. apply keeps_when; [typeclasses eauto | apply later_emit]. Qed.

Ltac later_calls :=
  keeps_steps;
  try solve [ apply later_sleep | apply later_log | apply later_now | apply later_emit
            | apply later_exec | apply later_spawn | now apply later_modify ].

Lemma later_adbDevices : keeps (laterThan time) (adbDevices host).
Proof. unfold adbDevices. later_calls. Qed.

Lemma later_execAdb (serial : string) (args : list string) :
  keeps (laterThan time) (execAdb host opts serial args).
Proof. unfold execAdb. later_calls. Qed.

Lemma later_isBooted (udid : string) : keeps (laterThan time) (isBooted host udid).
Proof. unfold isBooted. later_calls. Qed.

Lemma later_awaitSerial (fuel : nat) (deadline : Z) :
  keeps (laterThan time) (awaitSerial host fuel deadline).
Proof.
  induction fuel as [|f IH]; cbn [awaitSerial]; later_calls;
    solve [apply later_adbDevices | apply IH].
Qed.

Lemma notBefore_later (t : Z) (s s' : St) :
  laterThan time s s' -> notBefore time t s -> notBefore time t s'.
Proof. unfold laterThan, notBefore. lia. Qed.

(** A call that ends hands a lower bound of the time on. *)
Lemma hoare_later {A} (total : bool) (t : Z) (m : S A) :
  ends m -> keeps (laterThan time) m ->
  hoare total (notBefore time t) m (fun _ => notBefore time t).
Proof.
  intros He Hk.
  apply (hoare_kept total (laterThan time));
    [exact He | exact Hk | intros s s'; apply notBefore_later].
Qed.

Lemma hoare_now (total : bool) (P : St -> Prop) :
  hoare total P (now host) (fun t s => notBefore time t s).
Proof.
  intros s _. unfold now, notBefore.
  pose proof (clock_reads host time timed (world s)) as H.
  destruct (clock host (world s)) as [t w]. cbn in *.
  split; [discriminate|]. intros a E. injection E as <-. lia.
Qed.

(** The clock reads no less than a lower bound of the time. *)
Lemma hoare_now_after (total : bool) (c : Z) :
  hoare total (notBefore time c) (now host) (fun t s => c <= t /\ notBefore time c s).
Proof.
  intros s Hs. unfold now, notBefore in *.
  pose proof (clock_reads host time timed (world s)) as H.
  destruct (clock host (world s)) as [t w]. cbn in *.
  split; [discriminate|]. intros a E. injection E as <-. lia.
Qed.

Lemma hoare_sleep (total : bool) (c ms : Z) :
  0 <= ms ->
  hoare total (notBefore time c) (sleep host ms) (fun _ => notBefore time (c + ms)).
Proof.
  intros Hms s Hs. unfold notBefore in *. cbn.
  pose proof (pause_forward host time timed ms (world s)).
  split; [discriminate|]. intros _ _. lia.
Qed.

Lemma awaitSerial_ends (fuel : nat) (deadline : Z) :
  hoare true (notBefore time (deadline - 1500 * Z.of_nat fuel))
    (awaitSerial host fuel deadline) (fun _ _ => True).
Proof.
  revert deadline. induction fuel as [|f IH]; intros deadline; cbn [awaitSerial];
    (eapply hoare_bind; [apply hoare_now_after | intros t; cbv beta]);
    destruct (Z.ltb_spec t deadline) as [Ht|Ht];
    try solve [ret_any].
  - apply hoare_false. intros s [H _]. lia.
  - apply (hoare_weaken true (notBefore time (deadline - 1500 * Z.of_nat (Datatypes.S f))) _
             (fun _ _ => True) _); [| tauto | auto].
    eapply hoare_bind; [apply hoare_later; [apply ends_adbDevices | apply later_adbDevices]|].
    intros ds. destruct (findEmulator ds).
    + ret_any.
    + eapply hoare_bind; [apply hoare_sleep; lia | intros ?; cbv beta].
      eapply hoare_weaken; [apply IH | | auto].
      intros s. unfold notBefore. lia.
Qed.

Lemma later_settled (serial : string) (args : list string) :
  keeps (laterThan time) (settled (execAdb host opts serial args)).
Proof. unfold settled. later_calls. Qed.

Lemma ends_settled (serial : string) (args : list string) :
  ends (settled (execAdb host opts serial args)).
Proof. unfold settled. ends_steps. Qed.

(** A call that ends, made between two readings of the clock. *)
Ltac later_then :=
  eapply hoare_bind;
    [ apply hoare_later;
      [ first [ apply ends_adbDevices | apply ends_settled | apply ends_execAdb
              | apply ends_isBooted | ends_steps ]
      | first [ apply later_adbDevices | apply later_settled | apply later_execAdb
              | apply later_isBooted | later_calls ] ]
    | intros ?; cbv beta ].

Lemma bootLoop_ends (fuel : nat) (deadline : Z) (serial : string) :
  hoare true (notBefore time (deadline - 1500 * Z.of_nat fuel))
    (bootLoop host opts fuel deadline serial) (fun _ _ => True).
Proof.
  revert deadline. induction fuel as [|f IH]; intros deadline; cbn [bootLoop];
    (eapply hoare_bind; [apply hoare_now_after | intros t; cbv beta]);
    destruct (Z.ltb_spec t deadline) as [Ht|Ht];
    try solve [ret_any].
  - apply hoare_false. intros s [H _]. lia.
  - apply (hoare_weaken true (notBefore time (deadline - 1500 * Z.of_nat (Datatypes.S f))) _
             (fun _ _ => True) _); [| tauto | auto].
    do 4 later_then.
    match goal with |- hoare _ _ (if ?b then _ else _) _ => destruct b end.
    + ret_any.
    + eapply hoare_bind; [apply hoare_sleep; lia | intros ?; cbv beta].
      eapply hoare_weaken; [apply IH | | auto].
      intros s. unfold notBefore. lia.
Qed.

Lemma awaitBooted_ends (fuel : nat) (deadline : Z) (udid : string) :
  hoare true (notBefore time (deadline - 1000 * Z.of_nat fuel))
    (awaitBooted host fuel deadline udid) (fun _ _ => True).
Proof.
  revert deadline. induction fuel as [|f IH]; intros deadline; cbn [awaitBooted];
    (eapply hoare_bind; [apply hoare_now_after | intros t; cbv beta]);
    destruct (Z.ltb_spec t deadline) as [Ht|Ht];
    try solve [ret_any].
  - apply hoare_false. intros s [H _]. lia.
  - apply (hoare_weaken true (notBefore time (deadline - 1000 * Z.of_nat (Datatypes.S f))) _
             (fun _ _ => True) _); [| tauto | auto].
    later_then. destruct a.
    + ret_any.
    + eapply hoare_bind; [apply hoare_sleep; lia | intros ?; cbv beta].
      eapply hoare_weaken; [apply IH | | auto].
      intros s. unfold notBefore. lia.
Qed.

Lemma waitForBootComplete_ends (fuel : nat) (serial : string) (timeoutMs : Z) :
  Z.max timeoutMs 60000 <= 1500 * Z.of_nat fuel ->
  ends (waitForBootComplete host opts fuel serial timeoutMs).
Proof.
  intros Hf. unfold waitForBootComplete.
  eapply hoare_bind; [apply hoare_now | intros t; cbv beta].
  eapply hoare_bind.
  { eapply hoare_weaken; [apply bootLoop_ends | | intros a s H; exact H].
    intros s. unfold notBefore. lia. }
  intros done. cbv beta. destruct done; [apply ends_ret|].
  ends_steps.
Qed.

Lemma startAndroid_ends (fuel : nat) (cold : bool) :
  Z.max (androidBootTimeout opts) 60000 <= 1500 * Z.of_nat fuel ->
  ends (startAndroid host opts env fuel cold).
Proof.
  intros Hf. unfold startAndroid. cbn zeta. fold (androidBootTimeout opts).
  apply ends_bind; [apply ends_tryAdbRestart | intros _].
  apply ends_bind; [apply ends_log | intros _].
  apply ends_bind; [apply ends_spawn | intros _].
  eapply hoare_bind; [apply hoare_now | intros t0; cbv beta].
  apply (hoare_bind true _ (fun _ => notBefore time t0)).
  { eapply hoare_weaken.
    - apply (hoare_frame true (laterThan time)
               (notBefore time (t0 + androidBootTimeout opts - 1500 * Z.of_nat fuel))
               (notBefore time t0));
        [apply awaitSerial_ends | apply later_awaitSerial | intros s s'; apply notBefore_later].
    - intros s H. split; [|exact H]. unfold notBefore in *. lia.
    - intros a s [_ H]. exact H. }
  intros [serial|]; [|apply hoare_throw].
  do 3 later_then.
  eapply hoare_bind; [apply hoare_now_after | intros t1; cbv beta].
  apply (hoare_weaken true (fun s => t0 <= t1 /\ True) _ (fun _ _ => True) _);
    [| tauto | auto].
  apply hoare_pure. intros Ht.
  apply ends_bind; [apply waitForBootComplete_ends; lia | intros _].
  apply ends_bind; [apply ends_waitForAndroidHealthy | intros ok].
  destruct ok; cbn [negb]; [|apply ends_throw].
  ends_steps.
Qed.

Lemma startOrHealAndroid_ends (fuel : nat) :
  Z.max (androidBootTimeout opts) 60000 <= 1500 * Z.of_nat fuel ->
  ends (startOrHealAndroid host opts env fuel).
Proof.
  intros Hf. unfold startOrHealAndroid.
  destruct (negb (truthyOpt (configuredAvdName opts env))); [apply ends_log|].
  apply ends_bind; [apply ends_adbDevices | intros devices].
  destruct (findEmulator devices) as [running|]; [|now apply startAndroid_ends].
  apply ends_bind; [apply ends_log | intros _].
  apply ends_bind; [apply ends_modify | intros _].
  apply ends_bind; [apply ends_isAndroidHealthy | intros ok].
  destruct ok; [ends_steps|].
  apply ends_bind; [apply ends_log | intros _].
  apply ends_bind; [apply ends_orOnError, ends_stopAndroid | intros _].
  now apply startAndroid_ends.
Qed.

Lemma retryLoop_ends (budget fuel : nat) (context : string) (retries attempt : Z) :
  Z.max (androidBootTimeout opts) 60000 <= 1500 * Z.of_nat fuel ->
  retries - attempt + 1 <= Z.of_nat budget ->
  ends (retryLoop host opts env budget fuel context retries attempt).
Proof.
  intros Hf. revert attempt. induction budget as [|b IH]; intros attempt Hb; cbn [retryLoop];
    destruct (Z.leb_spec attempt retries) as [Ha|Ha]; try lia; try apply ends_ret.
  apply ends_tryCatch; [now apply startOrHealAndroid_ends | intros e].
  unfold reportFailure.
  apply ends_bind;
    [apply ends_bind; [apply ends_log | intros _; apply ends_tryAdbRestart] | intros _].
  destruct (Z.ltb_spec attempt retries); [|apply ends_throw].
  apply ends_bind; [apply ends_sleep | intros _]. apply IH. lia.
Qed.

Lemma ensureAndroidReadyWithRetry_ends (fuel : nat) (context : string) :
  Z.max (androidBootTimeout opts) 60000 <= 1500 * Z.of_nat fuel ->
  ends (ensureAndroidReadyWithRetry host opts env fuel context).
Proof. intros Hf. apply retryLoop_ends; [exact Hf | lia]. Qed.

Lemma startIOS_ends (fuel : nat) :
  iosBootTimeout opts <= 1000 * Z.of_nat fuel ->
  ends (startIOS host opts env fuel).
Proof.
  intros Hf. unfold startIOS. cbn zeta. fold (iosBootTimeout opts).
  destruct (negb (osPlatform host =? "darwin")%string); [apply ends_log|].
  apply ends_bind.
  { destruct (truthyOpt _); [apply ends_ret | apply ends_findUdidByName]. }
  intros [target|]; [|apply ends_log].
  destruct (negb (truthy target)); [apply ends_log|].
  apply ends_bind; [apply ends_isBooted | intros booted].
  destruct booted; [ends_steps|].
  apply ends_bind; [apply ends_log | intros _].
  apply ends_bind; [apply ends_exec | intros _].
  apply ends_bind; [ends_steps | intros _].
  eapply hoare_bind; [apply hoare_now | intros t0; cbv beta].
  eapply hoare_bind.
  { eapply hoare_weaken; [apply awaitBooted_ends | | intros a s H; exact H].
    intros s. unfold notBefore. lia. }
  intros ?. cbv beta.
  apply ends_bind; [apply ends_isBooted | intros ok].
  destruct ok; cbn [negb]; ends_steps.
Qed.

Lemma hooks_end (fuel : nat) (s : St) :
  Z.max (androidBootTimeout opts) 60000 <= 1500 * Z.of_nat fuel ->
  iosBootTimeout opts <= 1000 * Z.of_nat fuel ->
  fst (onPrepare host opts env fuel s) <> OutOfFuel
  /\ fst (beforeSession host opts env fuel s) <> OutOfFuel
  /\ fst (onComplete host opts s) <> OutOfFuel.
Proof.
  intros Ha Hi. unfold onPrepare, beforeSession.
  split; [|split].
  - destruct (platform opts);
      [now apply (ensureAndroidReadyWithRetry_ends fuel "onPrepare" Ha s)
      | now apply (startIOS_ends fuel Hi s)].
  - destruct (platform opts);
      [now apply (ensureAndroidReadyWithRetry_ends fuel "beforeSession" Ha s)
      | discriminate].
  - now apply (ends_onComplete s).
Qed.

Lemma later_tryAdbRestart : keeps (laterThan time) (tryAdbRestart host).
Proof. unfold tryAdbRestart. later_calls. Qed.

Section NeverListed.

Hypothesis never_listed :
  forall w, exists out w',
    run host "adb devices" w = (Resolves out, w')
    /\ findEmulator (parseListing out) = None.

Lemma awaitSerial_gives_up (fuel : nat) (deadline : Z) (s : St) :
  notBefore time (deadline - 1500 * Z.of_nat fuel) s ->
  exists s',
    awaitSerial host fuel deadline s = (Returned None, s')
    /\ notBefore time deadline s'.
Proof.
  revert s. induction fuel as [|f IH]; intros s Hs; cbn [awaitSerial];
    unfold notBefore in *; unfold bind at 1; unfold now;
    pose proof (clock_reads host time timed (world s)) as Hc;
    destruct (clock host (world s)) as [t w]; cbn [fst snd] in Hc;
    destruct (Z.ltb_spec t deadline) as [Ht|Ht]; try lia;
    try (eexists; split; [reflexivity | cbn; lia]).
  unfold bind at 1, adbDevices, bind at 1, exec. cbn [world].
  destruct (never_listed w) as (out & w' & E & Hn).
  pose proof (run_forward host time timed "adb devices" w) as Hr.
  rewrite E in *. cbn [ret fst snd] in *. fold (parseListing out). rewrite Hn.
  unfold bind at 1. cbn [sleep].
  apply IH. unfold notBefore. cbn [world].
  pose proof (pause_forward host time timed 1500 w'). lia.
Qed.

Lemma startAndroid_gives_up (fuel : nat) (cold : bool) (s : St) :
  androidBootTimeout opts <= 1500 * Z.of_nat fuel ->
  exists s',
    startAndroid host opts env fuel cold s = (Thrown (notListedMessage opts), s')
    /\ sameFields s s'
    /\ time (world s) + androidBootTimeout opts <= time (world s').
Proof.
  intros Hf. unfold startAndroid. cbn zeta. fold (androidBootTimeout opts).
  pose proof (quiet_tryAdbRestart s) as Q1. pose proof (later_tryAdbRestart s) as L1.
  unfold bind at 1.
  destruct (tryAdbRestart_runs s) as (a & s1 & E1 & _). rewrite E1 in *. cbn [snd] in *.
  unfold bind at 1. rewrite log_adds. unfold bind at 1. cbn [spawn]. unfold bind at 1.
  unfold now at 1. cbn [world].
  pose proof (detach_forward host time timed (emulatorCmd host)
                (emulatorArgs opts env cold) (world s1)) as Hd.
  unfold emulatorArgs in Hd. cbn zeta in Hd.
  match goal with
  | |- context [clock host ?w0] =>
      pose proof (clock_reads host time timed w0) as Hc;
      destruct (clock host w0) as [t0 w1]
  end.
  cbn [fst snd] in Hc. unfold bind at 1.
  match goal with
  | |- context [awaitSerial host fuel ?d ?x] =>
      pose proof (quiet_awaitSerial fuel d x) as Q2;
      destruct (awaitSerial_gives_up fuel d x) as (s' & E & Hs');
        [unfold notBefore; cbn [world]; lia|]
  end.
  rewrite E in *. cbn [snd] in *.
  exists s'. split; [reflexivity|]. split.
  - destruct Q1 as [(A1 & B1 & C1) _], Q2 as [(A2 & B2 & C2) _]. cbn in A2, B2, C2.
    repeat split; congruence.
  - unfold notBefore, laterThan in *. lia.
Qed.

End NeverListed.

End Timed.

(** *** Runs that spawn nothing *)

Lemma keeps_weaken {A} (R R' : St -> St -> Prop) (m : M St A) :
  keeps R m -> (forall s s', R s s' -> R' s s') -> keeps R' m.
Proof. intros H HR s. apply HR, H. Qed.

Section Calm.

Variable ok : event -> bool.
Hypothesis ok_log : forall l, ok (Log l) = true.
Hypothesis ok_sleep : forall ms, ok (Sleep ms) = true.
Hypothesis ok_healthy : forall id, ok (Healthy id) = true.
Hypothesis ok_started : forall id, ok (Started id) = true.
Hypothesis ok_exec : forall cmd r, ok (Exec cmd r) = true.

Lemma calm_quiet {A} (m : M St A) : keeps (quietBy ok) m -> keeps (emits ok) m.
Proof. intros H. apply (keeps_weaken _ _ _ H). now intros s s' [_ E]. Qed.

Lemma calm_setAndroidSerial (v : string) : keeps (emits ok) (@setAndroidSerial W v).
Proof. intros s. exists []. cbn. now rewrite app_nil_r. Qed.

Lemma calm_setStarted : keeps (emits ok) (@setStarted W opts).
Proof. intros s. eexists [_]. cbn. split; [reflexivity|]. now rewrite ok_started. Qed.

Ltac calm_calls :=
  keeps_steps;
  try solve [ apply calm_setAndroidSerial
            | apply calm_setStarted
            | apply calm_quiet;
              first [ now apply quiet_sleep | now apply quiet_log | apply quiet_now
                    | now apply quiet_emit | now apply quiet_exec ] ].

Lemma calm_adbDevices : keeps (emits ok) (adbDevices host).
Proof. unfold adbDevices. calm_calls. Qed.

Lemma calm_isAndroidHealthy (serial : string) :
  keeps (emits ok) (isAndroidHealthy host opts env serial).
Proof. unfold isAndroidHealthy. calm_calls. Qed.

Lemma calm_healthyLoop (budget : nat) (retries i : Z) (serial : string) :
  keeps (emits ok) (healthyLoop host opts env budget retries i serial).
Proof.
  revert i. induction budget as [|b IH]; intros i; cbn [healthyLoop];
    calm_calls; solve [apply calm_isAndroidHealthy | apply IH].
Qed.

Lemma calm_bootLoop (fuel : nat) (deadline : Z) (serial : string) :
  keeps (emits ok) (bootLoop host opts fuel deadline serial).
Proof.
  induction fuel as [|f IH]; cbn [bootLoop]; unfold settled; calm_calls; apply IH.
Qed.

Lemma calm_awaitSerial (fuel : nat) (deadline : Z) :
  keeps (emits ok) (awaitSerial host fuel deadline).
Proof.
  induction fuel as [|f IH]; cbn [awaitSerial]; calm_calls;
    solve [apply calm_adbDevices | apply IH].
Qed.

Lemma calm_stopAndroid : keeps (emits ok) (stopAndroid host opts).
Proof. unfold stopAndroid. calm_calls. Qed.

Lemma calm_tryAdbRestart : keeps (emits ok) (tryAdbRestart host).
Proof. unfold tryAdbRestart. calm_calls. Qed.

End Calm.

Ltac calm_any :=
  keeps_steps;
  try solve [ apply calm_setAndroidSerial
            | apply calm_setStarted; reflexivity
            | apply calm_awaitSerial; reflexivity
            | apply calm_bootLoop; reflexivity
            | apply calm_healthyLoop; reflexivity
            | apply calm_isAndroidHealthy; reflexivity
            | apply calm_stopAndroid; reflexivity
            | apply calm_adbDevices; reflexivity
            | apply calm_quiet;
              first [ apply quiet_sleep; reflexivity | apply quiet_log; reflexivity
                    | apply quiet_now | apply quiet_emit; reflexivity
                    | apply quiet_exec; reflexivity ] ].

Lemma startAndroid_spawns_once (fuel : nat) (cold : bool) (s : St) :
  exists pre post,
    trace (snd (startAndroid host opts env fuel cold s)) =
    (trace s ++ pre ++ Spawn (emulatorCmd host) (emulatorArgs opts env cold) :: post)%list
    /\ spawns pre = [] /\ commands pre = ["adb start-server"]
    /\ spawns post = [].
Proof.
  unfold startAndroid. cbn zeta. fold (emulatorArgs opts env cold).
  unfold bind at 1.
  destruct (tryAdbRestart_runs s) as (a & s1 & E1 & T1). rewrite E1.
  unfold bind at 1. rewrite log_adds. unfold bind at 1. cbn [spawn world trace].
  match goal with
  | |- context [bind (now host) ?k ?x] =>
      assert (H : emits noSpawn x (snd (bind (now host) k x)))
  end.
  { match goal with
    | |- emits _ ?x (snd (?m ?x)) => cut (keeps (emits noSpawn) m); [intros Hk; apply Hk|]
    end.
    calm_any. }
  destruct H as (post & E & F). cbn [trace] in E.
  eexists (Exec "adb start-server" a :: logged opts _), post.
  split; [rewrite E, T1, <- !app_assoc; reflexivity|].
  cbn [spawns commands flat_map app]. fold (spawns (logged opts
    ("[android] starting emulator: " ++ emulatorCmd host ++ " "
     ++ join " " (emulatorArgs opts env cold) ++ " (headless="
     ++ (if nullish (orElse (androidOpt opts AndroidOpts.headless)
                       (orElse (envFlag (ANDROID_HEADLESS env))
                          (orElse (envFlag (HEADLESS env)) (envFlag (CI env))))) false
         then "true" else "false") ++ ")"))).
  split; [apply spawns_logged|]. split; [|now apply spawns_none].
  f_equal. apply commands_logged.
Qed.

(** *** How many emulators are started *)

Lemma emulatorStarts_calm (n : nat) (s s' : St) :
  emits noSpawn s s' -> emulatorStarts host opts env n s s'.
Proof.
  intros (evs & E & F). exists evs. rewrite (spawns_none evs F).
  split; [exact E|]. split; [cbn; lia | constructor].
Qed.

Lemma emulatorStarts_trans (n m : nat) (a b c : St) :
  emulatorStarts host opts env n a b -> emulatorStarts host opts env m b c ->
  emulatorStarts host opts env (n + m) a c.
Proof.
  intros (e1 & E1 & L1 & F1) (e2 & E2 & L2 & F2). exists (e1 ++ e2)%list.
  rewrite E2, E1, <- app_assoc, spawns_app, List.length_app.
  split; [reflexivity|]. split; [lia | now apply Forall_app].
Qed.

Lemma starts_calm {A} (n : nat) (m : M St A) :
  keeps (emits noSpawn) m -> keeps (emulatorStarts host opts env n) m.
Proof. intros H s. apply emulatorStarts_calm, H. Qed.

Lemma starts_bind {A B} (n : nat) (m : M St A) (k : A -> M St B) :
  keeps (emits noSpawn) m -> (forall a, keeps (emulatorStarts host opts env n) (k a)) ->
  keeps (emulatorStarts host opts env n) (bind m k).
Proof.
  intros Hm Hk s. unfold bind. specialize (Hm s).
  destruct (m s) as [[a|e|] s1]; cbn [snd] in *; try now apply emulatorStarts_calm.
  apply (emulatorStarts_trans 0 n s s1); [now apply emulatorStarts_calm | apply Hk].
Qed.

Lemma starts_tryCatch {A} (n k : nat) (m : M St A) (h : string -> M St A) :
  keeps (emulatorStarts host opts env n) m ->
  (forall e, keeps (emulatorStarts host opts env k) (h e)) ->
  keeps (emulatorStarts host opts env (n + k)) (tryCatch m h).
Proof.
  intros Hm Hh s. unfold tryCatch. specialize (Hm s).
  assert (Hw : forall x, emulatorStarts host opts env n s x ->
                         emulatorStarts host opts env (n + k) s x).
  { intros x (evs & E & L & F). exists evs. split; [exact E|]. split; [lia | exact F]. }
  destruct (m s) as [[a|e|] s1]; cbn [snd] in *; try now apply Hw.
  apply (emulatorStarts_trans n k s s1); [exact Hm | apply Hh].
Qed.

Lemma starts_startAndroid (fuel : nat) (cold : bool) :
  keeps (emulatorStarts host opts env 1) (startAndroid host opts env fuel cold).
Proof.
  intros s. destruct (startAndroid_spawns_once fuel cold s) as (pre & post & E & P1 & _ & P2).
  eexists. split; [exact E|].
  rewrite spawns_app. cbn [spawns flat_map]. fold (spawns post). rewrite P1, P2. cbn.
  split; [lia|]. constructor; [now exists cold | constructor].
Qed.

Lemma starts_startOrHealAndroid (fuel : nat) :
  keeps (emulatorStarts host opts env 1) (startOrHealAndroid host opts env fuel).
Proof.
  unfold startOrHealAndroid.
  destruct (negb (truthyOpt (configuredAvdName opts env))).
  { apply starts_calm. calm_any. }
  apply starts_bind; [calm_any | intros devices].
  destruct (findEmulator devices) as [running|]; [|apply starts_startAndroid].
  apply starts_bind; [calm_any | intros _].
  apply starts_bind; [calm_any | intros _].
  apply starts_bind; [calm_any | intros ok].
  destruct ok; [apply starts_calm; calm_any|].
  apply starts_bind; [calm_any | intros _].
  apply starts_bind; [calm_any | intros _].
  apply starts_startAndroid.
Qed.

Lemma starts_retryLoop (budget fuel : nat) (context : string) (retries attempt : Z) :
  keeps (emulatorStarts host opts env budget)
    (retryLoop host opts env budget fuel context retries attempt).
Proof.
  revert attempt. induction budget as [|b IH]; intros attempt; cbn [retryLoop];
    destruct (attempt <=? retries); try solve [apply starts_calm; calm_any].
  change (Datatypes.S b) with (1 + b)%nat.
  apply starts_tryCatch; [apply starts_startOrHealAndroid | intros e].
  unfold reportFailure.
  apply starts_bind; [calm_any; apply calm_tryAdbRestart; reflexivity | intros _].
  destruct (attempt <? retries); [| apply starts_calm; calm_any].
  apply starts_bind; [calm_any | intros _]. apply IH.
Qed.

Lemma starts_attempt (fuel : nat) (context : string) (s : St) (j : nat) :
  let before := attemptStart host opts env fuel context s in
  let tried := snd (startOrHealAndroid host opts env fuel (before j)) in
  emulatorStarts host opts env 1 (before j) tried
  /\ emulatorStarts host opts env 0 tried (before (Datatypes.S j)).
Proof.
  cbv zeta. split; [apply starts_startOrHealAndroid|].
  cbn [attemptStart].
  match goal with
  | |- emulatorStarts _ _ _ _ ?x (snd (?m ?x)) =>
      cut (keeps (emulatorStarts host opts env 0) m); [intros Hk; apply Hk|]
  end.
  apply starts_calm. unfold reportFailure.
  calm_any; apply calm_tryAdbRestart; reflexivity.
Qed.

(** *** Recovery of [ensureAndroidReadyWithRetry] *)

Section Recovers.

Variable fuel : nat.
Variable context : string.
Variable s0 : St.
Variable k : nat.
Variable s' : St.

Let r := emulatorRetries env.
Let before := attemptStart host opts env fuel context s0.

Hypothesis within_retries : Z.of_nat k <= r.
Hypothesis earlier_attempts_fail :
  forall j, (j < k)%nat ->
    exists e s1, startOrHealAndroid host opts env fuel (before j) = (Thrown e, s1).
Hypothesis attempt_succeeds :
  startOrHealAndroid host opts env fuel (before k) = (Returned tt, s').

Lemma retryLoop_recovers (d j n : nat) :
  (j + d = k)%nat -> (Z.of_nat j + Z.of_nat n = r + 1) ->
  retryLoop host opts env n fuel context r (Z.of_nat j) (before j) = (Returned tt, s').
Proof.
  revert j n. induction d as [|d IH]; intros j n Hj Hn.
  - assert (j = k) by lia. subst j.
    destruct n as [|n]; [lia|]. cbn [retryLoop].
    destruct (Z.leb_spec (Z.of_nat k) r); [|lia].
    unfold tryCatch. now rewrite attempt_succeeds.
  - destruct n as [|n]; [lia|]. cbn [retryLoop].
    destruct (Z.leb_spec (Z.of_nat j) r); [|lia].
    unfold tryCatch at 1.
    destruct (earlier_attempts_fail j ltac:(lia)) as (e & s1 & E).
    assert (Enext : before (Datatypes.S j) =
                    snd (bind (reportFailure host opts context r (Z.of_nat j)
                                 (raised (fst (startOrHealAndroid host opts env fuel (before j)))))
                           (fun _ => sleep host (backoffBase * (Z.of_nat j + 1)))
                           (snd (startOrHealAndroid host opts env fuel (before j)))))
      by reflexivity.
    rewrite E in *. cbn [raised fst snd] in Enext.
    unfold bind at 1. unfold bind at 1 in Enext.
    destruct (reportFailure_runs context r (Z.of_nat j) e s1) as (a & s2 & E2 & _).
    rewrite E2 in *. destruct (Z.ltb_spec (Z.of_nat j) r); [|lia].
    unfold bind at 1. cbn [sleep fst snd] in *. rewrite <- Enext.
    replace (Z.of_nat j + 1) with (Z.of_nat (Datatypes.S j)) by lia.
    apply IH; lia.
Qed.

Lemma ensure_recovers :
  ensureAndroidReadyWithRetry host opts env fuel context s0 = (Returned tt, s').
Proof.
  unfold ensureAndroidReadyWithRetry. cbn zeta. fold r.
  apply (retryLoop_recovers k 0 (Z.to_nat (r + 1))); lia.
Qed.

End Recovers.

(** *** What a return of the Android methods guarantees *)

Lemma hoare_any {A} (P : St -> Prop) (m : M St A) : hoare false P m (fun _ _ => True).
Proof. intros s _. split; [discriminate | auto]. Qed.

Lemma hoare_quiet_partial {A} (P : St -> Prop) (m : M St A) :
  keeps (quietBy notStarted) m -> stable P -> hoare false P m (fun _ => P).
Proof. intros Hm HP. now apply (hoare_kept_partial (quietBy notStarted)). Qed.

Lemma stable_ready : stable (fun s : St => androidReady s).
Proof.
  intros s s' [(Ha & _ & Hs) Hem] (H1 & serial & H2 & H3 & H4). split; [congruence|].
  exists serial. repeat split; [congruence | exact H3 | now apply (emits_In _ _ _ _ Hem)].
Qed.

Ltac any_then := eapply hoare_bind; [apply hoare_any | intros ?; cbv beta].

Ltac quiet_keep :=
  eapply hoare_bind;
    [ apply hoare_quiet_partial; [ quiet_any | stable_tac ] | intros ?; cbv beta ].

Lemma awaitSerial_found (fuel : nat) (deadline : Z) :
  hoare false (fun _ => True) (awaitSerial host fuel deadline)
    (fun found _ => forall serial, found = Some serial -> startsWith "emulator-" serial = true).
Proof.
  induction fuel as [|f IH]; cbn [awaitSerial]; any_then;
    match goal with |- hoare _ _ (if ?b then _ else _) _ => destruct b end;
    try apply hoare_exhausted;
    try solve [eapply hoare_weaken;
                 [ apply hoare_ret | intros ? H; exact H
                 | intros ? ? [-> _] serial E; discriminate E ]].
  any_then. destruct (findEmulator a0) as [serial|] eqn:Ef.
  - eapply hoare_weaken; [apply hoare_ret | intros ? H; exact H |].
    intros ? ? [-> _] x E. injection E as <-. apply (find_some _ _ Ef).
  - any_then. apply IH.
Qed.

Lemma isAndroidHealthy_post (serial : string) (P : St -> Prop) :
  stable P ->
  hoare false P (isAndroidHealthy host opts env serial)
    (fun ok s => P s /\ (ok = true -> In (Healthy serial) (trace s))).
Proof.
  intros HP s Hs. split; [discriminate|].
  pose proof (quiet_healthy serial s) as Q.
  destruct (isAndroidHealthy_cases serial s) as (b & s' & evs & E & _ & T & _ & _ & H & _).
  rewrite E in *. cbn [snd] in *. intros a Ea. injection Ea as <-.
  split; [now apply (HP s)|]. intros Hb. rewrite T. apply in_or_app. right. now apply H.
Qed.

Lemma waitForAndroidHealthy_post (serial : string) (P : St -> Prop) :
  stable P ->
  hoare false P (waitForAndroidHealthy host opts env serial)
    (fun ok s => P s /\ (ok = true -> In (Healthy serial) (trace s))).
Proof.
  intros HP s Hs. split; [discriminate|].
  pose proof (quiet_waitForAndroidHealthy serial s) as Q.
  unfold waitForAndroidHealthy in *.
  destruct (healthyLoop_cases (Z.to_nat (nullish (ANDROID_HEALTHCHECK_RETRIES env) 3 + 1))
              (nullish (ANDROID_HEALTHCHECK_RETRIES env) 3) 0 serial s ltac:(lia))
    as (b & s' & evs & E & _ & T & _ & _ & H & _).
  rewrite E in *. cbn [snd] in *. intros a Ea. injection Ea as <-.
  split; [now apply (HP s)|]. intros Hb. rewrite T. apply in_or_app. right. now apply H.
Qed.

Lemma setStarted_ready (serial : string) :
  startsWith "emulator-" serial = true ->
  hoare false (fun s => androidSerial s = Some serial /\ In (Healthy serial) (trace s))
    (@setStarted W opts) (fun _ s => androidReady s).
Proof.
  intros Hemu s [H1 H2]. split; [discriminate|]. intros _ _. cbn.
  split; [reflexivity|]. exists serial. repeat split; auto. apply in_or_app. now left.
Qed.

Lemma setAndroidSerial_post (serial : string) (P : St -> Prop) :
  hoare false P (@setAndroidSerial W serial) (fun _ s => androidSerial s = Some serial).
Proof. intros s _. split; [discriminate|]. intros _ _. reflexivity. Qed.

Lemma startAndroid_ready (fuel : nat) (cold : bool) :
  hoare false (fun _ => True) (startAndroid host opts env fuel cold) (fun _ s => androidReady s).
Proof.
  unfold startAndroid. cbn zeta.
  do 4 any_then.
  eapply hoare_bind; [apply awaitSerial_found | intros found; cbv beta].
  destruct found as [serial|]; [|apply hoare_throw].
  apply (hoare_weaken false (fun s => startsWith "emulator-" serial = true /\ True) _
           (fun _ s => androidReady s) _);
    [| intros s H; split; [now apply H | exact I] | auto].
  apply hoare_pure. intros Hemu.
  eapply hoare_bind; [apply setAndroidSerial_post | intros ?; cbv beta].
  do 4 quiet_keep.
  eapply hoare_bind; [apply waitForAndroidHealthy_post; stable_tac | intros ok; cbv beta].
  destruct ok; cbn [negb]; [|apply hoare_throw].
  apply (hoare_weaken false
           (fun s => androidSerial s = Some serial /\ In (Healthy serial) (trace s)) _
           (fun _ s => androidReady s) _);
    [| intros s [H1 H2]; auto | auto].
  quiet_keep.
  eapply hoare_bind; [now apply setStarted_ready | intros ?; cbv beta].
  apply hoare_quiet_partial; [quiet_any | apply stable_ready].
Qed.

Lemma startOrHealAndroid_ready (fuel : nat) :
  truthyOpt (configuredAvdName opts env) = true ->
  hoare false (fun _ => True) (startOrHealAndroid host opts env fuel)
    (fun _ s => androidReady s).
Proof.
  intros Havd. unfold startOrHealAndroid. rewrite Havd. cbn [negb].
  any_then.
  destruct (findEmulator a) as [running|] eqn:Ef; [|apply startAndroid_ready].
  assert (Hemu : startsWith "emulator-" running = true) by apply (find_some _ _ Ef).
  any_then.
  eapply hoare_bind; [apply setAndroidSerial_post | intros ?; cbv beta].
  eapply hoare_bind; [apply isAndroidHealthy_post; stable_tac | intros ok; cbv beta].
  destruct ok.
  - apply (hoare_weaken false
             (fun s => androidSerial s = Some running /\ In (Healthy running) (trace s)) _
             (fun _ s => androidReady s) _);
      [| intros s [H1 H2]; auto | auto].
    eapply hoare_bind; [now apply setStarted_ready | intros ?; cbv beta].
    apply hoare_quiet_partial; [quiet_any | apply stable_ready].
  - do 2 any_then.
    eapply hoare_weaken; [apply startAndroid_ready | auto | auto].
Qed.

Lemma retryLoop_ready (budget fuel : nat) (context : string) (retries attempt : Z) :
  truthyOpt (configuredAvdName opts env) = true ->
  attempt <= retries ->
  hoare false (fun _ => True) (retryLoop host opts env budget fuel context retries attempt)
    (fun _ s => androidReady s).
Proof.
  intros Havd. revert attempt. induction budget as [|b IH]; intros attempt Ha;
    cbn [retryLoop]; destruct (Z.leb_spec attempt retries); try lia.
  - apply hoare_exhausted.
  - apply hoare_tryCatch; [now apply startOrHealAndroid_ready | intros e].
    any_then. destruct (Z.ltb_spec attempt retries); [|apply hoare_throw].
    any_then. apply IH. lia.
Qed.

Lemma ensure_ready (fuel : nat) (context : string) (s s' : St) :
  truthyOpt (configuredAvdName opts env) = true ->
  0 <= emulatorRetries env ->
  ensureAndroidReadyWithRetry host opts env fuel context s = (Returned tt, s') ->
  androidReady s'.
Proof.
  intros Havd Hr E.
  destruct (retryLoop_ready (Z.to_nat (emulatorRetries env + 1)) fuel context
              (emulatorRetries env) 0 Havd Hr s I) as [_ H].
  unfold ensureAndroidReadyWithRetry in E. cbn zeta in E.
  specialize (H tt). rewrite E in H. now apply H.
Qed.

(** *** Properties of the single methods *)

(** X1: [isAndroidHealthy] never raises: it returns a boolean whatever the
    probes do, assigns no field and spawns nothing, and every sleep it takes
    is the health-check interval.  It returns [true] only after marking the
    device healthy, and only if [adb devices] resolved with a listing that
    has the serial, [get-state] resolved to [device], the release property
    resolved non-empty, [pm path android] resolved with a [package:] line and
    [sys.boot_completed] resolved to [1]. *)
Theorem isAndroidHealthy_sound (serial : string) (s : St) :
  exists b s' evs,
    isAndroidHealthy host opts env serial s = (Returned b, s')
    /\ sameFields s s'
    /\ trace s' = (trace s ++ evs)%list
    /\ spawns evs = []
    /\ Forall (fun ms => ms = healthInterval env) (sleeps evs)
    /\ (b = true -> In (Healthy serial) evs)
    /\ (b = true ->
        passed "adb devices" (fun out => existsb (String.eqb serial) (parseListing out)) evs
        /\ passed (adbCommand serial ["get-state"])
             (fun out => (trim out =? "device")%string) evs
        /\ passed (adbCommand serial ["shell"; "getprop"; "ro.build.version.release"])
             (fun out => truthy (trim out)) evs
        /\ passed (adbCommand serial ["shell"; "pm"; "path"; "android"])
             (includes "package:") evs
        /\ passed (adbCommand serial ["shell"; "getprop"; "sys.boot_completed"])
             (fun out => (trim out =? "1")%string) evs).
Proof. apply isAndroidHealthy_cases. Qed.

(** X2: [waitForAndroidHealthy] always returns a boolean, assigns no field
    and spawns nothing.  It returns [true] only after a health check marked
    the device healthy; when it returns [false] it has slept at least once
    per check, [ANDROID_HEALTHCHECK_RETRIES + 1] times the interval
    (the sleep after the last failed check included); and with a negative
    retry count it returns [false] at once, without any check. *)
Theorem waitForAndroidHealthy_bounded (serial : string) (s : St) :
  let retries := nullish (ANDROID_HEALTHCHECK_RETRIES env) 3 in
  exists b s' evs,
    waitForAndroidHealthy host opts env serial s = (Returned b, s')
    /\ sameFields s s'
    /\ trace s' = (trace s ++ evs)%list
    /\ spawns evs = []
    /\ Forall (fun ms => ms = healthInterval env) (sleeps evs)
    /\ (b = true -> In (Healthy serial) evs)
    /\ (b = false -> retries + 1 <= Z.of_nat (List.length (sleeps evs)))
    /\ (retries < 0 -> b = false /\ evs = []).
Proof.
  intros retries. unfold waitForAndroidHealthy. fold retries.
  destruct (healthyLoop_cases (Z.to_nat (retries + 1)) retries 0 serial s ltac:(lia))
    as (b & s' & evs & E & F & T & P & Z1 & H & L & N).
  exists b, s', evs. repeat split; try apply F; try apply N; auto.
  intros Hb. specialize (L Hb). lia.
Qed.

(** X3: [stopAndroid] never raises, even when both kill commands fail; it
    assigns no field (the serial stays tracked) and spawns nothing.  With no
    serial tracked it runs no command; otherwise it runs [adb -s serial emu
    kill], and [adb kill-server] after it exactly when the kill was
    rejected. *)
Theorem stopAndroid_never_raises (s : St) :
  exists s' evs,
    stopAndroid host opts s = (Returned tt, s')
    /\ sameFields s s'
    /\ trace s' = (trace s ++ evs)%list
    /\ spawns evs = []
    /\ match androidSerial s with
       | Some serial =>
           if truthy serial then
             match fst (run host (adbCommand serial ["emu"; "kill"]) (world s)) with
             | Resolves _ => commands evs = [adbCommand serial ["emu"; "kill"]]
             | Rejects _ =>
                 commands evs = [adbCommand serial ["emu"; "kill"]; "adb kill-server"]
             end
           else commands evs = []
       | None => commands evs = []
       end.
Proof. apply stopAndroid_cases. Qed.

(** X4: [onComplete] never raises and assigns no field: [started] is not
    reset and the identifiers stay tracked.  It leaves the store untouched
    when [started] is false, and on iOS also when [killOnComplete] is not
    set; on Android with [killOnComplete] not set and [started] true it is
    [stopAndroid]. *)
Theorem onComplete_never_raises (s : St) :
  exists s' evs,
    onComplete host opts s = (Returned tt, s')
    /\ sameFields s s'
    /\ trace s' = (trace s ++ evs)%list
    /\ spawns evs = []
    /\ (started s = false -> s' = s)
    /\ (platform opts = ios -> iosOpt opts IOSOpts.killOnComplete = None -> s' = s)
    /\ (platform opts = android -> androidOpt opts AndroidOpts.killOnComplete = None ->
        started s = true -> onComplete host opts s = stopAndroid host opts s).
Proof. apply onComplete_cases. Qed.

(** X5: on a host whose clock never goes back and on which a sleep lets
    its time pass, the hooks end: with an iteration budget [fuel] that
    covers the boot timeouts at the polling intervals (1500 ms on Android,
    where [waitForBootComplete] waits for at least 60 s, and 1000 ms on
    iOS), no polling loop of [onPrepare], [beforeSession] or [onComplete]
    is cut short, so each of them returns or raises. *)
Theorem hooks_terminate (time : W -> Z) (fuel : nat) (s : St) :
  WellTimed host time ->
  Z.max (androidBootTimeout opts) 60000 <= 1500 * Z.of_nat fuel ->
  iosBootTimeout opts <= 1000 * Z.of_nat fuel ->
  fst (onPrepare host opts env fuel s) <> OutOfFuel
  /\ fst (beforeSession host opts env fuel s) <> OutOfFuel
  /\ fst (onComplete host opts s) <> OutOfFuel.
Proof. intros Ht Ha Hi. now apply (hooks_end time Ht). Qed.

(** X6: on such a host, when [adb devices] always resolves but never lists
    an emulator, [startAndroid] raises the error that the emulator did not
    appear within the boot timeout; it assigns no field, and it does not
    give up before the boot timeout has passed. *)
Theorem startAndroid_times_out (time : W -> Z) (fuel : nat) (cold : bool) (s : St) :
  WellTimed host time ->
  (forall w, exists out w',
     run host "adb devices" w = (Resolves out, w')
     /\ findEmulator (parseListing out) = None) ->
  androidBootTimeout opts <= 1500 * Z.of_nat fuel ->
  exists s',
    startAndroid host opts env fuel cold s = (Thrown (notListedMessage opts), s')
    /\ sameFields s s'
    /\ time (world s) + androidBootTimeout opts <= time (world s').
Proof. intros Ht Hn Hf. now apply (startAndroid_gives_up time Ht Hn). Qed.

(** X7: however it ends, [startAndroid] spawns exactly one child: the
    emulator, with the arguments [emulatorArgs]; before it only [adb
    start-server] is run, and nothing is spawned after it. *)
Theorem startAndroid_one_emulator (fuel : nat) (cold : bool) (s : St) :
  exists pre post,
    trace (snd (startAndroid host opts env fuel cold s)) =
    (trace s ++ pre ++ Spawn (emulatorCmd host) (emulatorArgs opts env cold) :: post)%list
    /\ spawns pre = [] /\ commands pre = ["adb start-server"]
    /\ spawns post = [].
Proof. apply startAndroid_spawns_once. Qed.

(** X8: however it ends, [ensureAndroidReadyWithRetry] spawns at most
    [ANDROID_EMULATOR_RETRIES + 1] children, each of them the emulator of
    the configured AVD; and at most one of them per attempt: at most one
    while [startOrHealAndroid] runs in attempt [j], and none in the [catch]
    block and the sleep that lead to attempt [j + 1]. *)
Theorem ensureReady_spawn_bound (fuel : nat) (context : string) (s : St) :
  (exists evs,
     trace (snd (ensureAndroidReadyWithRetry host opts env fuel context s)) =
     (trace s ++ evs)%list
     /\ (List.length (spawns evs) <= Z.to_nat (emulatorRetries env + 1))%nat
     /\ Forall (fun p => exists cold, p = (emulatorCmd host, emulatorArgs opts env cold))
          (spawns evs))
  /\ forall j,
       let before := attemptStart host opts env fuel context s in
       let tried := snd (startOrHealAndroid host opts env fuel (before j)) in
       emulatorStarts host opts env 1 (before j) tried
       /\ emulatorStarts host opts env 0 tried (before (Datatypes.S j)).
Proof. split; [apply starts_retryLoop | apply starts_attempt]. Qed.

(** X9: when the attempts before attempt [k] raise and attempt [k], which
    is within the retries, returns, [ensureAndroidReadyWithRetry] returns
    with the store that attempt leaves: a failure is not reported once a
    later attempt succeeds. *)
Theorem ensureReady_recovers (fuel : nat) (context : string) (s0 s' : St) (k : nat) :
  let before := attemptStart host opts env fuel context s0 in
  Z.of_nat k <= emulatorRetries env ->
  (forall j, (j < k)%nat ->
     exists e s1, startOrHealAndroid host opts env fuel (before j) = (Thrown e, s1)) ->
  startOrHealAndroid host opts env fuel (before k) = (Returned tt, s') ->
  ensureAndroidReadyWithRetry host opts env fuel context s0 = (Returned tt, s').
Proof. intros before Hk Hfail Hok. now apply (ensure_recovers fuel context s0 k s'). Qed.

(** X10: with an AVD name configured and a retry count that is not
    negative, a return of [ensureAndroidReadyWithRetry] means that the
    device is ready: [started] is set, and the serial tracked starts with
    [emulator-] and was confirmed by a health check. *)
Theorem ensureReady_return_means_ready (fuel : nat) (context : string) (s s' : St) :
  truthyOpt (configuredAvdName opts env) = true ->
  0 <= emulatorRetries env ->
  ensureAndroidReadyWithRetry host opts env fuel context s = (Returned tt, s') ->
  androidReady s'.
Proof. apply ensure_ready. Qed.

(** X11: with a negative [ANDROID_EMULATOR_RETRIES] the loop of
    [ensureAndroidReadyWithRetry] is not entered: the call returns at once
    and leaves the store as it was, also when an AVD name is configured. *)
Theorem ensureReady_negative_retries (fuel : nat) (context : string) (s : St) :
  emulatorRetries env < 0 ->
  ensureAndroidReadyWithRetry host opts env fuel context s = (Returned tt, s).
Proof.
  intros Hr. unfold ensureAndroidReadyWithRetry. cbn zeta.
  replace (Z.to_nat (emulatorRetries env + 1)) with 0%nat by lia. cbn [retryLoop].
  destruct (Z.leb_spec 0 (emulatorRetries env)); [lia | reflexivity].
Qed.

(** X12: off macOS the iOS hook [onPrepare] returns without running any
    command or spawning anything, and assigns no field. *)
Theorem startIOS_skips_off_mac (fuel : nat) (s : St) :
  platform opts = ios ->
  osPlatform host <> "darwin" ->
  exists s',
    onPrepare host opts env fuel s = (Returned tt, s')
    /\ sameFields s s'
    /\ emits noCommand s s'.
Proof.
  intros Hp Hos. unfold onPrepare, startIOS. rewrite Hp.
  destruct (String.eqb_spec (osPlatform host) "darwin") as [E|_]; [contradiction|].
  cbn [negb]. rewrite log_adds. eexists. split; [reflexivity|].
  split; [now repeat split|]. eexists. split; [reflexivity|]. now apply logged_quiet.
Qed.

(** X13: a simulator that [onPrepare] finds already booted is tracked but
    never shut down: [started] stays false, so the [onComplete] that follows
    returns without doing anything, whatever [killOnComplete] says. *)
Theorem booted_simulator_never_shut_down (fuel : nat) (s s1 : St) (target : string) :
  platform opts = ios ->
  osPlatform host = "darwin" ->
  orStr (iosOpt opts IOSOpts.udid) (IOS_UDID env) = Some target ->
  truthy target = true ->
  isBooted host target s = (Returned true, s1) ->
  started s = false ->
  exists s',
    onPrepare host opts env fuel s = (Returned tt, s')
    /\ iosUdid s' = Some target
    /\ started s' = false
    /\ onComplete host opts s' = (Returned tt, s').
Proof.
  intros Hp Hos Hudid Ht Hb Hs.
  destruct (startIOS_already_booted fuel s s1 target Hos Hudid Ht Hb)
    as (s' & E & Hu & Hst & _).
  exists s'. unfold onPrepare. rewrite Hp.
  split; [exact E|]. split; [exact Hu|]. split; [congruence|].
  unfold onComplete, bind, get. now rewrite Hst, Hs.
Qed.

(** *** Reading the listing of [adb devices] *)

Lemma not_ws_not (sep : ascii) (s : string) :
  is_ws sep = true ->
  forallb_str (fun c => negb (is_ws c)) s = true ->
  forallb_str (fun d => negb (Ascii.eqb d sep)) s = true.
Proof.
  intros Hsep. apply forallb_str_impl. intros c Hc.
  destruct (Ascii.eqb_spec c sep) as [->|]; [|reflexivity].
  now rewrite Hsep in Hc.
Qed.

Lemma listing_line (serial state : string) :
  plainWord serial = true -> plainWord state = true ->
  hd "" (split (ascii_of_nat 9) (trim (serial ++ String (ascii_of_nat 9) state))) = serial.
Proof.
  unfold plainWord. intros Hs Ht.
  apply andb_prop in Hs as [Hs1 Hs2]. apply andb_prop in Ht as [Ht1 Ht2].
  destruct serial as [|c serial]; [discriminate|].
  destruct state as [|e state]; [discriminate|].
  assert (Hc : is_ws c = false).
  { cbn [forallb_str] in Hs2. apply andb_prop in Hs2 as [H _]. now apply negb_true_iff. }
  destruct (lastChar_some e state) as (d & Hd).
  assert (Hws : is_ws d = false).
  { apply negb_true_iff. exact (lastChar_all _ _ _ Ht2 Hd). }
  cbn [append].
  rewrite (trim_keeps c d); [| exact Hc | | exact Hws].
  - change (String c (serial ++ String (ascii_of_nat 9) (String e state)))
      with (String c serial ++ String (ascii_of_nat 9) (String e state)).
    rewrite split_app_sep; [reflexivity|]. now apply not_ws_not.
  - assert (E : String c (serial ++ String (ascii_of_nat 9) (String e state))
               = (String c serial ++ String (ascii_of_nat 9) "") ++ String e state)
      by (cbn [append]; f_equal; now rewrite append_assoc).
    rewrite E, lastChar_append. exact Hd.
Qed.

Lemma listing_body (devices : list (string * string)) :
  Forall (fun d => plainWord (fst d) = true /\ plainWord (snd d) = true) devices ->
  filter truthy
    (map (fun l => hd "" (split (ascii_of_nat 9) (trim l)))
       (split (ascii_of_nat 10)
          (fold_right
             (fun d rest =>
                fst d ++ String (ascii_of_nat 9) (snd d ++ String (ascii_of_nat 10) rest))
             (String (ascii_of_nat 10) "") devices)))
  = map fst devices.
Proof.
  induction 1 as [|[serial state] devices [Hs Ht] _ IH]; [reflexivity|].
  cbn [fold_right fst snd map] in *.
  assert (E : forall rest,
             serial ++ String (ascii_of_nat 9) (state ++ String (ascii_of_nat 10) rest)
             = (serial ++ String (ascii_of_nat 9) state) ++ String (ascii_of_nat 10) rest).
  { intros rest. rewrite append_assoc. reflexivity. }
  rewrite E, split_app_sep.
  - cbn [map filter]. rewrite (listing_line _ _ Hs Ht), IH.
    unfold plainWord in Hs. apply andb_prop in Hs as [Hs _]. now rewrite Hs.
  - unfold plainWord in Hs, Ht.
    apply andb_prop in Hs as [_ Hs]. apply andb_prop in Ht as [_ Ht].
    rewrite forallb_str_append. cbn [forallb_str].
    rewrite (not_ws_not (ascii_of_nat 10) _ eq_refl Hs),
      (not_ws_not (ascii_of_nat 10) _ eq_refl Ht). reflexivity.
Qed.

Lemma parseListing_listingOf (devices : list (string * string)) :
  Forall (fun d => plainWord (fst d) = true /\ plainWord (snd d) = true) devices ->
  parseListing (listingOf devices) = map fst devices.
Proof.
  intros H. unfold parseListing, listingOf.
  rewrite split_app_sep by reflexivity. cbn [tl]. now apply listing_body.
Qed.

(** X14: when [adb devices] prints the header, one line [serial TAB state]
    per device and the closing empty line, [adbDevices] returns the serials
    of the devices, in the order of the listing. *)
Theorem adbDevices_reads_listing (devices : list (string * string)) (s : St) (w : W) :
  Forall (fun d => plainWord (fst d) = true /\ plainWord (snd d) = true) devices ->
  run host "adb devices" (world s) = (Resolves (listingOf devices), w) ->
  fst (adbDevices host s) = Returned (map fst devices).
Proof.
  intros Hd Hr. unfold adbDevices, bind, exec. rewrite Hr. cbn [ret fst].
  f_equal. now apply parseListing_listingOf.
Qed.


(** *** The probes of the simulator *)

Lemma firstUdid_sound (s u : string) :
  firstUdid s = Some u ->
  String.length u = 36%nat
  /\ forallb_str isUdidChar u = true
  /\ exists pre post, s = pre ++ u ++ post.
Proof.
  induction s as [|c s IH]; intros H.
  - cbn in H. discriminate.
  - cbn [firstUdid] in H.
    destruct ((String.length (take 36 (String c s)) =? 36)%nat
              && forallb_str isUdidChar (take 36 (String c s))) eqn:E.
    + injection H as <-. apply andb_prop in E as [E1 E2]. apply Nat.eqb_eq in E1.
      split; [exact E1|]. split; [exact E2|].
      destruct (take_prefix 36 (String c s)) as (rest & Er). now exists "", rest.
    + destruct (IH H) as (L & F & pre & post & Es).
      split; [exact L|]. split; [exact F|]. exists (String c pre), post. cbn. now rewrite <- Es.
Qed.

Lemma isBooted_cases (udid : string) (s : St) :
  let cmd := "xcrun simctl list devices booted | grep " ++ udid in
  exists b s',
    isBooted host udid s = (Returned b, s')
    /\ sameFields s s'
    /\ commands (skipn (List.length (trace s)) (trace s')) = [cmd]
    /\ (b = true -> In (Healthy udid) (trace s'))
    /\ b = match fst (run host cmd (world s)) with
           | Resolves out => includes udid out
           | Rejects _ => false
           end.
Proof.
  intros cmd. unfold isBooted, tryCatch, bind, exec. fold cmd.
  destruct (run host cmd (world s)) as [[out|e] w]; cbn [fst snd];
    [destruct (includes udid out)|];
    cbn [fst snd emit modify ret];
    eexists _, _; (split; [reflexivity|]); (split; [now repeat split|]);
    cbn [trace]; rewrite <- ?app_assoc, skipn_app, skipn_all, Nat.sub_diag;
    (split; [reflexivity|]); (split; [|reflexivity]); intros Hb; try discriminate Hb.
  apply in_or_app. right. right. now left.
Qed.

Lemma findUdidByName_cases (name : string) (s : St) :
  let cmd := "xcrun simctl list devices | grep " ++ String (ascii_of_nat 34) name
             ++ String (ascii_of_nat 34) " | grep -v unavailable | tail -n 1" in
  exists r s',
    findUdidByName host name s = (Returned r, s')
    /\ sameFields s s'
    /\ trace s' = (trace s ++ [Exec cmd (fst (run host cmd (world s)))])%list
    /\ match fst (run host cmd (world s)) with
       | Resolves out =>
           r = firstUdid out
           /\ forall u, r = Some u ->
                String.length u = 36%nat
                /\ forallb_str isUdidChar u = true
                /\ exists pre post, out = pre ++ u ++ post
       | Rejects _ => r = None
       end.
Proof.
  intros cmd. unfold findUdidByName, tryCatch, bind, exec. fold cmd.
  destruct (run host cmd (world s)) as [[out|e] w]; cbn [fst snd ret];
    eexists _, _; (split; [reflexivity|]); (split; [now repeat split|]);
    (split; [reflexivity|]); [|reflexivity].
  split; [reflexivity|]. intros u. apply firstUdid_sound.
Qed.

(** X15: the two probes of the simulator never raise.  [isBooted] runs one
    command and answers [true] exactly when it resolved with an output that
    has the UDID.  [findUdidByName] runs one command; when that is rejected
    it returns nothing, and a UDID it returns is a run of 36 characters of
    the class (hexadecimal digits and dashes) taken from the output. *)
Theorem simulator_probes_never_raise (id : string) (s : St) :
  (exists b s',
     isBooted host id s = (Returned b, s')
     /\ sameFields s s'
     /\ b = match fst (run host ("xcrun simctl list devices booted | grep " ++ id) (world s)) with
            | Resolves out => includes id out
            | Rejects _ => false
            end)
  /\ (exists r s',
        findUdidByName host id s = (Returned r, s')
        /\ sameFields s s'
        /\ forall u, r = Some u ->
             String.length u = 36%nat
             /\ forallb_str isUdidChar u = true
             /\ exists out pre post,
                  In (Exec ("xcrun simctl list devices | grep " ++ String (ascii_of_nat 34) id
                            ++ String (ascii_of_nat 34) " | grep -v unavailable | tail -n 1")
                        (Resolves out)) (trace s')
                  /\ out = pre ++ u ++ post).
Proof.
  split.
  - destruct (isBooted_cases id s) as (b & s' & E & F & _ & _ & Hb). now exists b, s'.
  - destruct (findUdidByName_cases id s) as (r & s' & E & F & T & H). exists r, s'.
    split; [exact E|]. split; [exact F|]. intros u Hu.
    destruct (fst (run host _ (world s))) as [out|e]; [|congruence].
    destruct H as [_ H]. destruct (H u Hu) as (L & C & pre & post & Eo).
    split; [exact L|]. split; [exact C|]. exists out, pre, post. split; [|exact Eo].
    rewrite T. apply in_or_app. right. now left.
Qed.

Lemma isBooted_post (udid : string) (P : St -> Prop) :
  stable P ->
  hoare false P (isBooted host udid)
    (fun ok s => P s /\ (ok = true -> In (Healthy udid) (trace s))).
Proof.
  intros HP s Hs. split; [discriminate|].
  pose proof (quiet_booted udid s) as Q.
  destruct (isBooted_cases udid s) as (b & s' & E & _ & _ & H & _).
  rewrite E in *. cbn [snd] in *. intros a Ea. injection Ea as <-.
  split; [now apply (HP s) | exact H].
Qed.

Lemma stable_started : stable (fun s : St => started s = true).
Proof. intros s s' [(_ & _ & Hs) _] H. now rewrite Hs. Qed.

Lemma exec_post (cmd : string) (P : St -> Prop) :
  hoare false P (exec host cmd) (fun out s => In (Exec cmd (Resolves out)) (trace s)).
Proof.
  intros s _. split; [discriminate|]. unfold exec.
  destruct (run host cmd (world s)) as [[out|e] w]; intros a E; [|discriminate E].
  injection E as <-. cbn. apply in_or_app. right. now left.
Qed.

Lemma startIOS_boots (fuel : nat) (s s1 s' : St) (target : string) :
  osPlatform host = "darwin" ->
  orStr (iosOpt opts IOSOpts.udid) (IOS_UDID env) = Some target ->
  truthy target = true ->
  isBooted host target s = (Returned false, s1) ->
  startIOS host opts env fuel s = (Returned tt, s') ->
  started s' = true
  /\ iosUdid s' = Some target
  /\ In (Healthy target) (trace s')
  /\ exists out, In (Exec ("xcrun simctl boot " ++ target) (Resolves out)) (trace s').
Proof.
  intros Hos Hudid Ht Hb. unfold startIOS. rewrite Hos, String.eqb_refl. cbn [negb]. cbn zeta.
  rewrite Hudid. cbn [truthyOpt]. rewrite Ht.
  unfold bind at 1. cbn [ret]. rewrite Ht. cbn [negb].
  unfold bind at 1. rewrite Hb.
  match goal with
  | |- ?m s1 = _ -> _ =>
      assert (H : hoare false (fun _ => True) m
                    (fun _ x =>
                       started x = true
                       /\ iosUdid x = Some target
                       /\ In (Healthy target) (trace x)
                       /\ exists out,
                            In (Exec ("xcrun simctl boot " ++ target) (Resolves out)) (trace x)))
  end.
  2: { intros E. destruct (H s1 I) as [_ H']. specialize (H' tt). rewrite E in H'.
       now apply H'. }
  any_then.
  eapply hoare_bind; [apply exec_post | intros out; cbv beta].
  do 3 quiet_keep.
  eapply hoare_bind; [apply isBooted_post; stable_tac | intros ok; cbv beta].
  destruct ok; cbn [negb]; [|apply hoare_throw].
  apply (hoare_bind false _
           (fun _ x => iosUdid x = Some target
                       /\ In (Healthy target) (trace x)
                       /\ In (Exec ("xcrun simctl boot " ++ target) (Resolves out)) (trace x))).
  { intros x [H1 H2]. split; [discriminate|]. intros _ _. cbn. auto. }
  intros _.
  apply (hoare_bind false _
           (fun _ x => started x = true
                       /\ iosUdid x = Some target
                       /\ In (Healthy target) (trace x)
                       /\ In (Exec ("xcrun simctl boot " ++ target) (Resolves out)) (trace x))).
  { intros x (H1 & H2 & H3). split; [discriminate|]. intros _ _. cbn.
    repeat split; auto; apply in_or_app; now left. }
  intros _.
  apply (hoare_weaken false
           (fun x => started x = true
                     /\ iosUdid x = Some target
                     /\ In (Healthy target) (trace x)
                     /\ In (Exec ("xcrun simctl boot " ++ target) (Resolves out)) (trace x))
           _
           (fun _ x => started x = true
                       /\ iosUdid x = Some target
                       /\ In (Healthy target) (trace x)
                       /\ In (Exec ("xcrun simctl boot " ++ target) (Resolves out)) (trace x))
           _).
  - apply hoare_quiet_partial; [quiet_any|].
    apply stable_and; [apply stable_started|].
    apply stable_and; [apply stable_udid|].
    apply stable_and; apply stable_In.
  - intros x H. exact H.
  - cbv beta. intros _ x (H1 & H2 & H3 & H4). eauto.
Qed.

(** X16: when the simulator is not booted at first, a return of [startIOS]
    means that it was booted and confirmed: [simctl boot] resolved, a later
    probe found the simulator booted, its UDID is tracked and [started] is
    set. *)
Theorem startIOS_return_after_boot (fuel : nat) (s s1 s' : St) (target : string) :
  osPlatform host = "darwin" ->
  orStr (iosOpt opts IOSOpts.udid) (IOS_UDID env) = Some target ->
  truthy target = true ->
  isBooted host target s = (Returned false, s1) ->
  startIOS host opts env fuel s = (Returned tt, s') ->
  started s' = true
  /\ iosUdid s' = Some target
  /\ In (Healthy target) (trace s')
  /\ exists out, In (Exec ("xcrun simctl boot " ++ target) (Resolves out)) (trace s').
Proof. apply startIOS_boots. Qed.

End Facts.

End DeviceFacts.

(* --------------------------------------------------------------------- *)
(** ** The service under the two configurations *)
(* --------------------------------------------------------------------- *)

Module ConfFacts.
Import Js Eff DeviceLauncher Conf.

Lemma isTruthyString_zero : isTruthyString "0" = false.
Proof. reflexivity. Qed.

Lemma killOnComplete_true (v : option string) : killOnComplete v = true.
Proof.
  unfold killOnComplete, boolFrom, isTruthy. destruct v as [s|]; [|reflexivity].
  cbn [nullish]. destruct (isTruthyString s) eqn:E; [|reflexivity]. cbn [negb].
  destruct (String.eqb_spec s "0") as [->|]; [|reflexivity].
  rewrite isTruthyString_zero in E. discriminate.
Qed.

(** X17: the expression both configurations give for [killOnComplete] is
    true for every value of the variable, set or not.  So when [started]
    is set, [onComplete] under the Android configuration runs [emu kill] on
    the tracked emulator, and under the iOS configuration it runs [simctl
    shutdown] on the tracked simulator: no setting of
    [ANDROID_KILL_ON_COMPLETE] or [IOS_KILL_ON_COMPLETE] turns that off. *)
Theorem configured_services_always_kill {W} (host : Host W) (env : ProcessEnv)
    (bootTimeout kill : option _) (s : Store W) (id : string) :
  started s = true ->
  truthy id = true ->
  killOnComplete kill = true
  /\ (androidSerial s = Some id ->
      exists s' evs,
        onComplete host (androidService env bootTimeout kill) s = (Returned tt, s')
        /\ trace s' = (trace s ++ evs)%list
        /\ hd_error (commands evs) = Some (adbCommand id ["emu"; "kill"]))
  /\ (iosUdid s = Some id ->
      exists s' evs,
        onComplete host (iosService env bootTimeout kill) s = (Returned tt, s')
        /\ trace s' = (trace s ++ evs)%list
        /\ commands evs = ["xcrun simctl shutdown " ++ id]).
Proof.
  intros Hs Ht. split; [apply killOnComplete_true|]. split; intros Hid.
  - destruct (DeviceFacts.stopAndroid_cases host (androidService env bootTimeout kill) s)
      as (s' & evs & E & _ & T & _ & C).
    exists s', evs. split; [|split; [exact T|]].
    + unfold onComplete, bind, get. rewrite Hs. cbn [negb platform androidService].
      unfold androidOpt. cbn [androidService androidOpts AndroidOpts.killOnComplete nullish].
      rewrite killOnComplete_true. exact E.
    + rewrite Hid, Ht in C.
      destruct (fst (run host (adbCommand id ["emu"; "kill"]) (world s))); now rewrite C.
  - destruct (DeviceFacts.stopIOS_cases host (iosService env bootTimeout kill) s)
      as (s' & evs & E & _ & T & _ & C).
    exists s', evs. split; [|split; [exact T|]].
    + unfold onComplete, bind, get. rewrite Hs. cbn [negb platform iosService].
      unfold iosOpt. cbn [iosService iosOpts IOSOpts.killOnComplete nullish].
      rewrite killOnComplete_true. exact E.
    + now rewrite Hid, Ht in C.
Qed.

(** X18: under the two configurations the variables [HEADLESS] and [CI]
    have no effect on the service: the configurations always set the
    [headless] option, from [ANDROID_HEADLESS] or [IOS_HEADLESS] alone, and
    the service consults the environment only when the option is missing.
    Every hook runs the same with any other values of the two variables. *)
Theorem configured_services_ignore_HEADLESS_and_CI {W} (host : Host W) (env : ProcessEnv)
    (bootTimeout kill h c : option _) (fuel : nat) (s : Store W) :
  onPrepare host (androidService (withHeadless h c env) bootTimeout kill)
    (withHeadless h c env) fuel s
  = onPrepare host (androidService env bootTimeout kill) env fuel s
  /\ beforeSession host (androidService (withHeadless h c env) bootTimeout kill)
       (withHeadless h c env) fuel s
     = beforeSession host (androidService env bootTimeout kill) env fuel s
  /\ onPrepare host (iosService (withHeadless h c env) bootTimeout kill)
       (withHeadless h c env) fuel s
     = onPrepare host (iosService env bootTimeout kill) env fuel s.
Proof.
  destruct env. repeat split; reflexivity.
Qed.

End ConfFacts.

(* --------------------------------------------------------------------- *)
(** ** The theorems at work on the scenarios *)
(* --------------------------------------------------------------------- *)

Module ScenarioFacts.
Import Js Eff DeviceLauncher Scenarios.

Example healthyHost_lists_one_emulator :
  fst (adbDevices healthyHost (initial tt)) = Returned ["emulator-5554"].
Proof. reflexivity. Qed.

Example firstUdid_of_listing_line :
  firstUdid ("    iPhone 15 (" ++ simUdid ++ ") (Shutdown)") = Some simUdid.
Proof. reflexivity. Qed.

(** [quoteNS] leaves a backslash as it is, so a text with one does not read
    back: the reader takes the backslash and the letter after it for an
    escape. *)
Example quoteNS_backslash_not_read_back :
  Locator.readLiteral (Locator.quoteNS quotedPath) <> Some (quotedPath, "").
Proof. vm_compute. discriminate. Qed.

Lemma text_factories_round_trip_witness :
  Locator.readLiteral (Locator.quoteJava quotedPath) = Some (quotedPath, "")
  /\ Locator.readLiteral (Locator.quoteNS quotedWord) = Some (quotedWord, "").
Proof.
  split.
  - apply (proj1 (LocatorFacts.text_factories_round_trip quotedPath)). reflexivity.
  - apply (proj2 (LocatorFacts.text_factories_round_trip quotedWord)). reflexivity.
Defined.

Lemma deadAdb_always_fails (s : Store unit) :
  exists e s', startOrHealAndroid deadAdb pixelService noEnv 0 s = (Thrown e, s').
Proof. eexists _, _. reflexivity. Qed.

Lemma ensureReady_exhausts_retries_witness :
  exists e s',
    ensureAndroidReadyWithRetry deadAdb pixelService noEnv 0 "onPrepare" (initial tt)
    = (Thrown e, s').
Proof.
  destruct (DeviceFacts.ensureReady_exhausts_retries deadAdb pixelService noEnv
              0 "onPrepare" 2 (initial tt) eq_refl ltac:(lia)
              (fun k _ => deadAdb_always_fails _))
    as (_ & err & after & _ & _ & (a & s' & E & _) & _).
  exists (err (Z.to_nat 2)), s'. exact E.
Defined.

Lemma ensureReady_healthy_boots_nothing_witness :
  exists s',
    ensureAndroidReadyWithRetry healthyHost pixelService noEnv 0 "beforeSession" (initial tt)
    = (Returned tt, s')
    /\ started s' = true
    /\ androidSerial s' = Some "emulator-5554"
    /\ emits (checkOnly "emulator-5554") (initial tt) s'.
Proof.
  eapply (DeviceFacts.ensureReady_healthy_boots_nothing healthyHost pixelService noEnv
            0 "beforeSession" (initial tt)).
  - vm_compute. discriminate.
  - reflexivity.
  - vm_compute. reflexivity.
  - reflexivity.
  - vm_compute. reflexivity.
Defined.

Lemma ensureReady_skips_without_avd_witness :
  exists s',
    ensureAndroidReadyWithRetry deadAdb unnamedService noEnv 0 "onPrepare" (initial tt)
    = (Returned tt, s')
    /\ sameFields (initial tt) s'
    /\ (started (initial tt) = false -> started s' = false)
    /\ emits noCommand (initial tt) s'.
Proof.
  apply (DeviceFacts.ensureReady_skips_without_avd deadAdb unnamedService noEnv
           0 "onPrepare" (initial tt)); reflexivity.
Defined.


(** The port reaches the emulator as [String(port)] writes it. *)
Example emulatorArgs_port :
  emulatorArgs pixelService
    (mkEnv None (Some 5556) None None None None None None None None None None None None)
    false
  = ["-avd"; "Pixel_6_API_34"; "-netdelay"; "none"; "-netspeed"; "full"; "-no-boot-anim";
     "-port"; "5556"].
Proof. vm_compute. reflexivity. Qed.

Example emulatorArgs_huge_port :
  emulatorArgs pixelService hugePort true
  = ["-avd"; "Pixel_6_API_34"; "-netdelay"; "none"; "-netspeed"; "full"; "-no-boot-anim";
     "-port"; "1e+21"; "-no-snapshot-load"]
  /\ spawns (trace (snd (startAndroid deadAdb pixelService hugePort 0 true (initial tt))))
     = [("emulator", emulatorArgs pixelService hugePort true)].
Proof. vm_compute. split; reflexivity. Qed.



(** C9 fails on the code: on a Mac where the configured simulator is
    already booted, [onPrepare] returns with the UDID tracked and without
    a boot command, but leaves [started] false; [onComplete], asked to shut
    the simulator down, then does nothing. *)
Theorem startIOS_booted_leaves_started_false :
  let r := onPrepare bootedMac simService noEnv 0 (initial tt) in
  fst r = Returned tt
  /\ iosUdid (snd r) = Some simUdid
  /\ started (snd r) = false
  /\ forallb (noBoot simUdid) (trace (snd r)) = true
  /\ onComplete bootedMac simService (snd r) = (Returned tt, snd r).
Proof. vm_compute. repeat split. Qed.

Lemma emptyBench_timed : WellTimed emptyBench (fun w => w).
Proof. split; intros; cbn; lia. Qed.

Lemma hooks_terminate_witness :
  fst (onPrepare emptyBench pixelService noEnv 200 (initial 0)) <> OutOfFuel
  /\ fst (beforeSession emptyBench pixelService noEnv 200 (initial 0)) <> OutOfFuel
  /\ fst (onComplete emptyBench pixelService (initial 0)) <> OutOfFuel.
Proof.
  apply (DeviceFacts.hooks_terminate emptyBench pixelService noEnv (fun w => w) 200 (initial 0)).
  - apply emptyBench_timed.
  - vm_compute. discriminate.
  - vm_compute. discriminate.
Defined.

Lemma startAndroid_times_out_witness :
  exists s',
    startAndroid emptyBench pixelService noEnv 200 false (initial 0)
    = (Thrown (notListedMessage pixelService), s')
    /\ sameFields (initial 0) s'
    /\ 0 + androidBootTimeout pixelService <= world s'.
Proof.
  apply (DeviceFacts.startAndroid_times_out emptyBench pixelService noEnv (fun w => w)
           200 false (initial 0)).
  - apply emptyBench_timed.
  - intros w. eexists _, _. split; reflexivity.
  - vm_compute. discriminate.
Defined.

Lemma ensureReady_recovers_witness :
  ensureAndroidReadyWithRetry coldAdb pixelService noEnv 0 "onPrepare" (initial false)
  = (Returned tt,
     snd (startOrHealAndroid coldAdb pixelService noEnv 0
            (attemptStart coldAdb pixelService noEnv 0 "onPrepare" (initial false) 1))).
Proof.
  apply (DeviceFacts.ensureReady_recovers coldAdb pixelService noEnv 0 "onPrepare"
           (initial false) _ 1).
  - vm_compute. discriminate.
  - intros j Hj. assert (j = 0%nat) as -> by lia. eexists _, _. vm_compute. reflexivity.
  - vm_compute. reflexivity.
Defined.

Lemma ensureReady_return_means_ready_witness :
  androidReady
    (snd (ensureAndroidReadyWithRetry healthyHost pixelService noEnv 0 "onPrepare" (initial tt))).
Proof.
  apply (DeviceFacts.ensureReady_return_means_ready healthyHost pixelService noEnv
           0 "onPrepare" (initial tt)).
  - reflexivity.
  - vm_compute. discriminate.
  - vm_compute. reflexivity.
Defined.

Lemma ensureReady_negative_retries_witness :
  ensureAndroidReadyWithRetry healthyHost pixelService noAttempts 0 "onPrepare" (initial tt)
  = (Returned tt, initial tt).
Proof.
  apply (DeviceFacts.ensureReady_negative_retries healthyHost pixelService noAttempts
           0 "onPrepare" (initial tt)).
  vm_compute. reflexivity.
Defined.

Lemma startIOS_skips_off_mac_witness :
  exists s',
    onPrepare deadAdb simService noEnv 0 (initial tt) = (Returned tt, s')
    /\ sameFields (initial tt) s'
    /\ emits noCommand (initial tt) s'.
Proof.
  apply (DeviceFacts.startIOS_skips_off_mac deadAdb simService noEnv 0 (initial tt)).
  - reflexivity.
  - vm_compute. discriminate.
Defined.

Lemma booted_simulator_never_shut_down_witness :
  exists s',
    onPrepare bootedMac simService noEnv 0 (initial tt) = (Returned tt, s')
    /\ iosUdid s' = Some simUdid
    /\ started s' = false
    /\ onComplete bootedMac simService s' = (Returned tt, s').
Proof.
  eapply (DeviceFacts.booted_simulator_never_shut_down bootedMac simService noEnv
            0 (initial tt) _ simUdid).
  - reflexivity.
  - reflexivity.
  - reflexivity.
  - reflexivity.
  - vm_compute. reflexivity.
  - reflexivity.
Defined.

Lemma adbDevices_reads_listing_witness :
  fst (adbDevices twoDevices (initial tt)) = Returned ["emulator-5554"; "R58M41XYZ"].
Proof.
  apply (DeviceFacts.adbDevices_reads_listing twoDevices
           [("emulator-5554", "device"); ("R58M41XYZ", "unauthorized")] (initial tt) tt).
  - repeat constructor.
  - reflexivity.
Defined.

Lemma startIOS_return_after_boot_witness :
  let s' := snd (startIOS coldMac simService noEnv 1 (initial false)) in
  started s' = true
  /\ iosUdid s' = Some simUdid
  /\ In (Healthy simUdid) (trace s')
  /\ exists out, In (Exec ("xcrun simctl boot " ++ simUdid) (Resolves out)) (trace s').
Proof.
  eapply (DeviceFacts.startIOS_return_after_boot coldMac simService noEnv 1 (initial false)
            _ _ simUdid).
  - reflexivity.
  - reflexivity.
  - reflexivity.
  - vm_compute. reflexivity.
  - vm_compute. reflexivity.
Defined.

Lemma configured_services_always_kill_witness :
  let s := mkStore (Some simUdid) (Some simUdid) true tt [] in
  Conf.killOnComplete (Some "0") = true
  /\ (androidSerial s = Some simUdid ->
      exists s' evs,
        onComplete deadAdb (Conf.androidService noEnv None (Some "0")) s = (Returned tt, s')
        /\ trace s' = (trace s ++ evs)%list
        /\ hd_error (commands evs) = Some (adbCommand simUdid ["emu"; "kill"]))
  /\ (iosUdid s = Some simUdid ->
      exists s' evs,
        onComplete deadAdb (Conf.iosService noEnv None (Some "0")) s = (Returned tt, s')
        /\ trace s' = (trace s ++ evs)%list
        /\ commands evs = ["xcrun simctl shutdown " ++ simUdid]).
Proof.
  apply (ConfFacts.configured_services_always_kill deadAdb noEnv None (Some "0")
           (mkStore (Some simUdid) (Some simUdid) true tt []) simUdid); reflexivity.
Defined.

End ScenarioFacts.
